(** * Claim-trie RPC layer (src/rpc/claimtrie.cpp): ranking, identifier
      resolution, proof selection and chain rewind.

    The development is a shallow embedding of the functions of
    [src/rpc/claimtrie.cpp].  Integers of the source are modelled as [Z]
    (with the conversions of the source written out where the source
    converts), vectors as lists read with stdpp's lookup [l !! i], the
    key/value store behind [pclaimTrie->db] as the ordered list of its
    entries, and the exceptions of the source as an explicit outcome. *)

From Stdlib Require Import ZArith String Ascii List Lia Bool.
From Stdlib Require Import Sorting.Permutation Sorting.Sorted.
From stdpp Require Import base tactics option list sorting.

Import ListNotations.
Set Warnings "-register-all,-automation".
Local Open Scope Z_scope.
Local Open Scope list_scope.

(** ** Machine integers *)

(** [int] conversion of the source, [(int)x]: two's complement on 32 bits. *)
Definition to_int (z : Z) : Z := (z + 2 ^ 31) mod 2 ^ 32 - 2 ^ 31.

(** [uint32_t(x)] conversion. *)
Definition to_uint32 (z : Z) : Z := z mod 2 ^ 32.

(** Arithmetic on [size_t]. *)
Definition to_size_t (z : Z) : Z := z mod 2 ^ 64.

(** Signed arithmetic of the source (block heights are [int], a
    [CAmount] is [int64_t]) is done in [Z]: signed overflow is undefined
    in the source and does not arise on chain data, where heights stay far
    below [2^31 - 500] and amounts are bounded by the money supply. *)

Definition CAmount := Z.

(** ** Identifiers *)

(** A [uint160] is the 160-bit number it denotes, a [uint256] likewise. *)
Definition uint160 := Z.
Definition uint256 := Z.

Definition claimIdHexLength : nat := 40.

(** [HexDigit] of the source tree's string utilities: the value of a
    hexadecimal character (either case), [None] for any other character. *)
Definition HexDigit (c : ascii) : option Z :=
  let k := Z.of_N (N_of_ascii c) in
  if (48 <=? k) && (k <=? 57) then Some (k - 48)
  else if (97 <=? k) && (k <=? 102) then Some (k - 87)
  else if (65 <=? k) && (k <=? 70) then Some (k - 55)
  else None.

Definition hex_char (d : Z) : ascii :=
  if d <? 10 then ascii_of_N (Z.to_N (48 + d)) else ascii_of_N (Z.to_N (87 + d)).

(** The [k] lowest hexadecimal digits of [z], most significant first, in
    lower case, in front of [acc]. *)
Fixpoint hex_digits (k : nat) (z : Z) (acc : string) : string :=
  match k with
  | O => acc
  | S k' => hex_digits k' (z / 16) (String (hex_char (z mod 16)) acc)
  end.

(** Modelled from the spec: [base_blob::GetHex] (uint256.h is not under
    src/).  A 160-bit identifier is written as 40 hexadecimal characters,
    most significant digit first, in lower case. *)
Definition GetHex (id : uint160) : string := hex_digits 40 id EmptyString.

(** The same for a 256-bit hash: 64 characters. *)
Definition GetHex256 (h : uint256) : string := hex_digits 64 h EmptyString.

Arguments GetHex : simpl never.
Arguments GetHex256 : simpl never.

(** The number denoted by the leading hexadecimal characters of [s],
    continuing [acc]. *)
Fixpoint parse_hex (s : string) (acc : Z) : Z :=
  match s with
  | EmptyString => acc
  | String c s' =>
      match HexDigit c with
      | Some d => parse_hex s' (16 * acc + d)
      | None => acc
      end
  end.

(** The string behind a leading [0x] or [0X], the string itself when it
    has none. *)
Definition skip_0x (s : string) : string :=
  match s with
  | String a (String b rest) =>
      if Ascii.eqb a "0" && (Ascii.eqb b "x" || Ascii.eqb b "X") then rest else s
  | _ => s
  end.

(** Modelled from the spec: [base_blob::SetHex] (uint256.h is not under
    src/): a string of 40 hexadecimal characters, in either case, denotes
    the 160-bit identifier with these digits.  A [0x] in front of the
    digits is skipped, as the blob parser of the node does; such a string
    can reach [uint160S], because [IsHexNumber] lets it through. *)
Definition SetHex (s : string) : uint160 := parse_hex (skip_0x s) 0 mod 2 ^ 160.

(** [uint160S], lines 24-29. *)
Definition uint160S (str : string) : uint160 := SetHex str.

(** [uint160::IsNull]. *)
Definition IsNull (id : uint160) : bool := id =? 0.

(** ** Registry records (declared in claimtrie.h; the fields are the ones
       this file reads) *)

Record COutPoint := mkOutPoint { hash : uint256; n : Z }.

Record CClaimValue := mkClaimValue {
  outPoint : COutPoint;
  claimId : uint160;
  nAmount : CAmount;
  nHeight : Z;
  nValidAtHeight : Z
}.

Module Support.
Record CSupportValue := mkSupportValue {
  outPoint : COutPoint;
  nAmount : CAmount;
  nHeight : Z;
  nValidAtHeight : Z
}.
End Support.
Export Support (CSupportValue, mkSupportValue).

Record CClaimNsupports := mkClaimNsupports {
  claim : CClaimValue;
  effectiveAmount : CAmount;
  supports : list CSupportValue
}.

Record CClaimSupportToName := mkClaimSupportToName {
  name : string;
  nLastTakeoverHeight : Z;
  claimsNsupports : list CClaimNsupports;
  unmatchedSupports : list CSupportValue
}.

(** ** [std::sort] and [std::find_if] *)

Section StdAlgorithms.
Context {A : Type}.

(** [std::sort(first, last, comp)]: the result is ordered by [comp] and
    holds the elements of the input; the order of elements that [comp]
    does not separate is left open by the standard.  The model inserts
    each element behind the elements that [comp] puts before it (the
    insertion pass the standard library runs on short ranges); the
    properties below rest on the ordering and on the rearrangement only. *)
Fixpoint sort_insert (comp : A -> A -> bool) (x : A) (l : list A) : list A :=
  match l with
  | [] => [x]
  | y :: t => if comp y x then y :: sort_insert comp x t else x :: y :: t
  end.

Fixpoint std_sort (comp : A -> A -> bool) (l : list A) : list A :=
  match l with
  | [] => []
  | x :: t => sort_insert comp x (std_sort comp t)
  end.

(** [std::find_if(first, last, pred)] followed by [std::distance]:
    the position of the first element accepted by [pred]; [None] stands
    for the end iterator. *)
Fixpoint find_if (pred : A -> bool) (l : list A) : option nat :=
  match l with
  | [] => None
  | x :: t => if pred x then Some O else option_map S (find_if pred t)
  end.
End StdAlgorithms.

(** ** Ranking: [seqSort] and [indexOf] *)

(** The comparator of [seqSort], lines 177-181. *)
Definition seqSort_comp (lhs rhs : CClaimNsupports) : bool :=
  let lc := claim lhs in
  let rc := claim rhs in
  (nHeight lc <? nHeight rc)
  || ((nHeight lc =? nHeight rc) && (n (outPoint lc) <? n (outPoint rc))).

(** The two objects [seqSort] works on: its argument, taken by const
    reference, and the local copy that is sorted and returned. *)
Record seqSortFrame := mkSeqSortFrame {
  frame_source : list CClaimNsupports;
  frame_claimsNsupports : list CClaimNsupports
}.

(** [seqSort], lines 173-184, statement by statement. *)
Definition seqSort_frame (source : list CClaimNsupports) : seqSortFrame :=
  (* auto claimsNsupports = source; *)
  let fr := mkSeqSortFrame source source in
  (* std::sort(claimsNsupports.begin(), claimsNsupports.end(), comp); *)
  mkSeqSortFrame (frame_source fr)
                 (std_sort seqSort_comp (frame_claimsNsupports fr)).

Definition seqSort (source : list CClaimNsupports) : list CClaimNsupports :=
  (* return claimsNsupports; *)
  frame_claimsNsupports (seqSort_frame source).

(** The search of [indexOf], lines 188-190 and 192; [None] is
    [source.end()]. *)
Definition indexOf_pos (source : list CClaimNsupports) (id : uint160) : option nat :=
  find_if (fun claimNsupports => claimId (claim claimNsupports) =? id) source.

(** ** Outcomes, index accesses and the monad of a request *)

Inductive RPCErrorCode :=
| RPC_INVALID_PARAMETER
| RPC_INTERNAL_ERROR
| RPC_INVALID_ADDRESS_OR_KEY
| RPC_METHOD_DEPRECATED.

Inductive Exception :=
| JSONRPCError (code : RPCErrorCode) (message : string)
| thread_interrupted
| AssertionFailure.

Inductive Outcome (A : Type) :=
| Return (a : A)
| Throw (e : Exception).
Arguments Return {A} a.
Arguments Throw {A} e.

Module IndexElement.
(** [CClaimIndexElement]: the value stored under an identifier. *)
Record CClaimIndexElement := mkIndexElement {
  name : string;
  claim : CClaimValue
}.
End IndexElement.
Export IndexElement (CClaimIndexElement, mkIndexElement).

(** One entry of [pclaimTrie->db] as a cursor sees it: [GetKey] read as a
    [std::pair<uint8_t, uint160>] and [GetValue] read as a
    [CClaimIndexElement]; [None] is a failed read. *)
Record DbEntry := mkDbEntry {
  GetKey : option (Z * uint160);
  GetValue : option CClaimIndexElement
}.

(** The store is the list of its entries in iteration order. *)
Definition CDBWrapper := list DbEntry.

Definition CScript := list Z.
Definition CTxDestination := list Z.

Record Coin := mkCoin { IsSpent : bool; scriptPubKey : CScript }.
Definition CCoinsViewCache := COutPoint -> Coin.

Record CClaimTrieProofNode := mkProofNode {
  children : list (Z * uint256);
  node_hasValue : bool;
  valHash : uint256
}.

Record CClaimTrieProof := mkProof {
  nodes : list CClaimTrieProofNode;
  pairs : list (bool * uint256);
  hasValue : bool;
  proof_outPoint : COutPoint;
  nHeightOfLastTakeover : Z
}.

(** The predicate handed to the proof builder: an empty
    [std::function] is [None]. *)
Definition ClaimPredicate := option (CClaimValue -> bool).

(** The registry cache, for what this file asks of it. *)
Record CClaimTrieCache := mkTrieCache {
  getClaimsForName : string -> CClaimSupportToName;
  getProofForName : string -> ClaimPredicate -> option CClaimTrieProof
}.

(** What a request does to its collaborators, in order. *)
Inductive Event :=
| EvDbRead (id : uint160)
| EvDbSeekToFirst
| EvDbCursor (e : DbEntry)
| EvGetClaimsForName (name : string)
| EvGetProofForName (name : string) (comp : ClaimPredicate).

Definition is_scan_event (ev : Event) : bool :=
  match ev with
  | EvDbSeekToFirst | EvDbCursor _ => true
  | _ => false
  end.

Definition Rpc (A : Type) : Type := list Event * Outcome A.

Definition ret {A} (a : A) : Rpc A := ([], Return a).
Definition throw {A} (e : Exception) : Rpc A := ([], Throw e).
Definition emit (ev : Event) : Rpc unit := ([ev], Return tt).

Definition bind {A B} (m : Rpc A) (f : A -> Rpc B) : Rpc B :=
  match m with
  | (evs, Return a) => let '(evs', r) := f a in (evs ++ evs', r)
  | (evs, Throw e) => (evs, Throw e)
  end.

Declare Scope rpc_scope.
Delimit Scope rpc_scope with rpc.
Notation "x <- m ;; k" := (bind m (fun x => k))
  (at level 100, m at next level, right associativity) : rpc_scope.
Notation "m ;;; k" := (bind m (fun _ => k))
  (at level 100, right associativity) : rpc_scope.

Definition events {A} (m : Rpc A) : list Event := fst m.
Definition outcome {A} (m : Rpc A) : Outcome A := snd m.

(** ** UniValue *)

(** The [T_*] macros of rpc/claimrpchelp.h (not under src/) are pairwise
    distinct string literals; they are the constructors of [Key]. *)
Inductive Key :=
| T_NAME | T_VALUE | T_ADDRESS | T_CLAIMID | T_TXID | T_N | T_HEIGHT
| T_VALIDATHEIGHT | T_AMOUNT | T_EFFECTIVEAMOUNT | T_PENDINGAMOUNT
| T_SUPPORTS | T_NORMALIZEDNAME | T_CLAIMS | T_LASTTAKEOVERHEIGHT
| T_SUPPORTSWITHOUTCLAIM | T_BID | T_SEQUENCE | T_BLOCKHASH
| T_NODES | T_CHILDREN | T_CHARACTER | T_NODEHASH | T_VALUEHASH
| T_PAIRS | T_ODD | T_HASH.

Definition Key_eqb (a b : Key) : bool :=
  match a, b with
  | T_NAME, T_NAME | T_VALUE, T_VALUE | T_ADDRESS, T_ADDRESS
  | T_CLAIMID, T_CLAIMID | T_TXID, T_TXID | T_N, T_N | T_HEIGHT, T_HEIGHT
  | T_VALIDATHEIGHT, T_VALIDATHEIGHT | T_AMOUNT, T_AMOUNT
  | T_EFFECTIVEAMOUNT, T_EFFECTIVEAMOUNT | T_PENDINGAMOUNT, T_PENDINGAMOUNT
  | T_SUPPORTS, T_SUPPORTS | T_NORMALIZEDNAME, T_NORMALIZEDNAME
  | T_CLAIMS, T_CLAIMS | T_LASTTAKEOVERHEIGHT, T_LASTTAKEOVERHEIGHT
  | T_SUPPORTSWITHOUTCLAIM, T_SUPPORTSWITHOUTCLAIM | T_BID, T_BID
  | T_SEQUENCE, T_SEQUENCE | T_BLOCKHASH, T_BLOCKHASH | T_NODES, T_NODES
  | T_CHILDREN, T_CHILDREN | T_CHARACTER, T_CHARACTER
  | T_NODEHASH, T_NODEHASH | T_VALUEHASH, T_VALUEHASH | T_PAIRS, T_PAIRS
  | T_ODD, T_ODD | T_HASH, T_HASH => true
  | _, _ => false
  end.

(** A JSON value; an object keeps its members in insertion order. *)
Inductive UniValue :=
| VNULL
| VOBJ (members : list (Key * UniValue))
| VARR (values : list UniValue)
| VSTR (s : string)
| VNUM (z : Z)
| VBOOL (b : bool).

(** [UniValue::pushKV]: the value of an existing key is replaced, a new
    key is appended. *)
Fixpoint set_member (k : Key) (v : UniValue) (ms : list (Key * UniValue))
  : list (Key * UniValue) :=
  match ms with
  | [] => [(k, v)]
  | (k', v') :: t =>
      if Key_eqb k' k then (k', v) :: t else (k', v') :: set_member k v t
  end.

Definition pushKV (o : UniValue) (k : Key) (v : UniValue) : UniValue :=
  match o with
  | VOBJ ms => VOBJ (set_member k v ms)
  | _ => o
  end.

(** [UniValue::pushKVs]: the members of [obj] are appended. *)
Definition pushKVs (o obj : UniValue) : UniValue :=
  match o, obj with
  | VOBJ ms, VOBJ ms' => VOBJ (ms ++ ms')
  | _, _ => o
  end.

Definition push_back (a : UniValue) (v : UniValue) : UniValue :=
  match a with
  | VARR vs => VARR (vs ++ [v])
  | _ => a
  end.

(** [find_value]: the member stored under a key, if any. *)
Fixpoint find_member (k : Key) (ms : list (Key * UniValue)) : option UniValue :=
  match ms with
  | [] => None
  | (k', v) :: t => if Key_eqb k' k then Some v else find_member k t
  end.

Definition find_value (o : UniValue) (k : Key) : option UniValue :=
  match o with
  | VOBJ ms => find_member k ms
  | _ => None
  end.

Definition isStr (v : UniValue) : bool :=
  match v with VSTR _ => true | _ => false end.

Definition get_str (v : UniValue) : string :=
  match v with VSTR s => s | _ => EmptyString end.

(** ** Collaborators outside this file *)

(** Constants and functions this file calls and that are declared
    elsewhere in the source tree or in its libraries. *)
Record Collaborators := mkCollaborators {
  (** key tag of the identifier index, claimtrie.h *)
  CLAIM_BY_ID : Z;
  (** opcode of a name claim, script.h *)
  OP_CLAIM_NAME : Z;
  (** the string literal behind a [T_*] macro *)
  key_text : Key -> string;
  (** [boost::locale::conv::to_utf<char>(name, "UTF-8", stop)];
      [None] is [conversion_error] *)
  to_utf : string -> option string;
  (** [DecodeClaimScript(script, op, vvchParams)] *)
  DecodeClaimScript : CScript -> option (Z * list (list Z));
  (** [ExtractDestination(script, address)] *)
  ExtractDestination : CScript -> option CTxDestination;
  EncodeDestination : CTxDestination -> string;
  (** [CClaimSupportToName::find(const uint160&)] *)
  find : CClaimSupportToName -> uint160 -> CClaimNsupports;
  (** [CClaimSupportToName::find(const std::string&)], by identifier prefix *)
  find_by_prefix : CClaimSupportToName -> string -> CClaimNsupports;
  (** [CClaimNsupports::IsNull()] *)
  CClaimNsupports_IsNull : CClaimNsupports -> bool
}.

Definition byte_of (c : ascii) : Z := Z.of_N (N_of_ascii c).

Definition backslash : ascii := ascii_of_nat 92.
Definition dquote : ascii := ascii_of_nat 34.

Definition esc (c : ascii) : string := String backslash (String c EmptyString).

(** [HexStr(begin, end)]: two lower-case digits per byte. *)
Fixpoint HexStr (bytes : list Z) : string :=
  match bytes with
  | [] => EmptyString
  | b :: t => String (hex_char (b / 16)) (String (hex_char (b mod 16)) (HexStr t))
  end.

(** The [catch] branch of [escapeNonUtf8], lines 93-107, for one byte. *)
Definition escape_byte (c : ascii) : string :=
  let ch := byte_of c in
  if (ch <? 8) || ((14 <=? ch) && (ch <=? 31)) || (127 <=? ch)
  then String backslash (String "u"%char (hex_digits 4 ch EmptyString))
  else if ch =? 8 then esc "b"%char
  else if ch =? 9 then esc "t"%char
  else if ch =? 10 then esc "n"%char
  else if ch =? 12 then esc "f"%char
  else if ch =? 13 then esc "r"%char
  else if ch =? 34 then esc dquote
  else if ch =? 92 then esc backslash
  else String c EmptyString.

Fixpoint escape_bytes (s : string) : string :=
  match s with
  | EmptyString => EmptyString
  | String c s' => String.append (escape_byte c) (escape_bytes s')
  end.

(** ** The request handlers

    A handler is modelled from the point where [validateRequest] has
    counted its parameters.  Where the request may name a historical
    block, [trieCache] and [coinsCache] are the caches the handler works
    on after its optional [RollBackTo], which is modelled on its own
    further down; [db] is the store behind [pclaimTrie->db]. *)

Section Rpc.
Context (X : Collaborators).
Local Open Scope rpc_scope.

(** [escapeNonUtf8], lines 87-109. *)
Definition escapeNonUtf8 (name : string) : string :=
  match to_utf X name with
  | Some converted => converted
  | None => escape_bytes name
  end.

(** [extractValue], lines 111-125. *)
Definition extractValue (scriptPubKey : CScript) : option string :=
  match DecodeClaimScript X scriptPubKey with
  | None => None
  | Some (op, vvchParams) =>
      if op =? OP_CLAIM_NAME X then Some (HexStr (nth 1 vvchParams []))
      else if (2 <? Z.of_nat (length vvchParams))
           then Some (HexStr (nth 2 vvchParams []))
           else None
  end.

(** [db->Read(std::make_pair(CLAIM_BY_ID, claimId), element)]. *)
Definition key_is (key : Z * uint160) (e : DbEntry) : bool :=
  match GetKey e with
  | Some (tag, id) => (tag =? fst key) && (id =? snd key)
  | None => false
  end.

Definition db_Read (db : CDBWrapper) (key : Z * uint160)
  : option CClaimIndexElement :=
  match List.find (key_is key) db with
  | Some e => GetValue e
  | None => None
  end.

(** [getClaimById(const uint160&, name, claim)], lines 127-142.
    [Some (name, claim)] is the result [true] with the two outputs. *)
Definition getClaimById (db : CDBWrapper) (id : uint160)
  : Rpc (option (string * CClaimValue)) :=
  if IsNull id then ret None
  else
    emit (EvDbRead id) ;;;
    match db_Read db (CLAIM_BY_ID X, id) with
    | None => ret None
    | Some element =>
        if claimId (IndexElement.claim element) =? id
        then ret (Some (IndexElement.name element, IndexElement.claim element))
        else ret None
    end.

(** The loop of lines 152-169 from the cursor's position on; [name] is
    the value the caller passed in. *)
Fixpoint scanClaimById (partialId name : string) (cursor : list DbEntry)
  : Rpc (option (string * CClaimValue)) :=
  match cursor with
  | [] => ret None
  | e :: rest =>
      emit (EvDbCursor e) ;;;
      match GetKey e with
      | None => scanClaimById partialId name rest
      | Some (tag, id) =>
          if negb (tag =? CLAIM_BY_ID X) then scanClaimById partialId name rest
          else if negb (String.prefix partialId (GetHex id))
          then scanClaimById partialId name rest
          else
            match GetValue e with
            | Some element =>
                if negb (String.eqb name EmptyString)
                   && negb (String.eqb name (IndexElement.name element))
                then scanClaimById partialId name rest
                else ret (Some (IndexElement.name element,
                                IndexElement.claim element))
            | None => scanClaimById partialId name rest
            end
      end
  end.

(** [getClaimById(const std::string& partialId, name, claim)],
    lines 145-171. *)
Definition getClaimByPartialId (db : CDBWrapper) (partialId name : string)
  : Rpc (option (string * CClaimValue)) :=
  if String.eqb partialId EmptyString then ret None
  else emit EvDbSeekToFirst ;;; scanClaimById partialId name db.

(** [indexOf], lines 186-193: the [assert] fails when nothing is found. *)
Definition indexOf (source : list CClaimNsupports) (id : uint160) : Rpc nat :=
  match indexOf_pos source id with
  | Some p => ret p
  | None => throw AssertionFailure
  end.

(** The part of [claimToJSON] and [supportToJSON] that reads the coin. *)
Definition coinToJSON (coinsCache : CCoinsViewCache) (o : COutPoint)
                      (result : UniValue) : UniValue :=
  let coin := coinsCache o in
  if negb (IsSpent coin) then
    let result :=
      match extractValue (scriptPubKey coin) with
      | Some value => pushKV result T_VALUE (VSTR value)
      | None => result
      end in
    match ExtractDestination X (scriptPubKey coin) with
    | Some address => pushKV result T_ADDRESS (VSTR (EncodeDestination X address))
    | None => result
    end
  else result.

(** [claimToJSON], lines 195-222. *)
Definition claimToJSON (db : CDBWrapper) (coinsCache : CCoinsViewCache)
                       (claim : CClaimValue) : Rpc UniValue :=
  let result := VOBJ [] in
  found <- getClaimById db (claimId claim) ;;
  let result :=
    match found with
    | Some (targetName, _) => pushKV result T_NAME (VSTR (escapeNonUtf8 targetName))
    | None => result
    end in
  let result := coinToJSON coinsCache (outPoint claim) result in
  let result := pushKV result T_CLAIMID (VSTR (GetHex (claimId claim))) in
  let result := pushKV result T_TXID (VSTR (GetHex256 (hash (outPoint claim)))) in
  let result := pushKV result T_N (VNUM (to_int (n (outPoint claim)))) in
  let result := pushKV result T_HEIGHT (VNUM (nHeight claim)) in
  let result := pushKV result T_VALIDATHEIGHT (VNUM (nValidAtHeight claim)) in
  let result := pushKV result T_AMOUNT (VNUM (nAmount claim)) in
  ret result.

(** [supportToJSON], lines 224-246. *)
Definition supportToJSON (coinsCache : CCoinsViewCache) (support : CSupportValue)
  : UniValue :=
  let ret := VOBJ [] in
  let ret := coinToJSON coinsCache (Support.outPoint support) ret in
  let ret := pushKV ret T_TXID (VSTR (GetHex256 (hash (Support.outPoint support)))) in
  let ret := pushKV ret T_N (VNUM (to_int (n (Support.outPoint support)))) in
  let ret := pushKV ret T_HEIGHT (VNUM (Support.nHeight support)) in
  let ret := pushKV ret T_VALIDATHEIGHT (VNUM (Support.nValidAtHeight support)) in
  let ret := pushKV ret T_AMOUNT (VNUM (Support.nAmount support)) in
  ret.

(** [amountToClaim], lines 248-254. *)
Definition amountToClaim (claimNsupports : CClaimNsupports) : CAmount :=
  fold_left (fun fullAmount support => fullAmount + Support.nAmount support)
            (supports claimNsupports)
            (nAmount (claim claimNsupports)).

(** [claimAndSupportsToJSON], lines 256-275. *)
Definition claimAndSupportsToJSON (db : CDBWrapper) (coinsCache : CCoinsViewCache)
                                  (claimNsupports : CClaimNsupports) : Rpc UniValue :=
  let claim := claim claimNsupports in
  let supports := supports claimNsupports in
  result <- claimToJSON db coinsCache claim ;;
  let result := pushKV result T_EFFECTIVEAMOUNT (VNUM (effectiveAmount claimNsupports)) in
  let fullAmount := amountToClaim claimNsupports in
  let result :=
    if fullAmount >? effectiveAmount claimNsupports
    then pushKV result T_PENDINGAMOUNT (VNUM fullAmount)
    else result in
  let supportObjs :=
    fold_left (fun objs support => push_back objs (supportToJSON coinsCache support))
              supports (VARR []) in
  let result := pushKV result T_SUPPORTS supportObjs in
  ret result.

Definition is_hex_char (c : ascii) : bool :=
  match HexDigit c with Some _ => true | None => false end.

Fixpoint all_hex (s : string) : bool :=
  match s with
  | EmptyString => true
  | String c s' => is_hex_char c && all_hex s'
  end.

(** [IsHexNumber] of the node's string utilities (util/strencodings.cpp,
    which is not under src/), as the node defines it: a [0x] at the head
    of a string of more than two characters is skipped; every character
    from there on has to be a hexadecimal digit, and there has to be at
    least one.  The length may be odd: this is what the comment on line
    33 refers to, and what gives the minimum of 3 characters on line 550
    its meaning. *)
Definition IsHexNumber (str : string) : bool :=
  let starting_location :=
    if (2 <? String.length str)%nat && String.prefix "0x" str then 2%nat else O in
  all_hex (String.substring starting_location
                            (String.length str - starting_location) str)
  && (starting_location <? String.length str)%nat.

(** [ParseClaimtrieId], lines 31-38; the result is the [claimId] output. *)
Definition ParseClaimtrieId (v : UniValue) (strName : string) : Rpc string :=
  if negb (isStr v) || negb (IsHexNumber (get_str v))
  then throw (JSONRPCError RPC_INVALID_PARAMETER
                (String.append strName " must be a hexadecimal string"))
  else
    let claimId := get_str v in
    if (claimIdHexLength <? String.length claimId)%nat
    then throw (JSONRPCError RPC_INVALID_PARAMETER
                  (String.append strName
                     " must be max 20-character hexadecimal string"))
    else ret claimId.

(** [getclaimbyid], lines 547-557: validation of the parameter and
    resolution of the identifier to a name and a claim. *)
Definition getclaimbyid_resolve (db : CDBWrapper) (param : UniValue)
  : Rpc (option (string * CClaimValue)) :=
  claimId <- ParseClaimtrieId param
               (String.append (key_text X T_CLAIMID) " (parameter 1)") ;;
  if (String.length claimId <? 3)%nat
  then throw (JSONRPCError RPC_INVALID_PARAMETER
                (String.append (key_text X T_CLAIMID)
                   " (parameter 1) should be at least 3 chars"))
  else
    (* bool found = claimId.length() == claimIdHexLength
                    && getClaimById(uint160S(claimId), name, &claim); *)
    found <- (if (String.length claimId =? claimIdHexLength)%nat
              then getClaimById db (uint160S claimId)
              else ret None) ;;
    (* if (found || getClaimById(claimId, name, &claim)) *)
    match found with
    | Some r => ret (Some r)
    | None => getClaimByPartialId db claimId EmptyString
    end.

(** The positions reported next to a claim when the name has more than
    one claim: [(seq, bid)]. *)
Definition seq_and_bid (cs : list CClaimNsupports) (id : uint160) : Rpc (nat * nat) :=
  if (1 <? length cs)%nat then
    let seqOrder := seqSort cs in
    seq <- indexOf seqOrder id ;;
    bid <- indexOf cs id ;;
    ret (seq, bid)
  else ret (O, O).

(** The members every single-claim answer ends with. *)
Definition claimAnswer (db : CDBWrapper) (coinsCache : CCoinsViewCache)
           (csToName : CClaimSupportToName) (claimNsupports : CClaimNsupports)
           (bid seq : Z) (result : UniValue) : Rpc UniValue :=
  let result := pushKV result T_NORMALIZEDNAME (VSTR (escapeNonUtf8 (name csToName))) in
  json <- claimAndSupportsToJSON db coinsCache claimNsupports ;;
  let result := pushKVs result json in
  let result := pushKV result T_LASTTAKEOVERHEIGHT (VNUM (nLastTakeoverHeight csToName)) in
  let result := pushKV result T_BID (VNUM bid) in
  let result := pushKV result T_SEQUENCE (VNUM seq) in
  ret result.

(** [getclaimbyid], lines 539-575. *)
Definition getclaimbyid (db : CDBWrapper) (trieCache : CClaimTrieCache)
           (coinsCache : CCoinsViewCache) (param : UniValue) : Rpc UniValue :=
  resolved <- getclaimbyid_resolve db param ;;
  let ret_ := VOBJ [] in
  match resolved with
  | Some (name, claim) =>
      emit (EvGetClaimsForName name) ;;;
      let csToName := getClaimsForName trieCache name in
      let claimNsupports := find X csToName (claimId claim) in
      if negb (CClaimNsupports_IsNull X claimNsupports) then
        pos <- seq_and_bid (claimsNsupports csToName) (claimId claim) ;;
        claimAnswer db coinsCache csToName claimNsupports
                    (to_int (Z.of_nat (snd pos))) (to_int (Z.of_nat (fst pos))) ret_
      else ret ret_
  | None => ret ret_
  end.

(** [getvalueforname], lines 363-409; [claimIdParam] is the optional
    third parameter. *)
Definition getvalueforname (db : CDBWrapper) (trieCache : CClaimTrieCache)
           (coinsCache : CCoinsViewCache) (name_ : string)
           (claimIdParam : option UniValue) : Rpc UniValue :=
  claimId_ <- match claimIdParam with
              | Some v => ParseClaimtrieId v
                            (String.append (key_text X T_CLAIMID)
                                           " (optional parameter 3)")
              | None => ret EmptyString
              end ;;
  let ret_ := VOBJ [] in
  emit (EvGetClaimsForName name_) ;;;
  let csToName := getClaimsForName trieCache name_ in
  match claimsNsupports csToName with
  | [] => ret ret_
  | first :: _ =>
      let claimNsupports :=
        if (String.length claimId_ =? claimIdHexLength)%nat
        then find X csToName (uint160S claimId_)
        else if negb (String.eqb claimId_ EmptyString)
             then find_by_prefix X csToName claimId_
             else first in
      if CClaimNsupports_IsNull X claimNsupports then ret ret_
      else
        pos <- seq_and_bid (claimsNsupports csToName)
                           (claimId (claim claimNsupports)) ;;
        claimAnswer db coinsCache csToName claimNsupports
                    (to_int (Z.of_nat (snd pos))) (to_int (Z.of_nat (fst pos))) ret_
  end.

(** The loop of [getclaimsforname], lines 433-439, from position [i] on. *)
Fixpoint claimObjs_from (db : CDBWrapper) (coinsCache : CCoinsViewCache)
         (seqOrder : list CClaimNsupports) (i : nat)
         (rest : list CClaimNsupports) (claimObjs : UniValue) : Rpc UniValue :=
  match rest with
  | [] => ret claimObjs
  | claimNsupports :: rest' =>
      claim_ <- claimAndSupportsToJSON db coinsCache claimNsupports ;;
      let claim_ := pushKV claim_ T_BID (VNUM (to_int (Z.of_nat i))) in
      seq <- indexOf seqOrder (claimId (claim claimNsupports)) ;;
      let claim_ := pushKV claim_ T_SEQUENCE (VNUM (to_int (Z.of_nat seq))) in
      claimObjs_from db coinsCache seqOrder (S i) rest' (push_back claimObjs claim_)
  end.

(** [getclaimsforname], lines 411-449. *)
Definition getclaimsforname (db : CDBWrapper) (trieCache : CClaimTrieCache)
           (coinsCache : CCoinsViewCache) (name_ : string) : Rpc UniValue :=
  emit (EvGetClaimsForName name_) ;;;
  let csToName := getClaimsForName trieCache name_ in
  let result := VOBJ [] in
  let result := pushKV result T_NORMALIZEDNAME (VSTR (escapeNonUtf8 (name csToName))) in
  let seqOrder := seqSort (claimsNsupports csToName) in
  claimObjs <- claimObjs_from db coinsCache seqOrder O
                 (claimsNsupports csToName) (VARR []) ;;
  let unmatched :=
    fold_left (fun arr support => push_back arr (supportToJSON coinsCache support))
              (unmatchedSupports csToName) (VARR []) in
  let result := pushKV result T_CLAIMS claimObjs in
  let result := pushKV result T_LASTTAKEOVERHEIGHT (VNUM (nLastTakeoverHeight csToName)) in
  let result := pushKV result T_SUPPORTSWITHOUTCLAIM unmatched in
  ret result.

Definition negative_index (k : Key) : Exception :=
  JSONRPCError RPC_INVALID_PARAMETER
    (String.append (key_text X k) " (parameter 2) should not be a negative value").

(** [getclaimbybid], lines 451-492. *)
Definition getclaimbybid (db : CDBWrapper) (trieCache : CClaimTrieCache)
           (coinsCache : CCoinsViewCache) (name_ : string) (bid : Z) : Rpc UniValue :=
  if bid <? 0 then throw (negative_index T_BID)
  else
    emit (EvGetClaimsForName name_) ;;;
    let csToName := getClaimsForName trieCache name_ in
    let result := VOBJ [] in
    if Z.of_nat (length (claimsNsupports csToName)) <=? to_uint32 bid
    then ret result
    else
      match claimsNsupports csToName !! Z.to_nat bid with
      | Some claimNsupports =>
          seq <- (if (1 <? length (claimsNsupports csToName))%nat
                  then indexOf (seqSort (claimsNsupports csToName))
                               (claimId (claim claimNsupports))
                  else ret O) ;;
          claimAnswer db coinsCache csToName claimNsupports
                      bid (to_int (Z.of_nat seq)) result
      | None => ret result
      end.

(** [getclaimbyseq], lines 494-537. *)
Definition getclaimbyseq (db : CDBWrapper) (trieCache : CClaimTrieCache)
           (coinsCache : CCoinsViewCache) (name_ : string) (seq : Z) : Rpc UniValue :=
  if seq <? 0 then throw (negative_index T_SEQUENCE)
  else
    emit (EvGetClaimsForName name_) ;;;
    let csToName := getClaimsForName trieCache name_ in
    let result := VOBJ [] in
    if Z.of_nat (length (claimsNsupports csToName)) <=? to_uint32 seq
    then ret result
    else
      selected <-
        (if (length (claimsNsupports csToName) =? 1)%nat
         then ret (claimsNsupports csToName !! O, O)
         else
           match seqSort (claimsNsupports csToName) !! Z.to_nat seq with
           | Some claimNsupports =>
               bid <- indexOf (claimsNsupports csToName)
                              (claimId (claim claimNsupports)) ;;
               ret (Some claimNsupports, bid)
           | None => ret (None, O)
           end) ;;
      match selected with
      | (Some claimNsupports, bid) =>
          claimAnswer db coinsCache csToName claimNsupports
                      (to_int (Z.of_nat bid)) seq result
      | (None, _) => ret result
      end.

End Rpc.

(** ** Proof selection *)

Definition empty (v : UniValue) : bool :=
  match v with
  | VOBJ [] | VARR [] | VNULL => true
  | _ => false
  end.

(** [proofToJSON], lines 688-732. *)
Definition childToJSON (itChildren : Z * uint256) : UniValue :=
  let child := VOBJ [] in
  let child := pushKV child T_CHARACTER (VNUM (fst itChildren)) in
  if negb (snd itChildren =? 0)
  then pushKV child T_NODEHASH (VSTR (GetHex256 (snd itChildren)))
  else child.

Definition nodeToJSON (itNode : CClaimTrieProofNode) : UniValue :=
  let node := VOBJ [] in
  let children_ :=
    fold_left (fun arr itChildren => push_back arr (childToJSON itChildren))
              (children itNode) (VARR []) in
  let node := pushKV node T_CHILDREN children_ in
  if node_hasValue itNode && negb (valHash itNode =? 0)
  then pushKV node T_VALUEHASH (VSTR (GetHex256 (valHash itNode)))
  else node.

Definition pairToJSON (itPair : bool * uint256) : UniValue :=
  let child := VOBJ [] in
  let child := pushKV child T_ODD (VBOOL (fst itPair)) in
  pushKV child T_HASH (VSTR (GetHex256 (snd itPair))).

Definition proofToJSON (proof : CClaimTrieProof) : UniValue :=
  let result := VOBJ [] in
  let nodes_ :=
    fold_left (fun arr itNode => push_back arr (nodeToJSON itNode))
              (nodes proof) (VARR []) in
  let result := if negb (empty nodes_) then pushKV result T_NODES nodes_ else result in
  let pairs_ :=
    fold_left (fun arr itPair => push_back arr (pairToJSON itPair))
              (pairs proof) (VARR []) in
  let result := if negb (empty pairs_) then pushKV result T_PAIRS pairs_ else result in
  if hasValue proof then
    let result := pushKV result T_TXID (VSTR (GetHex256 (hash (proof_outPoint proof)))) in
    let result := pushKV result T_N (VNUM (to_int (n (proof_outPoint proof)))) in
    pushKV result T_LASTTAKEOVERHEIGHT (VNUM (to_int (nHeightOfLastTakeover proof)))
  else result.

Section ProofSelection.
Context (X : Collaborators).
Local Open Scope rpc_scope.

(** The predicate [claim.claimId == claimId] of lines 799-801 and
    839-841. *)
Definition claimId_equals (id : uint160) : CClaimValue -> bool :=
  fun claim => claimId claim =? id.

(** Lines 804-808 and 843-847: the proof is requested and rendered. *)
Definition requestProof (trieCache : CClaimTrieCache) (name_ : string)
           (comp : ClaimPredicate) : Rpc UniValue :=
  emit (EvGetProofForName name_ comp) ;;;
  match getProofForName trieCache name_ comp with
  | None => throw (JSONRPCError RPC_INTERNAL_ERROR "Failed to generate proof")
  | Some proof => ret (proofToJSON proof)
  end.

(** [getclaimproofbybid], lines 771-809. *)
Definition getclaimproofbybid (trieCache : CClaimTrieCache)
           (name_ : string) (bid : Z) : Rpc UniValue :=
  if bid <? 0 then throw (negative_index X T_BID)
  else if negb (bid =? 0) then
    (* if (bid) { ... } *)
    emit (EvGetClaimsForName name_) ;;;
    let csToName := getClaimsForName trieCache name_ in
    if Z.of_nat (length (claimsNsupports csToName)) <=? to_uint32 bid
    then ret (VARR [])
    else
      match claimsNsupports csToName !! Z.to_nat bid with
      | Some claimNsupports =>
          requestProof trieCache name_
                       (Some (claimId_equals (claimId (claim claimNsupports))))
      | None => ret (VARR [])
      end
  else requestProof trieCache name_ None.

(** [getclaimproofbyseq], lines 811-848. *)
Definition getclaimproofbyseq (trieCache : CClaimTrieCache)
           (name_ : string) (seq : Z) : Rpc UniValue :=
  if seq <? 0 then throw (negative_index X T_SEQUENCE)
  else
    emit (EvGetClaimsForName name_) ;;;
    let csToName := getClaimsForName trieCache name_ in
    if Z.of_nat (length (claimsNsupports csToName)) <=? to_uint32 seq
    then ret (VARR [])
    else
      match (if (length (claimsNsupports csToName) =? 1)%nat
             then claimsNsupports csToName !! O
             else seqSort (claimsNsupports csToName) !! Z.to_nat seq) with
      | Some claimNsupports =>
          requestProof trieCache name_
                       (Some (claimId_equals (claimId (claim claimNsupports))))
      | None => ret (VARR [])
      end.
End ProofSelection.

(** ** Chain rewind *)

Definition MAX_RPC_BLOCK_DECREMENTS : Z := 500.

(** A block index of the active chain with its [pprev] link. *)
Inductive CBlockIndex :=
| BlockIndex (blockHash : uint256) (height : Z) (pprev : option CBlockIndex).

Definition index_nHeight (i : CBlockIndex) : Z :=
  match i with BlockIndex _ h _ => h end.

Definition index_pprev (i : CBlockIndex) : option CBlockIndex :=
  match i with BlockIndex _ _ p => p end.

(** Two pointers are equal when they point to the same index object. *)
Fixpoint CBlockIndex_eqb (a b : CBlockIndex) : bool :=
  match a, b with
  | BlockIndex ha na pa, BlockIndex hb nb pb =>
      (ha =? hb) && (na =? nb)
      && match pa, pb with
         | None, None => true
         | Some a', Some b' => CBlockIndex_eqb a' b'
         | _, _ => false
         end
  end.

Inductive DisconnectResult :=
| DISCONNECT_OK
| DISCONNECT_UNCLEAN
| DISCONNECT_FAILED.

Definition is_DISCONNECT_OK (r : DisconnectResult) : bool :=
  match r with DISCONNECT_OK => true | _ => false end.

(** What a rewind does to block storage and to the caches, in order. *)
Inductive RewindEvent :=
| RwReadBlock (index : CBlockIndex)
| RwDisconnect (index : CBlockIndex)
| RwGetMerkleHash.

Definition is_disconnect (ev : RewindEvent) : bool :=
  match ev with RwDisconnect _ => true | _ => false end.

Definition is_read (ev : RewindEvent) : bool :=
  match ev with RwReadBlock _ => true | _ => false end.

Section Rewind.
(** [Caches] is the pair of working caches ([coinsCache], [trieCache]),
    [CBlock] a block as read from disk. *)
Context {Caches CBlock : Type}.

(** The node around [RollBackTo]. *)
Record RewindEnv := mkRewindEnv {
  ReadBlockFromDisk : CBlockIndex -> option CBlock;
  DisconnectBlock : CBlock -> CBlockIndex -> Caches -> DisconnectResult * Caches;
  (** [coinsCache.DynamicMemoryUsage()] *)
  DynamicMemoryUsage : Caches -> Z;
  (** [pcoinsTip->DynamicMemoryUsage()] *)
  pcoinsTip_DynamicMemoryUsage : Z;
  nCoinCacheUsage : Z;
  (** an interruption is pending at the k-th pass of the loop *)
  interruption_requested : nat -> bool;
  (** [ShutdownRequested()] at the k-th pass of the loop *)
  ShutdownRequested : nat -> bool;
  getMerkleHash : Caches -> Caches;
  index_ToString : CBlockIndex -> string;
  block_ToString : CBlock -> string
}.

Record RewindState := mkRewindState {
  caches : Caches;
  passes : nat;
  rewind_trace : list RewindEvent
}.

Definition record (ev : RewindEvent) (st : RewindState) : RewindState :=
  mkRewindState (caches st) (passes st) (rewind_trace st ++ [ev]).

Context (E : RewindEnv).

(** The loop of lines 68-83 with [activeIndex] non-null. *)
Fixpoint rollBackLoop (targetIndex : CBlockIndex) (currentMemoryUsage : Z)
         (activeIndex : CBlockIndex) (st : RewindState)
  : Outcome unit * RewindState :=
  if CBlockIndex_eqb activeIndex targetIndex then (Return tt, st)
  else if interruption_requested E (passes st) then (Throw thread_interrupted, st)
  else
    let st := record (RwReadBlock activeIndex) st in
    match ReadBlockFromDisk E activeIndex with
    | None =>
        (Throw (JSONRPCError RPC_INTERNAL_ERROR
                  (String.append "Failed to read " (index_ToString E activeIndex))), st)
    | Some block =>
        if to_size_t (DynamicMemoryUsage E (caches st) + currentMemoryUsage)
           >? nCoinCacheUsage E
        then (Throw (JSONRPCError RPC_INTERNAL_ERROR
                       "Out of memory, you may want to increase dbcache size"), st)
        else if ShutdownRequested E (passes st)
        then (Throw (JSONRPCError RPC_INTERNAL_ERROR "Shutdown requested"), st)
        else
          let '(result, caches') := DisconnectBlock E block activeIndex (caches st) in
          let st := mkRewindState caches' (S (passes st))
                      (rewind_trace st ++ [RwDisconnect activeIndex]) in
          if negb (is_DISCONNECT_OK result)
          then (Throw (JSONRPCError RPC_INTERNAL_ERROR
                         (String.append "Failed to disconnect " (block_ToString E block))), st)
          else
            match activeIndex with
            | BlockIndex _ _ (Some prev) => rollBackLoop targetIndex currentMemoryUsage prev st
            | BlockIndex _ _ None => (Return tt, st)
            end
    end.

(** [RollBackTo], lines 57-85; [tip] is [chainActive.Tip()]. *)
Definition RollBackTo (tip targetIndex : CBlockIndex) (working : Caches)
  : Outcome unit * RewindState :=
  let st := mkRewindState working O [] in
  let activeIndex := tip in
  if index_nHeight activeIndex >? index_nHeight targetIndex + MAX_RPC_BLOCK_DECREMENTS
  then (Throw (JSONRPCError RPC_INTERNAL_ERROR "Block is too deep"), st)
  else
    let currentMemoryUsage := pcoinsTip_DynamicMemoryUsage E in
    match rollBackLoop targetIndex currentMemoryUsage activeIndex st with
    | (Return _, st) =>
        (Return tt, mkRewindState (getMerkleHash E (caches st)) (passes st)
                                  (rewind_trace st ++ [RwGetMerkleHash]))
    | failed => failed
    end.
End Rewind.
Arguments RewindEnv : clear implicits.
Arguments RewindState : clear implicits.

(** * Orders, sample data and the specification's readings *)

(** The order [seqSort] establishes: registration height ([nHeight]),
    then output index. *)
Definition seq_before (a b : CClaimNsupports) : Prop :=
  nHeight (claim a) < nHeight (claim b)
  \/ (nHeight (claim a) = nHeight (claim b)
      /\ n (outPoint (claim a)) <= n (outPoint (claim b))).

(** The order in the specification's words: effective (valid-at)
    height, then output index. *)
Definition spec_valid_at_before (a b : CClaimNsupports) : Prop :=
  nValidAtHeight (claim a) < nValidAtHeight (claim b)
  \/ (nValidAtHeight (claim a) = nValidAtHeight (claim b)
      /\ n (outPoint (claim a)) <= n (outPoint (claim b))).

(** A claim record with the fields the orderings read. *)
Definition mkClaim (id : uint160) (height validAt index amount : Z) : CClaimValue :=
  mkClaimValue (mkOutPoint id index) id amount height validAt.

Definition bare (c : CClaimValue) : CClaimNsupports :=
  mkClaimNsupports c (nAmount c) [].

Definition claimA := bare (mkClaim 10 99 99 1 5).
Definition claimB := bare (mkClaim 11 100 100 0 7).
Definition claimC := bare (mkClaim 12 100 100 2 6).

(** Registered at 100 and valid at 110; registered at 101 and valid at 105. *)
Definition claimEarly := bare (mkClaim 20 100 110 0 5).
Definition claimLate := bare (mkClaim 21 101 105 0 5).

(** ** Amounts *)

(** The sum of the amounts of the linked supports. *)
Definition supportsAmount (claimNsupports : CClaimNsupports) : CAmount :=
  fold_right Z.add 0 (map Support.nAmount (supports claimNsupports)).

(** The pending amount in the specification's words: the total is the
    effective amount plus the linked supports, and the pending amount is
    that total minus the effective amount, reported when positive. *)
Definition spec_totalAmount (claimNsupports : CClaimNsupports) : CAmount :=
  effectiveAmount claimNsupports + supportsAmount claimNsupports.

Definition spec_pendingAmount (claimNsupports : CClaimNsupports) : option UniValue :=
  if spec_totalAmount claimNsupports >? effectiveAmount claimNsupports
  then Some (VNUM (spec_totalAmount claimNsupports - effectiveAmount claimNsupports))
  else None.

(** The null record and the two searches of a name's claims. *)
Definition nullClaimNsupports : CClaimNsupports :=
  mkClaimNsupports (mkClaimValue (mkOutPoint 0 0) 0 0 0 0) 0 [].

Definition findIn (pred : CClaimNsupports -> bool) (cs : CClaimSupportToName)
  : CClaimNsupports :=
  match List.find pred (claimsNsupports cs) with
  | Some c => c
  | None => nullClaimNsupports
  end.

(** Collaborators for the examples: index key tag 105, every name is
    valid UTF-8, no script carries a claim or a destination; a claim is
    searched among the claims of the name, and the null record is the one
    with the null identifier. *)
Definition sampleCollaborators : Collaborators :=
  mkCollaborators 105 181 (fun _ => "key"%string) (fun s => Some s)
                  (fun _ => None) (fun _ => None) (fun _ => EmptyString)
                  (fun cs id => findIn (fun c => claimId (claim c) =? id) cs)
                  (fun cs s => findIn (fun c => String.prefix s (GetHex (claimId (claim c)))) cs)
                  (fun c => IsNull (claimId (claim c))).

(** The contract of the two searches: a record that is not null is one of
    the claims of the name, and the search by identifier returns a claim
    with that identifier. *)
Definition find_contract (X : Collaborators) : Prop :=
  (forall cs id,
      CClaimNsupports_IsNull X (find X cs id) = false ->
      find X cs id ∈ claimsNsupports cs /\ claimId (claim (find X cs id)) = id)
  /\ (forall cs s,
         CClaimNsupports_IsNull X (find_by_prefix X cs s) = false ->
         find_by_prefix X cs s ∈ claimsNsupports cs).

Definition spentCoins : CCoinsViewCache := fun _ => mkCoin true [].

Definition support (index amount : Z) : CSupportValue :=
  mkSupportValue (mkOutPoint 77 index) amount 100 100.

(** A claim of amount 100 with effective amount 100 and two linked
    supports of 30 and 20. *)
Definition claimWithPendingSupports : CClaimNsupports :=
  mkClaimNsupports (mkClaim 30 100 100 0 100) 100 [support 1 30; support 2 20].

Definition isObject (v : UniValue) : bool :=
  match v with VOBJ _ => true | _ => false end.

(** ** Identifier resolution *)

(** The entries the partial lookup can accept when no name is pinned: a
    readable record of the identifier index whose identifier, in hex,
    starts with the prefix. *)
Definition accepts (X : Collaborators) (partialId : string) (e : DbEntry) : bool :=
  match GetKey e, GetValue e with
  | Some (tag, id), Some _ =>
      (tag =? CLAIM_BY_ID X) && String.prefix partialId (GetHex id)
  | _, _ => false
  end.

(** The digits of a parameter: what follows a [0x] at the head of a
    string of more than two characters, the string itself otherwise. *)
Definition without_0x (s : string) : string :=
  match s with
  | String a (String b (String c rest)) =>
      if Ascii.eqb a "0" && Ascii.eqb b "x" then String c rest else s
  | _ => s
  end.

(** The parameters [getclaimbyid] refuses: a value that is not a string,
    a character that is not a hexadecimal digit, more than 40 characters,
    fewer than 3.  The parity of the length plays no part. *)
Definition rejected (v : UniValue) : Prop :=
  isStr v = false
  \/ all_hex (without_0x (get_str v)) = false
  \/ (claimIdHexLength < String.length (get_str v))%nat
  \/ (String.length (get_str v) < 3)%nat.

(** An index with three identifiers; the first two share the prefix
    [abcd] and belong to different names. *)
Definition id_abcd1 : uint160 := 0xabcd1 * 16 ^ 35.
Definition id_abcd2 : uint160 := 0xabcd2 * 16 ^ 35.
Definition id_ffff : uint160 := 0xffff * 16 ^ 36.

Definition indexEntry (id : uint160) (nm : string) : DbEntry :=
  mkDbEntry (Some (105, id)) (Some (mkIndexElement nm (mkClaim id 100 100 0 5))).

Definition sampleIndex : CDBWrapper :=
  [ indexEntry id_abcd1 "first"; indexEntry id_abcd2 "second";
    indexEntry id_ffff "third" ].

Definition hex_abcd1 : string := "abcd100000000000000000000000000000000000".
Definition hex_aaaa : string := "aaaaaaaaaaaaaaaaaaaaaaaaaaaaaaaaaaaaaaaa".

(** The identifier of [claimC], 12, in hex. *)
Definition hex_claimC : string := "000000000000000000000000000000000000000c".

(** ** Registries for the examples *)

(** The proof of a name that has no claim: the root node, without value. *)
Definition absenceProof : CClaimTrieProof :=
  mkProof [mkProofNode [] false 0] [] false (mkOutPoint 0 0) 0.

(** A registry in which no name has a claim. *)
Definition emptyRegistry : CClaimTrieCache :=
  mkTrieCache (fun nm => mkClaimSupportToName nm 0 [] [])
              (fun _ _ => Some absenceProof).

(** A registry in which every name has the claims B, C, A in bid order. *)
Definition sampleRegistry : CClaimTrieCache :=
  mkTrieCache (fun nm => mkClaimSupportToName nm 100 [claimB; claimC; claimA] [])
              (fun _ _ => Some absenceProof).

(** ** Chains and nodes for the rewind *)

(** The ancestor [k] links below an index. *)
Fixpoint ancestor_at (k : nat) (i : CBlockIndex) : option CBlockIndex :=
  match k with
  | O => Some i
  | S k' =>
      match index_pprev i with
      | Some p => ancestor_at k' p
      | None => None
      end
  end.

(** Each of the [k] links below an index leads to the height below. *)
Fixpoint heights_linked (k : nat) (i : CBlockIndex) : bool :=
  match k with
  | O => true
  | S k' =>
      match index_pprev i with
      | Some p => (index_nHeight p =? index_nHeight i - 1) && heights_linked k' p
      | None => false
      end
  end.

(** What a rewind over [k] links does when nothing stops it: each block
    is read, then disconnected, from the tip downwards. *)
Fixpoint rewindSteps (k : nat) (i : CBlockIndex) : list RewindEvent :=
  match k with
  | O => []
  | S k' =>
      RwReadBlock i :: RwDisconnect i
        :: match index_pprev i with
           | Some p => rewindSteps k' p
           | None => []
           end
  end.

(** A node on which no pass of the loop is stopped. *)
Definition unhindered {Caches CBlock : Type} (E : RewindEnv Caches CBlock) : Prop :=
  (forall k, interruption_requested E k = false)
  /\ (forall k, ShutdownRequested E k = false)
  /\ (forall c, to_size_t (DynamicMemoryUsage E c + pcoinsTip_DynamicMemoryUsage E)
                <= nCoinCacheUsage E)
  /\ (forall i, ReadBlockFromDisk E i <> None)
  /\ (forall b i c, fst (DisconnectBlock E b i c) = DISCONNECT_OK).

Definition tooDeep : Exception := JSONRPCError RPC_INTERNAL_ERROR "Block is too deep".

(** The chain of heights 0 .. k. *)
Fixpoint sampleChain (k : nat) : CBlockIndex :=
  match k with
  | O => BlockIndex 1000 0 None
  | S k' => BlockIndex (1000 + Z.of_nat k) (Z.of_nat k) (Some (sampleChain k'))
  end.

(** A node that counts the disconnected blocks in its caches, reads every
    block, stays within its memory budget and is never interrupted. *)
Definition sampleNode : RewindEnv nat unit :=
  mkRewindEnv (fun _ => Some tt) (fun _ _ c => (DISCONNECT_OK, S c))
              (fun _ => 4096) 0 1000000
              (fun _ => false) (fun _ => false) (fun c => c)
              (fun _ => "index"%string) (fun _ => "block"%string).

(** The same node with a block store that cannot be read. *)
Definition unreadableNode : RewindEnv nat unit :=
  mkRewindEnv (fun _ => None) (fun _ _ c => (DISCONNECT_OK, S c))
              (fun _ => 4096) 0 1000000
              (fun _ => false) (fun _ => false) (fun c => c)
              (fun _ => "index"%string) (fun _ => "block"%string).


(** * Further functions of the file *)

(** ** [getnameproof] *)

Section NameProof.
Context (X : Collaborators).
Local Open Scope rpc_scope.

(** The predicate of lines 758-760: the identifier, in hex, starts with
    the string. *)
Definition claimId_starts_with (partialId : string) : CClaimValue -> bool :=
  fun claim => String.prefix partialId (GetHex (claimId claim)).

(** [getnameproof], lines 734-769, after [validateRequest] and the
    optional [RollBackTo]; [claimIdParam] is the optional third
    parameter. *)
Definition getnameproof (trieCache : CClaimTrieCache) (name_ : string)
           (claimIdParam : option UniValue) : Rpc UniValue :=
  claimId_ <- match claimIdParam with
              | Some v => ParseClaimtrieId v
                            (String.append (key_text X T_CLAIMID)
                                           " (optional parameter 3)")
              | None => ret EmptyString
              end ;;
  let comp : ClaimPredicate :=
    if (String.length claimId_ =? claimIdHexLength)%nat
    then Some (claimId_equals (uint160S claimId_))
    else if negb (String.eqb claimId_ EmptyString)
         then Some (claimId_starts_with claimId_)
         else None in
  requestProof trieCache name_ comp.
End NameProof.

(** ** Requests *)

(** [JSONRPCRequest], for what the handlers read of it. *)
Record JSONRPCRequest := mkRequest {
  fHelp : bool;
  params : list UniValue
}.

(** [validParams], lines 277-281. *)
Definition validParams (params_ : list UniValue) (required optional : Z) : bool :=
  let count := Z.of_nat (length params_) in
  (required <=? count) && (count <=? required + optional).

(** How a request ends: with its answer, with an exception of the RPC
    layer, or with the [std::runtime_error] that carries a help text or a
    UniValue type error. *)
Inductive Reply (A : Type) :=
| Answer (a : A)
| Raised (e : Exception)
| runtime_error (what : string).
Arguments Answer {A} a.
Arguments Raised {A} e.
Arguments runtime_error {A} what.

(** A request as run: what it did to block storage and the working
    caches, what it asked of the index and the registry, and how it
    ended. *)
Record Run (A : Type) := mkRun {
  run_rewind : list RewindEvent;
  run_events : list Event;
  run_reply : Reply A
}.
Arguments mkRun {A}.
Arguments run_rewind {A}.
Arguments run_events {A}.
Arguments run_reply {A}.

(** The block index: [mapBlockIndex] and [chainActive]. *)
Record ChainState := mkChainState {
  mapBlockIndex : uint256 -> option CBlockIndex;
  chainActive_Tip : CBlockIndex;
  chainActive_Contains : CBlockIndex -> bool
}.

(** [BlockHashIndex], lines 40-52. *)
Definition BlockHashIndex (chain : ChainState) (blockHash : uint256)
  : Outcome CBlockIndex :=
  match mapBlockIndex chain blockHash with
  | None => Throw (JSONRPCError RPC_INVALID_ADDRESS_OR_KEY "Block not found")
  | Some pblockIndex =>
      if negb (chainActive_Contains chain pblockIndex)
      then Throw (JSONRPCError RPC_INTERNAL_ERROR "Block not in main chain")
      else Return pblockIndex
  end.

(** The handlers of the file, as they index [rpc_help]. *)
Inductive HelpIndex :=
| GETCLAIMSINTRIE | GETNAMESINTRIE | GETVALUEFORNAME | GETCLAIMSFORNAME
| GETCLAIMBYBID | GETCLAIMBYSEQ | GETCLAIMBYID | GETNAMEPROOF
| GETCLAIMPROOFBYBID | GETCLAIMPROOFBYSEQ.

(** [CClaimTrieData], for what [getclaimsintrie] reads of it. *)
Record CClaimTrieData := mkTrieData { claims : list CClaimValue }.

Section Server.
Context {Caches CBlock : Type}.

(** The node a request runs on. *)
Record Server := mkServer {
  collaborators : Collaborators;
  (** [rpc_help[findex]], rpc/claimrpchelp.h *)
  rpc_help : HelpIndex -> string;
  (** [ParseHashV(v, strName)] *)
  ParseHashV : UniValue -> string -> Outcome uint256;
  chainState : ChainState;
  rewindEnv : RewindEnv Caches CBlock;
  (** the working caches a handler builds on [pcoinsTip] and [pclaimTrie] *)
  tipCaches : Caches;
  (** the registry and the coins as seen through the working caches *)
  trieCacheOf : Caches -> CClaimTrieCache;
  coinsCacheOf : Caches -> CCoinsViewCache;
  (** what [trieCache.iterate] visits, in order *)
  iterate : Caches -> list (string * CClaimTrieData);
  (** [CClaimTrieData::empty()] *)
  CClaimTrieData_empty : CClaimTrieData -> bool;
  (** the store behind [pclaimTrie->db] *)
  claimDb : CDBWrapper;
  (** [IsDeprecatedRPCEnabled(method)] *)
  IsDeprecatedRPCEnabled : string -> bool;
  (** [ShutdownRequested()] and a pending interruption at the k-th node
      of an iteration *)
  ShutdownRequestedAt : nat -> bool;
  interruptionAt : nat -> bool
}.

Context (srv : Server).
Local Open Scope rpc_scope.

(** [validateRequest], lines 283-287: [Some] is the help text thrown as
    [std::runtime_error]. *)
Definition validateRequest (request : JSONRPCRequest) (findex : HelpIndex)
           (required optional : Z) : option string :=
  if fHelp request || negb (validParams (params request) required optional)
  then Some (rpc_help srv findex)
  else None.

(** The run of a handler body on working caches. *)
Definition runBody {A} (body : Rpc A) : Run A :=
  mkRun [] (events body)
        match outcome body with
        | Return a => Answer a
        | Throw e => Raised e
        end.

Definition afterRewind {A} (rewound : list RewindEvent) (r : Run A) : Run A :=
  mkRun (rewound ++ run_rewind r) (run_events r) (run_reply r).

(** The block of statements every handler with a block parameter
    repeats (lines 304-307, 345-348, 371-374, 419-422, 466-469, 509-512,
    742-745, 786-789, 826-829): with a block parameter the working caches
    are rolled back to that block, without one they stay at the tip.  The
    handler goes on with [body] on the working caches. *)
Definition onWorkingCaches {A} (blockParam : option UniValue) (strName : string)
           (body : Caches -> Run A) : Run A :=
  match blockParam with
  | None => body (tipCaches srv)
  | Some v =>
      match ParseHashV srv v strName with
      | Throw e => mkRun [] [] (Raised e)
      | Return blockHash =>
          match BlockHashIndex (chainState srv) blockHash with
          | Throw e => mkRun [] [] (Raised e)
          | Return blockIndex =>
              match RollBackTo (rewindEnv srv) (chainActive_Tip (chainState srv))
                               blockIndex (tipCaches srv) with
              | (Throw e, st) => mkRun (rewind_trace st) [] (Raised e)
              | (Return _, st) => afterRewind (rewind_trace st) (body (caches st))
              end
          end
      end
  end.

(** [UniValue::get_str] and [UniValue::get_int] on a parameter: a value
    of another type raises the [std::runtime_error] of UniValue. *)
Definition not_a_string : string := "JSON value is not a string as expected".
Definition not_an_integer : string := "JSON value is not an integer as expected".
Definition integer_out_of_range : string := "JSON integer out of range".

Definition get_int (v : UniValue) : string + Z :=
  match v with
  | VNUM z => if (- 2 ^ 31 <=? z) && (z <? 2 ^ 31) then inr z
              else inl integer_out_of_range
  | _ => inl not_an_integer
  end.

(** The statements [std::string name = request.params[0].get_str();] and
    what follows them. *)
Definition withName {A} (request : JSONRPCRequest) (body : string -> Rpc A) : Run A :=
  match params request !! O with
  | Some (VSTR name_) => runBody (body name_)
  | _ => mkRun [] [] (runtime_error not_a_string)
  end.

(** [getclaimsforname], lines 411-449, as a request. *)
Definition getclaimsforname_request (request : JSONRPCRequest) : Run UniValue :=
  match validateRequest request GETCLAIMSFORNAME 1 1 with
  | Some help => mkRun [] [] (runtime_error help)
  | None =>
      onWorkingCaches (params request !! 1%nat)
        (String.append (key_text (collaborators srv) T_BLOCKHASH)
                       " (optional parameter 2)")
        (fun working =>
           withName request
             (getclaimsforname (collaborators srv) (claimDb srv)
                (trieCacheOf srv working) (coinsCacheOf srv working)))
  end.

(** [getclaimbybid], lines 451-492, as a request. *)
Definition getclaimbybid_request (request : JSONRPCRequest) : Run UniValue :=
  match validateRequest request GETCLAIMBYBID 1 2 with
  | Some help => mkRun [] [] (runtime_error help)
  | None =>
      match (match params request !! 1%nat with
             | Some v => get_int v
             | None => inr 0
             end) with
      | inl what => mkRun [] [] (runtime_error what)
      | inr bid =>
          if bid <? 0
          then mkRun [] [] (Raised (negative_index (collaborators srv) T_BID))
          else
            onWorkingCaches (params request !! 2%nat)
              (String.append (key_text (collaborators srv) T_BLOCKHASH)
                             " (optional parameter 3)")
              (fun working =>
                 withName request
                   (fun name_ =>
                      getclaimbybid (collaborators srv) (claimDb srv)
                        (trieCacheOf srv working) (coinsCacheOf srv working)
                        name_ bid))
      end
  end.

(** The callback of [getnamesintrie], lines 351-358, over the nodes left
    to visit; [k] counts the nodes visited so far. *)
Fixpoint namesInTrie (k : nat) (nodes_ : list (string * CClaimTrieData))
         (ret_ : UniValue) : Rpc UniValue :=
  match nodes_ with
  | [] => ret ret_
  | (name_, data) :: rest =>
      let ret_ :=
        if negb (CClaimTrieData_empty srv data)
        then push_back ret_ (VSTR (escapeNonUtf8 (collaborators srv) name_))
        else ret_ in
      if ShutdownRequestedAt srv k
      then throw (JSONRPCError RPC_INTERNAL_ERROR "Shutdown requested")
      else if interruptionAt srv k then throw thread_interrupted
      else namesInTrie (Datatypes.S k) rest ret_
  end.

(** [getnamesintrie], lines 337-361. *)
Definition getnamesintrie (request : JSONRPCRequest) : Run UniValue :=
  match validateRequest request GETNAMESINTRIE 0 1 with
  | Some help => mkRun [] [] (runtime_error help)
  | None =>
      onWorkingCaches (params request !! O)
        (String.append (key_text (collaborators srv) T_BLOCKHASH)
                       " (optional parameter 1)")
        (fun working => runBody (namesInTrie O (iterate srv working) (VARR [])))
  end.

(** The claims of one node, lines 319-321. *)
Fixpoint claimsToJSON (coinsCache : CCoinsViewCache) (cs : list CClaimValue)
         (claims_ : UniValue) : Rpc UniValue :=
  match cs with
  | [] => ret claims_
  | c :: rest =>
      o <- claimToJSON (collaborators srv) (claimDb srv) coinsCache c ;;
      claimsToJSON coinsCache rest (push_back claims_ o)
  end.

(** The callback of [getclaimsintrie], lines 310-327. *)
Fixpoint claimsInTrie (coinsCache : CCoinsViewCache) (k : nat)
         (nodes_ : list (string * CClaimTrieData)) (ret_ : UniValue)
  : Rpc UniValue :=
  match nodes_ with
  | [] => ret ret_
  | (name_, data) :: rest =>
      if ShutdownRequestedAt srv k
      then throw (JSONRPCError RPC_INTERNAL_ERROR "Shutdown requested")
      else if interruptionAt srv k then throw thread_interrupted
      else if CClaimTrieData_empty srv data
      then claimsInTrie coinsCache (Datatypes.S k) rest ret_
      else
        claims_ <- claimsToJSON coinsCache (claims data) (VARR []) ;;
        let nodeObj := VOBJ [] in
        let nodeObj := pushKV nodeObj T_NORMALIZEDNAME
                              (VSTR (escapeNonUtf8 (collaborators srv) name_)) in
        let nodeObj := pushKV nodeObj T_CLAIMS claims_ in
        claimsInTrie coinsCache (Datatypes.S k) rest (push_back ret_ nodeObj)
  end.

Definition getclaimsintrie_deprecated : string :=
  "getclaimsintrie is deprecated and will be removed in v0.18. To use this command, start with -deprecatedrpc=getclaimsintrie".

(** [getclaimsintrie], lines 289-329. *)
Definition getclaimsintrie (request : JSONRPCRequest) : Run UniValue :=
  match validateRequest request GETCLAIMSINTRIE 0 1 with
  | Some help => mkRun [] [] (runtime_error help)
  | None =>
      if negb (IsDeprecatedRPCEnabled srv "getclaimsintrie")
      then
        if fHelp request
        then mkRun [] [] (runtime_error getclaimsintrie_deprecated)
        else mkRun [] [] (Raised (JSONRPCError RPC_METHOD_DEPRECATED
                                               getclaimsintrie_deprecated))
      else
        onWorkingCaches (params request !! O)
          (String.append (key_text (collaborators srv) T_BLOCKHASH)
                         " (optional parameter 1)")
          (fun working =>
             runBody (claimsInTrie (coinsCacheOf srv working) O
                                   (iterate srv working) (VARR [])))
  end.
End Server.
Arguments Server : clear implicits.

(** ** Shapes used in the statements *)

(** An index and the indexes below it, down to the one without [pprev]. *)
Fixpoint ancestors (i : CBlockIndex) : list CBlockIndex :=
  match i with
  | BlockIndex _ _ p =>
      i :: match p with
           | Some q => ancestors q
           | None => []
           end
  end.

(** The trace of complete passes over the given indexes. *)
Definition passesOver (done : list CBlockIndex) : list RewindEvent :=
  concat (map (fun i => [RwReadBlock i; RwDisconnect i]) done).

(** A block of a side branch at height 2: it is in no [sampleChain]. *)
Definition forkBlock : CBlockIndex := BlockIndex 999 2 None.

(** A node on which shutdown is requested and no block can be read. *)
Definition stoppedNode : RewindEnv nat unit :=
  mkRewindEnv (fun _ => None) (fun _ _ c => (DISCONNECT_FAILED, c))
              (fun _ => 4096) 0 0
              (fun _ => true) (fun _ => true) (fun c => c)
              (fun _ => "index"%string) (fun _ => "block"%string).

(** The identifiers of a list of claims, in order. *)
Definition claimIds (cs : list CClaimNsupports) : list uint160 :=
  map (fun c => claimId (claim c)) cs.

(** What [seqSort] compares: registration height and output index. *)
Definition seq_key (c : CClaimNsupports) : Z * Z :=
  (nHeight (claim c), n (outPoint (claim c))).

(** The entries the partial lookup can accept when the caller pins the
    name [nm] (the empty string pins nothing). *)
Definition accepts_named (X : Collaborators) (partialId nm : string) (e : DbEntry)
  : bool :=
  match GetKey e, GetValue e with
  | Some (tag, id), Some element =>
      (tag =? CLAIM_BY_ID X) && String.prefix partialId (GetHex id)
      && (String.eqb nm EmptyString || String.eqb nm (IndexElement.name element))
  | _, _ => false
  end.

(** The point reads that rendering the claims of a list makes. *)
Definition readsOf (ids : list uint160) : list Event :=
  map EvDbRead (List.filter (fun id => negb (IsNull id)) ids).

(** ** Nodes and requests used in the statements *)

Definition blockNotFound : Exception :=
  JSONRPCError RPC_INVALID_ADDRESS_OR_KEY "Block not found".
Definition blockNotInMainChain : Exception :=
  JSONRPCError RPC_INTERNAL_ERROR "Block not in main chain".
Definition shutdownRequested : Exception :=
  JSONRPCError RPC_INTERNAL_ERROR "Shutdown requested".

(** No shutdown is requested and no interruption is pending while the
    first [n] nodes of an iteration are visited. *)
Definition quiet {Caches CBlock : Type} (srv : Server Caches CBlock) (n : nat)
  : Prop :=
  forall k, (k < n)%nat ->
            ShutdownRequestedAt srv k = false /\ interruptionAt srv k = false.

(** The nodes that hold claims, in the order visited. *)
Definition nonEmptyNodes {Caches CBlock : Type} (srv : Server Caches CBlock)
           (nodes_ : list (string * CClaimTrieData))
  : list (string * CClaimTrieData) :=
  List.filter (fun nd => negb (CClaimTrieData_empty srv (snd nd))) nodes_.

(** A name as [getnamesintrie] lists it. *)
Definition nameEntry {Caches CBlock : Type} (srv : Server Caches CBlock)
           (nd : string * CClaimTrieData) : UniValue :=
  VSTR (escapeNonUtf8 (collaborators srv) (fst nd)).

(** The block index of a chain of 600 blocks above the first one, with a
    block of a side branch; the hash of the block at height k is
    1000 + k, the hash of the side block 999. *)
Definition sampleChainState : ChainState :=
  mkChainState
    (fun h => if (1000 <=? h) && (h <=? 1600)
              then Some (sampleChain (Z.to_nat (h - 1000)))
              else if h =? 999 then Some forkBlock else None)
    (sampleChain 600)
    (fun i => CBlockIndex_eqb i (sampleChain (Z.to_nat (index_nHeight i)))).

Definition sampleNodes : list (string * CClaimTrieData) :=
  [ ("a"%string, mkTrieData [claim claimA]);
    ("none"%string, mkTrieData []);
    ("b"%string, mkTrieData [claim claimB; claim claimC]) ].

(** A server on [sampleNode] whose registry loses one node per block
    disconnected; a hash is given in hex.  [shutdownAt] is the visit of an
    iteration at which a shutdown is requested, [deprecatedEnabled] the switch
    [-deprecatedrpc]. *)
Definition sampleServerWith (shutdownAt : option nat) (deprecatedEnabled : bool)
  : Server nat unit :=
  mkServer sampleCollaborators (fun _ => "help"%string)
           (fun v strName =>
              match v with
              | VSTR s => Return (parse_hex s 0)
              | _ => Throw (JSONRPCError RPC_INVALID_PARAMETER strName)
              end)
           sampleChainState sampleNode O
           (fun _ => sampleRegistry) (fun _ => spentCoins)
           (fun disconnected => drop disconnected sampleNodes)
           (fun data => match claims data with [] => true | _ => false end)
           sampleIndex (fun _ => deprecatedEnabled)
           (fun k => match shutdownAt with Some j => (k =? j)%nat | None => false end)
           (fun _ => false).

Definition sampleServer : Server nat unit := sampleServerWith None false.

(** What the answer of [getclaimsintrie] shows of one node: its escaped
    name and one object per claim, each with the identifier of its
    claim. *)
Definition showsClaim (c : CClaimValue) (o : UniValue) : Prop :=
  find_value o T_CLAIMID = Some (VSTR (GetHex (claimId c))).

Definition showsNode {Caches CBlock : Type} (srv : Server Caches CBlock)
           (nd : string * CClaimTrieData) (o : UniValue) : Prop :=
  find_value o T_NORMALIZEDNAME = Some (nameEntry srv nd)
  /\ exists claimObjs,
      find_value o T_CLAIMS = Some (VARR claimObjs)
      /\ Forall2 showsClaim (claims (snd nd)) claimObjs.

(** The point reads that rendering the claims of the nodes makes. *)
Definition readsOfNodes (nodes_ : list (string * CClaimTrieData)) : list Event :=
  concat (map (fun nd => readsOf (map claimId (claims (snd nd)))) nodes_).

(** ** Escaped names *)

(** Reading back what the [catch] branch of [escapeNonUtf8] writes. *)
Definition unescape_char (c : ascii) : option ascii :=
  if Ascii.eqb c "b" then Some (ascii_of_nat 8)
  else if Ascii.eqb c "t" then Some (ascii_of_nat 9)
  else if Ascii.eqb c "n" then Some (ascii_of_nat 10)
  else if Ascii.eqb c "f" then Some (ascii_of_nat 12)
  else if Ascii.eqb c "r" then Some (ascii_of_nat 13)
  else if Ascii.eqb c dquote then Some dquote
  else if Ascii.eqb c backslash then Some backslash
  else None.

Fixpoint unescape (s : string) : option string :=
  match s with
  | EmptyString => Some EmptyString
  | String c rest =>
      if Ascii.eqb c backslash then
        match rest with
        | EmptyString => None
        | String e rest' =>
            if Ascii.eqb e "u" then
              match rest' with
              | String _ (String _ (String x (String y rest''))) =>
                  match HexDigit x, HexDigit y with
                  | Some hi, Some lo =>
                      option_map (String (ascii_of_N (Z.to_N (16 * hi + lo))))
                                 (unescape rest'')
                  | _, _ => None
                  end
              | _ => None
              end
            else
              match unescape_char e with
              | Some ch => option_map (String ch) (unescape rest')
              | None => None
              end
        end
      else option_map (String c) (unescape rest)
  end.

(** A printable ASCII character, or the vertical tab. *)
Definition printable_or_vt (c : ascii) : bool :=
  let ch := byte_of c in
  ((32 <=? ch) && (ch <=? 126)) || (ch =? 11).

Fixpoint string_forall (P : ascii -> bool) (s : string) : bool :=
  match s with
  | EmptyString => true
  | String c s' => P c && string_forall P s'
  end.

(** Collaborators whose conversion accepts ASCII names only. *)
Definition asciiCollaborators : Collaborators :=
  mkCollaborators 105 181 (fun _ => "key"%string)
                  (fun s => if string_forall (fun c => byte_of c <? 128) s
                            then Some s else None)
                  (fun _ => None) (fun _ => None) (fun _ => EmptyString)
                  (fun cs id => findIn (fun c => claimId (claim c) =? id) cs)
                  (fun cs s => findIn (fun c => String.prefix s (GetHex (claimId (claim c)))) cs)
                  (fun c => IsNull (claimId (claim c))).

(** The name of the two bytes 0xff and 0x0b. *)
Definition rawName : string :=
  String (ascii_of_nat 255) (String (ascii_of_nat 11) EmptyString).

(** The name of the single byte 0xff, and the ASCII name of six
    characters that spells its escape. *)
Definition byteFF : string := String (ascii_of_nat 255) EmptyString.
Definition spelledFF : string := String backslash "u00ff".
(** * Properties *)

(** ** Sorting and searching *)

Section StdAlgorithmsFacts.
Context {A : Type} (comp : A -> A -> bool).

Lemma sort_insert_Permutation x l : sort_insert comp x l ≡ₚ x :: l.
Proof.
  induction l as [|y t IH]; simpl; [done|].
  destruct (comp y x); [|done].
  rewrite IH. apply perm_swap.
Qed.

Lemma std_sort_Permutation l : std_sort comp l ≡ₚ l.
Proof.
  induction l as [|x t IH]; simpl; [done|].
  by rewrite sort_insert_Permutation, IH.
Qed.

(** [before x y] reads "x may stand before y": it holds whenever [comp]
    does not put [y] first. *)
Context (before : relation A).
Hypothesis before_trans : Transitive before.
Hypothesis comp_before : forall x y, comp x y = true -> before x y.
Hypothesis not_comp_before : forall x y, comp y x = false -> before x y.

Lemma sort_insert_sorted x l :
  StronglySorted before l -> StronglySorted before (sort_insert comp x l).
Proof.
  induction l as [|y t IH]; simpl; intros Hs.
  - repeat constructor.
  - apply StronglySorted_inv in Hs as [Ht Hy].
    destruct (comp y x) eqn:Hc.
    + constructor; [by apply IH|].
      rewrite sort_insert_Permutation. constructor; [by apply comp_before|done].
    + constructor; [by constructor|].
      pose proof (not_comp_before _ _ Hc) as Hxy.
      constructor; [done|].
      eapply Forall_impl; [exact Hy|]. intros z Hz. by transitivity y.
Qed.

Lemma std_sort_sorted l : StronglySorted before (std_sort comp l).
Proof.
  induction l as [|x t IH]; simpl; [constructor|by apply sort_insert_sorted].
Qed.
End StdAlgorithmsFacts.

Section FindIf.
Context {A : Type} (pred : A -> bool).

Lemma find_if_Some l p :
  find_if pred l = Some p ->
  exists x, l !! p = Some x /\ pred x = true
            /\ forall q y, (q < p)%nat -> l !! q = Some y -> pred y = false.
Proof.
  revert p. induction l as [|x t IH]; simpl; intros p Hp; [done|].
  destruct (pred x) eqn:Hx.
  - simplify_eq. exists x. repeat split; [done|]. intros q y Hq. lia.
  - destruct (find_if pred t) as [p'|] eqn:Hf; simplify_eq/=.
    destruct (IH _ eq_refl) as (z & Hz & Hpz & Hfirst).
    exists z. repeat split; [done..|].
    intros [|q] y Hq Hy; simplify_eq/=; [done|].
    eapply Hfirst; [|done]. lia.
Qed.

Lemma find_if_None l :
  find_if pred l = None <-> Forall (fun x => pred x = false) l.
Proof.
  induction l as [|x t IH]; simpl.
  - split; [constructor|done].
  - destruct (pred x) eqn:Hx.
    + split; [done|]. intros H. apply Forall_cons in H as [? _]. congruence.
    + destruct (find_if pred t); simpl.
      * split; [done|]. intros H. apply Forall_cons in H as [_ H].
        by apply IH in H.
      * split; [|done]. intros _. constructor; [done|]. by apply IH.
Qed.

Lemma find_if_elem x l :
  x ∈ l -> pred x = true -> is_Some (find_if pred l).
Proof.
  intros Hin Hx. destruct (find_if pred l) eqn:Hf; [done|].
  apply find_if_None in Hf. rewrite Forall_forall in Hf.
  specialize (Hf _ Hin). congruence.
Qed.
End FindIf.

(** ** Sequence order *)

#[local] Instance seq_before_trans : Transitive seq_before.
Proof. unfold seq_before. intros a b c. lia. Qed.

Lemma seqSort_comp_before x y : seqSort_comp x y = true -> seq_before x y.
Proof. unfold seqSort_comp, seq_before. lia. Qed.

Lemma seqSort_not_comp_before x y : seqSort_comp y x = false -> seq_before x y.
Proof. unfold seqSort_comp, seq_before. lia. Qed.

Lemma seqSort_unfold source : seqSort source = std_sort seqSort_comp source.
Proof. reflexivity. Qed.

Lemma seqSort_Permutation source : seqSort source ≡ₚ source.
Proof. rewrite seqSort_unfold. apply std_sort_Permutation. Qed.

Lemma seqSort_sorted source : StronglySorted seq_before (seqSort source).
Proof.
  rewrite seqSort_unfold.
  apply std_sort_sorted;
    auto using seq_before_trans, seqSort_comp_before, seqSort_not_comp_before.
Qed.


(** C2 (as amended).  For every list of claims-with-supports of a name,
    [seqSort] returns a rearrangement of that list ordered by the claim's
    registration height [nHeight] ascending, ties broken by output index
    ascending; for A (height 99), B (height 100, output index 0) and
    C (height 100, output index 2) given in bid order B, C, A the sequence
    order is A, B, C. *)
Theorem seqSort_orders_by_registration_height :
  (forall source : list CClaimNsupports,
      seqSort source ≡ₚ source /\ StronglySorted seq_before (seqSort source))
  /\ seqSort [claimB; claimC; claimA] = [claimA; claimB; claimC].
Proof.
  split; [|reflexivity].
  intros source. split; [apply seqSort_Permutation|apply seqSort_sorted].
Qed.

(** C2 as stated fails: a claim registered first but valid later stays in
    front, so the result is not ordered by the valid-at height. *)
Lemma seqSort_not_by_valid_at_height :
  seqSort [claimEarly; claimLate] = [claimEarly; claimLate]
  /\ ~ StronglySorted spec_valid_at_before (seqSort [claimEarly; claimLate]).
Proof.
  split; [reflexivity|].
  intros Hs. apply StronglySorted_inv in Hs as [_ Hfa].
  apply Forall_cons in Hfa as [Hb _].
  unfold spec_valid_at_before in Hb. simpl in Hb. lia.
Qed.

(** ** Positions in an ordering *)

Lemma indexOf_present (order : list CClaimNsupports) (id : uint160) :
  id ∈ map (fun c => claimId (claim c)) order ->
  exists p c, indexOf order id = ret p /\ order !! p = Some c
              /\ claimId (claim c) = id.
Proof.
  intros Hin. apply list_elem_of_fmap in Hin as (c & -> & Hc).
  unfold indexOf, indexOf_pos.
  destruct (find_if_elem (fun x => claimId (claim x) =? claimId (claim c)) c order)
    as [p Hp]; [done|apply Z.eqb_refl|].
  rewrite Hp. apply find_if_Some in Hp as (x & Hx & Heq & _).
  exists p, x. repeat split; [done|]. by apply Z.eqb_eq.
Qed.

Lemma indexOf_absent (order : list CClaimNsupports) (id : uint160) :
  id ∉ map (fun c => claimId (claim c)) order ->
  indexOf order id = throw AssertionFailure.
Proof.
  intros Hnin. unfold indexOf, indexOf_pos.
  destruct (find_if _ order) as [p|] eqn:Hp; [|done].
  apply find_if_Some in Hp as (x & Hx & Heq & _).
  destruct Hnin. apply list_elem_of_fmap. exists x. split.
  - symmetry. by apply Z.eqb_eq.
  - by eapply list_elem_of_lookup_2.
Qed.

(** C8.  For a name with k claims the bid order [cs] and the sequence order
    [seqSort cs] hold the same k claims, so positions range over [0, k);
    in either ordering [indexOf] of an identifier that is present returns a
    position whose claim has that identifier, and for an identifier that
    is absent the [assert] fails: no RPC error is produced. *)
Theorem orders_are_permutations_and_indexOf_roundtrips
        (cs order : list CClaimNsupports) (id : uint160)
        (Horder : order = cs \/ order = seqSort cs) :
  seqSort cs ≡ₚ cs
  /\ length order = length cs
  /\ (id ∈ map (fun c => claimId (claim c)) order ->
      exists p c, indexOf order id = ret p /\ (p < length cs)%nat
                  /\ order !! p = Some c /\ claimId (claim c) = id)
  /\ (id ∉ map (fun c => claimId (claim c)) order ->
      indexOf order id = throw AssertionFailure).
Proof.
  assert (Hlen : length order = length cs).
  { destruct Horder as [->| ->]; [done|].
    apply Permutation_length, seqSort_Permutation. }
  split; [apply seqSort_Permutation|]. split; [done|]. split.
  - intros Hin. destruct (indexOf_present order id Hin) as (p & c & Hp & Hc & Hid).
    exists p, c. repeat split; try done.
    rewrite <- Hlen. by eapply lookup_lt_Some.
  - apply indexOf_absent.
Qed.

Lemma orders_are_permutations_and_indexOf_roundtrips_witness :
  exists p c, indexOf (seqSort [claimB; claimC; claimA]) 12 = ret p
              /\ (p < 3)%nat
              /\ seqSort [claimB; claimC; claimA] !! p = Some c
              /\ claimId (claim c) = 12.
Proof.
  apply (orders_are_permutations_and_indexOf_roundtrips
           [claimB; claimC; claimA] (seqSort [claimB; claimC; claimA]) 12
           (or_intror eq_refl)).
  vm_compute. do 2 right. left.
Defined.

(** ** JSON objects *)

Lemma Key_eqb_eq a b : Key_eqb a b = true <-> a = b.
Proof. destruct a, b; simpl; split; intros H; try done. Qed.

Lemma Key_eqb_refl a : Key_eqb a a = true.
Proof. by apply Key_eqb_eq. Qed.

Lemma find_member_set_member k k' v ms :
  find_member k (set_member k' v ms)
  = if Key_eqb k' k then Some v else find_member k ms.
Proof.
  induction ms as [|[k0 v0] t IH]; simpl.
  - by destruct (Key_eqb k' k).
  - destruct (Key_eqb k0 k') eqn:H0; simpl.
    + apply Key_eqb_eq in H0 as ->. by destruct (Key_eqb k' k).
    + destruct (Key_eqb k0 k) eqn:H1; [|done].
      apply Key_eqb_eq in H1 as ->.
      destruct (Key_eqb k' k) eqn:H2; [|done].
      apply Key_eqb_eq in H2 as ->. by rewrite Key_eqb_refl in H0.
Qed.

Lemma find_member_app k ms ms' :
  find_member k (ms ++ ms')
  = match find_member k ms with Some v => Some v | None => find_member k ms' end.
Proof.
  induction ms as [|[k0 v0] t IH]; simpl; [done|]. by destruct (Key_eqb k0 k).
Qed.

Lemma isObject_pushKV o k v : isObject (pushKV o k v) = isObject o.
Proof. by destruct o. Qed.

Lemma find_value_pushKV o k v k' :
  isObject o = true ->
  find_value (pushKV o k v) k' = if Key_eqb k k' then Some v else find_value o k'.
Proof. destruct o; try done. intros _. apply find_member_set_member. Qed.

Lemma find_value_pushKVs o obj k :
  isObject o = true -> isObject obj = true ->
  find_value (pushKVs o obj) k
  = match find_value o k with Some v => Some v | None => find_value obj k end.
Proof. destruct o, obj; try done. intros _ _. apply find_member_app. Qed.

Lemma isObject_pushKVs o obj : isObject (pushKVs o obj) = isObject o.
Proof. by destruct o, obj. Qed.

Section Rendering.
Context (X : Collaborators).

Lemma isObject_coinToJSON coinsCache o result :
  isObject (coinToJSON X coinsCache o result) = isObject result.
Proof.
  unfold coinToJSON. destruct (negb _); [|done].
  destruct (ExtractDestination _ _), (extractValue _ _);
    by rewrite ?isObject_pushKV.
Qed.

Lemma find_value_coinToJSON coinsCache o result k :
  isObject result = true ->
  Key_eqb T_VALUE k = false -> Key_eqb T_ADDRESS k = false ->
  find_value (coinToJSON X coinsCache o result) k = find_value result k.
Proof.
  intros Hobj Hv Ha. unfold coinToJSON. destruct (negb _); [|done].
  destruct (ExtractDestination _ _), (extractValue _ _);
    repeat (rewrite find_value_pushKV by (by rewrite ?isObject_pushKV));
    by rewrite ?Hv, ?Ha.
Qed.

(** [getClaimById] never throws. *)
Lemma getClaimById_returns db id :
  exists r, outcome (getClaimById X db id) = Return r.
Proof.
  unfold getClaimById. destruct (IsNull id); [by eexists|].
  simpl. destruct (db_Read _ _) as [el|]; [|by eexists].
  destruct (_ =? _); by eexists.
Qed.

(** What [claimToJSON] answers: an object without the members added
    later, carrying the claim's identifier. *)
Lemma claimToJSON_returns db coinsCache c :
  exists o, outcome (claimToJSON X db coinsCache c) = Return o
            /\ isObject o = true
            /\ find_value o T_CLAIMID = Some (VSTR (GetHex (claimId c)))
            /\ find_value o T_EFFECTIVEAMOUNT = None
            /\ find_value o T_PENDINGAMOUNT = None
            /\ find_value o T_BID = None
            /\ find_value o T_SEQUENCE = None.
Proof.
  unfold claimToJSON.
  destruct (getClaimById X db (claimId c)) as [evs [r|e]] eqn:Hg;
    [|destruct (getClaimById_returns db (claimId c)) as [r Hr];
      rewrite Hg in Hr; discriminate].
  simpl. eexists. split; [reflexivity|].
  assert (Hobj : isObject
            (coinToJSON X coinsCache (outPoint c)
               match r with
               | Some (targetName, _) =>
                   pushKV (VOBJ []) T_NAME (VSTR (escapeNonUtf8 X targetName))
               | None => VOBJ []
               end) = true).
  { rewrite isObject_coinToJSON. by destruct r as [[]|]. }
  repeat split; rewrite ?isObject_pushKV; try done;
    repeat (rewrite find_value_pushKV by (by rewrite ?isObject_pushKV));
    simpl; try done;
    rewrite find_value_coinToJSON by (done || by destruct r as [[]|]);
    by destruct r as [[]|].
Qed.
End Rendering.

(** ** Amounts *)

Lemma fold_left_add_supports (l : list CSupportValue) (acc : Z) :
  fold_left (fun fullAmount s => fullAmount + Support.nAmount s) l acc
  = acc + fold_right Z.add 0 (map Support.nAmount l).
Proof.
  revert acc. induction l as [|s t IH]; intros acc; simpl; [lia|].
  rewrite IH. lia.
Qed.

Lemma amountToClaim_sum cns :
  amountToClaim cns = nAmount (claim cns) + supportsAmount cns.
Proof. apply fold_left_add_supports. Qed.

Section RenderingWithSupports.
Context (X : Collaborators).

(** What [claimAndSupportsToJSON] answers. *)
Lemma claimAndSupportsToJSON_returns db coinsCache cns :
  exists o, outcome (claimAndSupportsToJSON X db coinsCache cns) = Return o
            /\ isObject o = true
            /\ find_value o T_CLAIMID = Some (VSTR (GetHex (claimId (claim cns))))
            /\ find_value o T_EFFECTIVEAMOUNT = Some (VNUM (effectiveAmount cns))
            /\ find_value o T_PENDINGAMOUNT
               = (if amountToClaim cns >? effectiveAmount cns
                  then Some (VNUM (amountToClaim cns)) else None)
            /\ find_value o T_BID = None
            /\ find_value o T_SEQUENCE = None.
Proof.
  unfold claimAndSupportsToJSON.
  destruct (claimToJSON_returns X db coinsCache (claim cns))
    as (o & Ho & Hobj & Hid & Heff & Hpend & Hbid & Hseq).
  destruct (claimToJSON X db coinsCache (claim cns)) as [evs r].
  simpl in Ho. subst r. simpl.
  eexists. split; [reflexivity|].
  destruct (amountToClaim cns >? effectiveAmount cns);
    repeat split; rewrite ?isObject_pushKV; try done;
    repeat (rewrite find_value_pushKV by (by rewrite ?isObject_pushKV));
    simpl; done.
Qed.
End RenderingWithSupports.

(** C1 (as amended).  In the object rendered by [claimAndSupportsToJSON]
    the pending-amount member is present exactly when the full amount (the
    claim's own amount plus the amounts of all linked supports) exceeds
    the effective amount, and its value is then that full amount; a
    claim of 100 with effective amount 100 and supports of 30 and 20 is
    rendered with a pending amount of 150. *)
Theorem pendingAmount_reports_full_amount
        (X : Collaborators) (db : CDBWrapper) (coinsCache : CCoinsViewCache)
        (cns : CClaimNsupports) :
  exists o, outcome (claimAndSupportsToJSON X db coinsCache cns) = Return o
            /\ amountToClaim cns = nAmount (claim cns) + supportsAmount cns
            /\ find_value o T_PENDINGAMOUNT
               = (if amountToClaim cns >? effectiveAmount cns
                  then Some (VNUM (amountToClaim cns)) else None)
            /\ (cns = claimWithPendingSupports ->
                find_value o T_PENDINGAMOUNT = Some (VNUM 150)).
Proof.
  destruct (claimAndSupportsToJSON_returns X db coinsCache cns)
    as (o & Ho & _ & _ & _ & Hpend & _).
  exists o. split; [done|]. split; [apply amountToClaim_sum|].
  split; [done|]. intros ->. by rewrite Hpend.
Qed.

Lemma pendingAmount_reports_full_amount_witness :
  exists o,
    outcome (claimAndSupportsToJSON sampleCollaborators sampleIndex spentCoins
                                    claimWithPendingSupports) = Return o
    /\ find_value o T_PENDINGAMOUNT = Some (VNUM 150).
Proof.
  destruct (pendingAmount_reports_full_amount sampleCollaborators sampleIndex
              spentCoins claimWithPendingSupports) as (o & Ho & _ & _ & Hex).
  exists o. split; [exact Ho|exact (Hex eq_refl)].
Defined.

(** C1 as stated fails on its own example: with effective amount 100 and
    supports of 30 and 20 on a claim of 100 the member holds 150, not the
    difference 50. *)
Lemma pendingAmount_is_not_the_difference :
  exists o,
    outcome (claimAndSupportsToJSON sampleCollaborators [] spentCoins
                                    claimWithPendingSupports) = Return o
    /\ find_value o T_PENDINGAMOUNT = Some (VNUM 150)
    /\ spec_pendingAmount claimWithPendingSupports = Some (VNUM 50)
    /\ find_value o T_PENDINGAMOUNT <> spec_pendingAmount claimWithPendingSupports.
Proof.
  eexists. split; [reflexivity|]. split; [reflexivity|].
  split; [reflexivity|]. discriminate.
Qed.

(** ** Identifier resolution *)

Lemma bind_emit {A} (ev : Event) (m : Rpc A) :
  bind (emit ev) (fun _ => m) = (ev :: events m, outcome m).
Proof. by destruct m. Qed.

Lemma bind_returns {A B} (m : Rpc A) (f : A -> Rpc B) (a : A) :
  outcome m = Return a -> bind m f = (events m ++ events (f a), outcome (f a)).
Proof. destruct m as [evs r]. simpl. intros ->. by destruct (f a). Qed.

Lemma outcome_bind {A B} (m : Rpc A) (f : A -> Rpc B) (a : A) :
  outcome m = Return a -> outcome (bind m f) = outcome (f a).
Proof. intros H. by rewrite (bind_returns m f a H). Qed.

Lemma outcome_bind_throw {A B} (m : Rpc A) (f : A -> Rpc B) (e : Exception) :
  outcome m = Throw e -> outcome (bind m f) = Throw e.
Proof. destruct m as [evs r]. simpl. by intros ->. Qed.

Section Resolution.
Context (X : Collaborators).

Lemma getClaimById_events db id :
  events (getClaimById X db id) = if IsNull id then [] else [EvDbRead id].
Proof.
  unfold getClaimById. destruct (IsNull id); [done|].
  rewrite bind_emit. simpl.
  destruct (db_Read _ _) as [el|]; [|done]. by destruct (_ =? _).
Qed.

Lemma getClaimById_hit db id r :
  outcome (getClaimById X db id) = Return (Some r) -> IsNull id = false.
Proof. unfold getClaimById. by destruct (IsNull id). Qed.

Lemma scanClaimById_returns partialId nm cursor :
  exists r, outcome (scanClaimById X partialId nm cursor) = Return r.
Proof.
  induction cursor as [|e rest IH]; [by eexists|].
  cbn [scanClaimById]. rewrite bind_emit. cbn [outcome snd].
  destruct (GetKey e) as [[tag id]|]; [|done].
  destruct (negb (tag =? _)); [done|].
  destruct (negb (String.prefix _ _)); [done|].
  destruct (GetValue e) as [el|]; [|done].
  destruct (_ && _); [done|by eexists].
Qed.

(** The scan passes over an entry it does not accept. *)
Lemma scanClaimById_skip partialId e rest :
  accepts X partialId e = false ->
  scanClaimById X partialId EmptyString (e :: rest)
  = (EvDbCursor e :: events (scanClaimById X partialId EmptyString rest),
     outcome (scanClaimById X partialId EmptyString rest)).
Proof.
  intros Hacc. cbn [scanClaimById]. rewrite bind_emit. unfold accepts in Hacc.
  destruct (GetKey e) as [[tag id]|]; [|done].
  destruct (tag =? CLAIM_BY_ID X); cbn [negb andb] in *; [|done].
  destruct (String.prefix partialId (GetHex id)); cbn [negb] in *; [|done].
  by destruct (GetValue e).
Qed.

(** The scan stops at an entry it accepts. *)
Lemma scanClaimById_stop partialId e rest element :
  accepts X partialId e = true -> GetValue e = Some element ->
  scanClaimById X partialId EmptyString (e :: rest)
  = ([EvDbCursor e],
     Return (Some (IndexElement.name element, IndexElement.claim element))).
Proof.
  intros Hacc Hval. cbn [scanClaimById]. rewrite bind_emit.
  unfold accepts in Hacc. rewrite Hval in *.
  destruct (GetKey e) as [[tag id]|]; [|done].
  apply andb_true_iff in Hacc as [-> ->]. done.
Qed.

Lemma scanClaimById_none partialId cursor :
  Forall (fun e => accepts X partialId e = false) cursor ->
  scanClaimById X partialId EmptyString cursor
  = (map EvDbCursor cursor, Return None).
Proof.
  induction 1 as [|e rest He _ IH]; [done|].
  rewrite scanClaimById_skip by done. by rewrite IH.
Qed.

Lemma scanClaimById_first partialId skipped e rest element :
  Forall (fun e' => accepts X partialId e' = false) skipped ->
  accepts X partialId e = true -> GetValue e = Some element ->
  scanClaimById X partialId EmptyString (skipped ++ e :: rest)
  = (map EvDbCursor (skipped ++ [e]),
     Return (Some (IndexElement.name element, IndexElement.claim element))).
Proof.
  intros Hsk Hacc Hval. induction Hsk as [|e' sk He' _ IH]; simpl app.
  - by apply scanClaimById_stop.
  - rewrite scanClaimById_skip by done. by rewrite IH.
Qed.

Lemma getClaimByPartialId_scan db partialId nm :
  partialId <> EmptyString ->
  getClaimByPartialId X db partialId nm
  = (EvDbSeekToFirst :: events (scanClaimById X partialId nm db),
     outcome (scanClaimById X partialId nm db)).
Proof.
  intros Hne. unfold getClaimByPartialId.
  destruct (String.eqb_spec partialId EmptyString); [done|].
  apply bind_emit.
Qed.
End Resolution.

Lemma length_nonempty (s : string) : (0 < String.length s)%nat -> s <> EmptyString.
Proof. intros H ->. simpl in H. lia. Qed.

(** C6.  For a prefix of length at least 3 the partial lookup moves the
    cursor over the entries in index order and answers with the name and
    claim of the first entry of the identifier index whose identifier
    starts with the prefix; it stops there, whatever names later matching
    entries carry, and it produces no error. Without a match every entry
    is visited and nothing is found. *)
Theorem partial_lookup_first_match_wins
        (X : Collaborators) (db : CDBWrapper) (partialId : string)
        (Hlen : (3 <= String.length partialId)%nat) :
  (Forall (fun e => accepts X partialId e = false) db ->
   getClaimByPartialId X db partialId EmptyString
   = (EvDbSeekToFirst :: map EvDbCursor db, Return None))
  /\ (forall skipped e rest element,
         db = skipped ++ e :: rest ->
         Forall (fun e' => accepts X partialId e' = false) skipped ->
         accepts X partialId e = true ->
         GetValue e = Some element ->
         getClaimByPartialId X db partialId EmptyString
         = (EvDbSeekToFirst :: map EvDbCursor (skipped ++ [e]),
            Return (Some (IndexElement.name element, IndexElement.claim element)))).
Proof.
  assert (Hne : partialId <> EmptyString) by (apply length_nonempty; lia).
  split.
  - intros Hall. rewrite getClaimByPartialId_scan by done.
    by rewrite scanClaimById_none.
  - intros skipped e rest element -> Hsk Hacc Hval.
    rewrite getClaimByPartialId_scan by done.
    by rewrite (scanClaimById_first X partialId skipped e rest element).
Qed.

Lemma partial_lookup_first_match_wins_witness :
  getClaimByPartialId sampleCollaborators sampleIndex "abcd" EmptyString
  = ([EvDbSeekToFirst; EvDbCursor (indexEntry id_abcd1 "first")],
     Return (Some ("first"%string, mkClaim id_abcd1 100 100 0 5))).
Proof.
  refine (proj2 (partial_lookup_first_match_wins sampleCollaborators sampleIndex
                   "abcd" _) [] (indexEntry id_abcd1 "first") _ _ eq_refl _ _ eq_refl).
  - simpl. lia.
  - constructor.
  - vm_compute. reflexivity.
Defined.

Lemma substring_all (s : string) : String.substring 0 (String.length s) s = s.
Proof. induction s as [|c s IH]; [done|]. cbn. by rewrite IH. Qed.

Lemma prefix_0x (a b : ascii) (rest : string) :
  String.prefix "0x" (String a (String b rest))
  = Ascii.eqb a "0" && Ascii.eqb b "x".
Proof.
  change (String.prefix "0x" (String a (String b rest)))
    with (if ascii_dec "0" a
          then if ascii_dec "x" b then String.prefix EmptyString rest else false
          else false).
  destruct (ascii_dec "0" a) as [<-|Ha].
  - rewrite Ascii.eqb_refl. destruct (ascii_dec "x" b) as [<-|Hb].
    + rewrite Ascii.eqb_refl. by destruct rest.
    + symmetry. apply andb_false_iff. right. apply Ascii.eqb_neq. congruence.
  - symmetry. apply andb_false_iff. left. apply Ascii.eqb_neq. congruence.
Qed.

(** [IsHexNumber] asks for hexadecimal digits behind an optional [0x],
    and for a string that is not empty. *)
Lemma IsHexNumber_digits (s : string) :
  IsHexNumber s
  = all_hex (without_0x s) && negb (String.eqb s EmptyString).
Proof.
  unfold IsHexNumber.
  destruct s as [|a [|b [|c rest]]]; [done| | |].
  - cbn. by rewrite !andb_true_r.
  - cbn. by rewrite !andb_true_r.
  - rewrite prefix_0x.
    change (2 <? String.length (String a (String b (String c rest))))%nat
      with true.
    cbn [andb without_0x String.eqb negb].
    destruct (Ascii.eqb a "0" && Ascii.eqb b "x").
    + change (String.length (String a (String b (String c rest))) - 2)%nat
        with (String.length (String c rest)).
      change (2 <? String.length (String a (String b (String c rest))))%nat
        with true.
      change (String.substring 2 (String.length (String c rest))
                (String a (String b (String c rest))))
        with (String.substring 0 (String.length (String c rest)) (String c rest)).
      by rewrite substring_all.
    + rewrite Nat.sub_0_r, substring_all. reflexivity.
Qed.

(** A string of hexadecimal digits has no [0x] at its head. *)
Lemma without_0x_all_hex (s : string) : all_hex s = true -> without_0x s = s.
Proof.
  destruct s as [|a [|b [|c rest]]]; try done. cbn [without_0x all_hex].
  destruct (Ascii.eqb_spec b "x") as [->|_]; [|by rewrite andb_false_r].
  cbn. by rewrite andb_false_r.
Qed.

Section Validation.
Context (X : Collaborators).

(** A parameter that passes validation reaches the two lookups. *)
Lemma getclaimbyid_resolve_valid db s :
  IsHexNumber s = true ->
  (3 <= String.length s <= claimIdHexLength)%nat ->
  getclaimbyid_resolve X db (VSTR s)
  = bind (if (String.length s =? claimIdHexLength)%nat
          then getClaimById X db (uint160S s) else ret None)
         (fun found =>
            match found with
            | Some r => ret (Some r)
            | None => getClaimByPartialId X db s EmptyString
            end).
Proof.
  intros Hhex [Hlo Hhi]. unfold getclaimbyid_resolve, ParseClaimtrieId.
  cbn [isStr get_str negb orb]. rewrite Hhex. cbn [negb].
  destruct (Nat.ltb_spec claimIdHexLength (String.length s)); [lia|].
  cbn [ret bind app]. destruct (Nat.ltb_spec (String.length s) 3); [lia|].
  by destruct (bind _ _).
Qed.

Lemma getclaimbyid_resolve_rejects db v :
  rejected v ->
  exists msg, getclaimbyid_resolve X db v
              = ([], Throw (JSONRPCError RPC_INVALID_PARAMETER msg)).
Proof.
  intros Hrej. unfold getclaimbyid_resolve, ParseClaimtrieId.
  destruct (isStr v) eqn:Hstr; cbn [negb orb]; [|by eexists].
  destruct (IsHexNumber (get_str v)) eqn:Hhex; cbn [negb]; [|by eexists].
  destruct (Nat.ltb_spec claimIdHexLength (String.length (get_str v)));
    [by eexists|].
  cbn [ret bind app].
  destruct (Nat.ltb_spec (String.length (get_str v)) 3); [by eexists|].
  exfalso. rewrite IsHexNumber_digits in Hhex.
  apply andb_true_iff in Hhex as [Hall _].
  destruct Hrej as [?|[?|[?|?]]]; congruence || lia.
Qed.

Lemma getclaimbyid_resolve_accepts db v :
  ~ rejected v -> exists r, outcome (getclaimbyid_resolve X db v) = Return r.
Proof.
  intros Hok. destruct v as [| | |s| |];
    try (destruct Hok; left; reflexivity).
  assert (Hlen : (3 <= String.length s <= claimIdHexLength)%nat).
  { split.
    - destruct (Nat.le_gt_cases 3 (String.length s)); [done|].
      destruct Hok. do 3 right. done.
    - destruct (Nat.le_gt_cases (String.length s) claimIdHexLength); [done|].
      destruct Hok. do 2 right. by left. }
  assert (Hne : s <> EmptyString) by (apply length_nonempty; lia).
  assert (Hhex : IsHexNumber s = true).
  { rewrite IsHexNumber_digits. apply andb_true_iff. split.
    - destruct (all_hex (without_0x s)) eqn:H; [done|]. destruct Hok. right. by left.
    - by destruct s. }
  rewrite getclaimbyid_resolve_valid by done.
  destruct (scanClaimById_returns X s EmptyString db) as [r' Hr'].
  destruct (String.length s =? claimIdHexLength)%nat.
  - destruct (getClaimById_returns X db (uint160S s)) as [[r|] Hr];
      rewrite (bind_returns _ _ _ Hr); cbn [outcome snd]; [by eexists|].
    rewrite getClaimByPartialId_scan by done. by eexists.
  - rewrite (bind_returns (ret None) _ None eq_refl). cbn [outcome snd].
    rewrite getClaimByPartialId_scan by done. by eexists.
Qed.
End Validation.

(** C5 (as amended).  [getclaimbyid] refuses a parameter that is not a
    string, that has a character other than a hexadecimal digit (a [0x]
    at its head is skipped), that is longer than 40 characters or shorter
    than 3; the refusal is an invalid-parameter error raised before any
    access to the index or the registry.  Every other parameter reaches
    the lookups, which return.  The parity of the length plays no part:
    a string of 3 to 40 hexadecimal digits is never refused. *)
Theorem invalid_identifier_rejected_before_index_access
        (X : Collaborators) (db : CDBWrapper) (trieCache : CClaimTrieCache)
        (coinsCache : CCoinsViewCache) (v : UniValue) :
  (rejected v ->
   exists msg, getclaimbyid X db trieCache coinsCache v
               = ([], Throw (JSONRPCError RPC_INVALID_PARAMETER msg)))
  /\ (~ rejected v ->
      exists r, outcome (getclaimbyid_resolve X db v) = Return r)
  /\ (isStr v = true -> all_hex (get_str v) = true ->
      (3 <= String.length (get_str v) <= claimIdHexLength)%nat ->
      ~ rejected v).
Proof.
  split; [|split].
  - intros Hrej. destruct (getclaimbyid_resolve_rejects X db v Hrej) as [msg Hmsg].
    exists msg. unfold getclaimbyid. by rewrite Hmsg.
  - apply getclaimbyid_resolve_accepts.
  - intros Hstr Hall [Hlo Hhi] [H|[H|[H|H]]]; [congruence| |lia|lia].
    rewrite (without_0x_all_hex _ Hall) in H. congruence.
Qed.

Lemma invalid_identifier_rejected_before_index_access_witness :
  exists msg,
    getclaimbyid sampleCollaborators sampleIndex
                 (mkTrieCache (fun nm => mkClaimSupportToName nm 0 [] [])
                              (fun _ _ => None))
                 spentCoins (VSTR "abcdefgh")
    = ([], Throw (JSONRPCError RPC_INVALID_PARAMETER msg)).
Proof.
  apply (invalid_identifier_rejected_before_index_access sampleCollaborators).
  right. left. reflexivity.
Defined.

(** C5 as stated fails: a string of hexadecimal digits of odd length is
    not refused.  The three characters [abc] are resolved by the scan of
    the index, which stops on the first identifier they begin; with [0x]
    in front they pass validation as well, and the scan visits every entry
    of the index. *)
Lemma odd_length_identifier_reaches_the_index :
  Nat.even (String.length "abc") = false
  /\ ~ rejected (VSTR "abc")
  /\ getclaimbyid_resolve sampleCollaborators sampleIndex (VSTR "abc")
     = ([EvDbSeekToFirst; EvDbCursor (indexEntry id_abcd1 "first")],
        Return (Some ("first"%string, mkClaim id_abcd1 100 100 0 5)))
  /\ ~ rejected (VSTR "0xabc")
  /\ getclaimbyid_resolve sampleCollaborators sampleIndex (VSTR "0xabc")
     = (EvDbSeekToFirst :: map EvDbCursor sampleIndex, Return None).
Proof.
  split; [reflexivity|]. split.
  { intros [H|[H|[H|H]]]; [discriminate H|discriminate H|vm_compute in H; lia..]. }
  split; [vm_compute; reflexivity|]. split.
  { intros [H|[H|[H|H]]]; [discriminate H|discriminate H|vm_compute in H; lia..]. }
  vm_compute. reflexivity.
Qed.

(** C4 (as amended).  For a valid identifier of 40 hexadecimal
    characters [getclaimbyid] first makes one point lookup in the
    identifier index.  When the lookup finds the claim, that is the whole
    resolution: one read, no cursor, and the answer of the lookup.  When it
    finds nothing, the resolution goes on with the prefix scan over the
    index and answers what the scan answers. *)
Theorem getclaimbyid_point_lookup_then_scan
        (X : Collaborators) (db : CDBWrapper) (s : string)
        (Hhex : IsHexNumber s = true)
        (Hlen : String.length s = claimIdHexLength) :
  (forall r, outcome (getClaimById X db (uint160S s)) = Return (Some r) ->
             getclaimbyid_resolve X db (VSTR s)
             = ([EvDbRead (uint160S s)], Return (Some r)))
  /\ (outcome (getClaimById X db (uint160S s)) = Return None ->
      getclaimbyid_resolve X db (VSTR s)
      = (events (getClaimById X db (uint160S s))
           ++ EvDbSeekToFirst :: events (scanClaimById X s EmptyString db),
         outcome (scanClaimById X s EmptyString db))).
Proof.
  assert (Hrange : (3 <= String.length s <= claimIdHexLength)%nat).
  { rewrite Hlen. unfold claimIdHexLength. lia. }
  assert (Hne : s <> EmptyString).
  { apply length_nonempty. rewrite Hlen. unfold claimIdHexLength. lia. }
  rewrite (getclaimbyid_resolve_valid X db s Hhex Hrange).
  rewrite Hlen, Nat.eqb_refl. split.
  - intros r Hr. rewrite (bind_returns _ _ _ Hr).
    rewrite getClaimById_events, (getClaimById_hit X db _ r Hr). done.
  - intros Hr. rewrite (bind_returns _ _ _ Hr).
    by rewrite getClaimByPartialId_scan.
Qed.

Lemma getclaimbyid_point_lookup_then_scan_witness :
  getclaimbyid_resolve sampleCollaborators sampleIndex (VSTR hex_abcd1)
  = ([EvDbRead id_abcd1],
     Return (Some ("first"%string, mkClaim id_abcd1 100 100 0 5))).
Proof.
  refine (proj1 (getclaimbyid_point_lookup_then_scan sampleCollaborators
                   sampleIndex hex_abcd1 _ _) _ _); reflexivity.
Defined.

(** C4 as stated fails: an identifier of 40 hexadecimal characters that
    the point lookup does not find is looked for again by a scan that
    moves the cursor over every entry of the index. *)
Lemma getclaimbyid_scans_after_a_miss :
  IsHexNumber hex_aaaa = true
  /\ String.length hex_aaaa = claimIdHexLength
  /\ getclaimbyid_resolve sampleCollaborators sampleIndex (VSTR hex_aaaa)
     = (EvDbRead (uint160S hex_aaaa) :: EvDbSeekToFirst
          :: map EvDbCursor sampleIndex,
        Return None)
  /\ existsb is_scan_event
       (events (getclaimbyid_resolve sampleCollaborators sampleIndex
                                     (VSTR hex_aaaa))) = true.
Proof. repeat split; vm_compute; reflexivity. Qed.

(** ** Selection by position *)

Lemma to_uint32_int (z : Z) : 0 <= z < 2 ^ 31 -> to_uint32 z = z.
Proof. intros H. unfold to_uint32. apply Z.mod_small. lia. Qed.

Lemma proofToJSON_isObject proof : isObject (proofToJSON proof) = true.
Proof.
  unfold proofToJSON.
  destruct (hasValue proof), (negb (empty (fold_left _ (pairs proof) _))),
    (negb (empty (fold_left _ (nodes proof) _)));
    by rewrite ?isObject_pushKV.
Qed.

(** C7 (as amended).  For every name and every index of type [int] that
    is not negative and not below the number of claims of the name,
    [getclaimbybid] and [getclaimbyseq] answer the empty object and
    [getclaimproofbyseq] the empty array, without error; so does
    [getclaimproofbybid] when the index is not 0. *)
Theorem out_of_range_index_gives_empty_result
        (X : Collaborators) (db : CDBWrapper) (trieCache : CClaimTrieCache)
        (coinsCache : CCoinsViewCache) (name_ : string) (index : Z)
        (Hint : 0 <= index < 2 ^ 31)
        (Hout : Z.of_nat (length (claimsNsupports (getClaimsForName trieCache name_)))
                <= index) :
  getclaimbybid X db trieCache coinsCache name_ index
  = ([EvGetClaimsForName name_], Return (VOBJ []))
  /\ getclaimbyseq X db trieCache coinsCache name_ index
     = ([EvGetClaimsForName name_], Return (VOBJ []))
  /\ getclaimproofbyseq X trieCache name_ index
     = ([EvGetClaimsForName name_], Return (VARR []))
  /\ (index <> 0 ->
      getclaimproofbybid X trieCache name_ index
      = ([EvGetClaimsForName name_], Return (VARR []))).
Proof.
  unfold getclaimbybid, getclaimbyseq, getclaimproofbyseq, getclaimproofbybid.
  destruct (Z.ltb_spec index 0); [lia|].
  rewrite !bind_emit, to_uint32_int by done.
  destruct (Z.leb_spec
              (Z.of_nat (length (claimsNsupports (getClaimsForName trieCache name_))))
              index); [|lia].
  repeat split. intros Hnz.
  destruct (Z.eqb_spec index 0); [done|]. reflexivity.
Qed.

Lemma out_of_range_index_gives_empty_result_witness :
  getclaimbybid sampleCollaborators sampleIndex sampleRegistry spentCoins "name" 5
  = ([EvGetClaimsForName "name"], Return (VOBJ []))
  /\ getclaimbyseq sampleCollaborators sampleIndex sampleRegistry spentCoins "name" 5
     = ([EvGetClaimsForName "name"], Return (VOBJ []))
  /\ getclaimproofbyseq sampleCollaborators sampleRegistry "name" 5
     = ([EvGetClaimsForName "name"], Return (VARR []))
  /\ (5 <> 0 ->
      getclaimproofbybid sampleCollaborators sampleRegistry "name" 5
      = ([EvGetClaimsForName "name"], Return (VARR []))).
Proof.
  apply (out_of_range_index_gives_empty_result sampleCollaborators sampleIndex
           sampleRegistry spentCoins "name" 5); simpl; lia.
Defined.

(** C7 as stated fails for [getclaimproofbybid]: with bid 0 on a name
    without claims the index is out of range, yet the answer is the
    rendered proof, not the empty result. *)
Lemma proof_by_bid_zero_out_of_range_is_not_empty :
  Z.of_nat (length (claimsNsupports (getClaimsForName emptyRegistry "name"))) <= 0
  /\ getclaimproofbybid sampleCollaborators emptyRegistry "name" 0
     = ([EvGetProofForName "name" None],
        Return (VOBJ [(T_NODES, VARR [VOBJ [(T_CHILDREN, VARR [])]])]))
  /\ outcome (getclaimproofbybid sampleCollaborators emptyRegistry "name" 0)
     <> Return (VARR []).
Proof. repeat split; [simpl; lia|discriminate]. Qed.

(** C10.  With bid 0 [getclaimproofbybid] does not ask for the claims of
    the name and builds no predicate: its only request is the proof with
    the default predicate, and its answer is the rendered proof or the
    proof builder's failure.  Whatever the number of claims, the empty
    array of the bounds check is never the answer. *)
Theorem proof_by_bid_zero_skips_bounds_check
        (X : Collaborators) (trieCache : CClaimTrieCache) (name_ : string) :
  getclaimproofbybid X trieCache name_ 0
  = ([EvGetProofForName name_ None],
     match getProofForName trieCache name_ None with
     | Some proof => Return (proofToJSON proof)
     | None => Throw (JSONRPCError RPC_INTERNAL_ERROR "Failed to generate proof")
     end)
  /\ outcome (getclaimproofbybid X trieCache name_ 0) <> Return (VARR []).
Proof.
  unfold getclaimproofbybid, requestProof. cbn [Z.ltb Z.eqb Z.compare negb].
  rewrite bind_emit. split.
  - by destruct (getProofForName trieCache name_ None).
  - destruct (getProofForName trieCache name_ None) as [proof|]; [|done].
    cbn [outcome snd ret]. intros [= Heq].
    pose proof (proofToJSON_isObject proof) as Hobj. by rewrite Heq in Hobj.
Qed.

(** ** Chain rewind *)

Lemma CBlockIndex_eqb_refl : forall a, CBlockIndex_eqb a a = true.
Proof.
  fix IH 1. intros [h z [p|]]; simpl; rewrite !Z.eqb_refl; simpl; auto.
Qed.

Lemma CBlockIndex_eqb_height a b :
  CBlockIndex_eqb a b = true -> index_nHeight a = index_nHeight b.
Proof.
  destruct a as [ha na pa], b as [hb nb pb]. simpl. intros H.
  apply andb_true_iff in H as [H _]. apply andb_true_iff in H as [_ H].
  by apply Z.eqb_eq.
Qed.

Lemma ancestor_height k : forall i t,
  ancestor_at k i = Some t -> heights_linked k i = true ->
  index_nHeight t = index_nHeight i - Z.of_nat k.
Proof.
  induction k as [|k IH]; intros i t Ha Hl; simpl in *.
  - simplify_eq. lia.
  - destruct (index_pprev i) as [p|]; [|done].
    apply andb_true_iff in Hl as [Hp Hl]. apply Z.eqb_eq in Hp.
    rewrite (IH _ _ Ha Hl). lia.
Qed.

Lemma rewindSteps_disconnects k : forall i t,
  ancestor_at k i = Some t ->
  length (List.filter is_disconnect (rewindSteps k i)) = k.
Proof.
  induction k as [|k IH]; intros i t Ha; simpl in *; [done|].
  destruct (index_pprev i) as [p|]; [|done].
  by rewrite (IH _ _ Ha).
Qed.

Section RewindFacts.
Context {Caches CBlock : Type} (E : RewindEnv Caches CBlock).

(** One pass of the loop. *)
Lemma rollBackLoop_unfold target cur active st :
  rollBackLoop E target cur active st
  = if CBlockIndex_eqb active target then (Return tt, st)
    else if interruption_requested E (passes st) then (Throw thread_interrupted, st)
    else
      let st := record (RwReadBlock active) st in
      match ReadBlockFromDisk E active with
      | None =>
          (Throw (JSONRPCError RPC_INTERNAL_ERROR
                    (String.append "Failed to read " (index_ToString E active))), st)
      | Some block =>
          if to_size_t (DynamicMemoryUsage E (caches st) + cur) >? nCoinCacheUsage E
          then (Throw (JSONRPCError RPC_INTERNAL_ERROR
                         "Out of memory, you may want to increase dbcache size"), st)
          else if ShutdownRequested E (passes st)
          then (Throw (JSONRPCError RPC_INTERNAL_ERROR "Shutdown requested"), st)
          else
            let '(result, caches') := DisconnectBlock E block active (caches st) in
            let st := mkRewindState caches' (S (passes st))
                        (rewind_trace st ++ [RwDisconnect active]) in
            if negb (is_DISCONNECT_OK result)
            then (Throw (JSONRPCError RPC_INTERNAL_ERROR
                           (String.append "Failed to disconnect " (block_ToString E block))), st)
            else
              match index_pprev active with
              | Some prev => rollBackLoop E target cur prev st
              | None => (Return tt, st)
              end
      end.
Proof. destruct active as [h z [p|]]; reflexivity. Qed.

(** The loop never raises the error of the depth check. *)
Lemma rollBackLoop_not_tooDeep target cur :
  forall active st, fst (rollBackLoop E target cur active st) <> Throw tooDeep.
Proof.
  fix IH 1. intros active st. rewrite rollBackLoop_unfold.
  destruct (CBlockIndex_eqb active target); [done|].
  destruct (interruption_requested E (passes st)); [done|].
  cbv zeta. destruct (ReadBlockFromDisk E active) as [block|]; [|done].
  destruct (_ >? _); [done|].
  destruct (ShutdownRequested E _); [done|].
  destruct (DisconnectBlock E block active _) as [result caches'].
  destruct (negb (is_DISCONNECT_OK result)); [done|].
  destruct active as [h z [p|]]; simpl; [apply IH|done].
Qed.

(** On a node where nothing stops a pass, the loop walks down to the
    target: one read and one disconnect per block. *)
Lemma rollBackLoop_unhindered target cur k :
  unhindered E -> cur = pcoinsTip_DynamicMemoryUsage E ->
  forall active st,
    ancestor_at k active = Some target -> heights_linked k active = true ->
    rollBackLoop E target cur active st
    = (Return tt,
       mkRewindState
         (caches (snd (rollBackLoop E target cur active st)))
         (passes st + k)
         (rewind_trace st ++ rewindSteps k active)).
Proof.
  intros (Hint & Hshut & Hmem & Hread & Hdisc) ->.
  induction k as [|k IH]; intros active st Ha Hl.
  - simpl in Ha. simplify_eq. rewrite rollBackLoop_unfold, CBlockIndex_eqb_refl.
    simpl. rewrite Nat.add_0_r, app_nil_r. by destruct st.
  - pose proof (ancestor_height _ _ _ Ha Hl) as Hh.
    simpl in Ha, Hl. destruct (index_pprev active) as [p|] eqn:Hp; [|done].
    apply andb_true_iff in Hl as [_ Hl].
    rewrite rollBackLoop_unfold.
    destruct (CBlockIndex_eqb active target) eqn:Heq.
    { apply CBlockIndex_eqb_height in Heq. lia. }
    rewrite Hint. cbv zeta.
    destruct (ReadBlockFromDisk E active) as [block|] eqn:Hb;
      [|by destruct (Hread active)].
    cbn [caches passes record].
    destruct (Z.gtb_spec
                (to_size_t (DynamicMemoryUsage E (caches st)
                            + pcoinsTip_DynamicMemoryUsage E))
                (nCoinCacheUsage E)) as [Hgt|_].
    { specialize (Hmem (caches st)). lia. }
    rewrite Hshut.
    pose proof (Hdisc block active (caches st)) as Hok.
    destruct (DisconnectBlock E block active (caches st)) as [result caches'].
    simpl in Hok. subst result. cbn [is_DISCONNECT_OK negb]. rewrite Hp.
    rewrite (IH p _ Ha Hl). cbn [snd caches passes rewind_trace rewindSteps].
    rewrite Hp. f_equal. f_equal; [lia|].
    unfold record. cbn [rewind_trace]. by rewrite <- !app_assoc.
Qed.
End RewindFacts.

Section RewindTrace.
Context {Caches CBlock : Type} (E : RewindEnv Caches CBlock).

(** The loop only adds to the trace. *)
Lemma rollBackLoop_trace_extends target cur :
  forall active st,
    exists evs, rewind_trace (snd (rollBackLoop E target cur active st))
                = rewind_trace st ++ evs.
Proof.
  fix IH 1. intros active st. rewrite rollBackLoop_unfold.
  destruct (CBlockIndex_eqb active target); [by exists []; rewrite app_nil_r|].
  destruct (interruption_requested E (passes st));
    [by exists []; rewrite app_nil_r|].
  cbv zeta. destruct (ReadBlockFromDisk E active) as [block|]; [|by eexists].
  destruct (_ >? _); [by eexists|].
  destruct (ShutdownRequested E _); [by eexists|].
  destruct (DisconnectBlock E block active _) as [result caches'].
  destruct (negb (is_DISCONNECT_OK result)).
  { exists [RwReadBlock active; RwDisconnect active]. simpl.
    by rewrite <- app_assoc. }
  destruct active as [h z [p|]]; cbn [index_pprev].
  - destruct (IH p (mkRewindState caches' (S (passes (record (RwReadBlock (BlockIndex h z (Some p))) st)))
                      (rewind_trace (record (RwReadBlock (BlockIndex h z (Some p))) st)
                         ++ [RwDisconnect (BlockIndex h z (Some p))]))) as [evs Hevs].
    rewrite Hevs. cbn [rewind_trace record].
    eexists. by rewrite <- !app_assoc.
  - eexists. cbn [snd rewind_trace record]. by rewrite <- app_assoc.
Qed.

(** The first pass on an index other than the target reads its block. *)
Lemma rollBackLoop_reads_first target cur active st :
  CBlockIndex_eqb active target = false ->
  interruption_requested E (passes st) = false ->
  exists evs, rewind_trace (snd (rollBackLoop E target cur active st))
              = rewind_trace st ++ RwReadBlock active :: evs.
Proof.
  intros Hne Hint. rewrite rollBackLoop_unfold, Hne, Hint. cbv zeta.
  destruct (ReadBlockFromDisk E active) as [block|]; [|by exists []].
  destruct (_ >? _); [by exists []|].
  destruct (ShutdownRequested E _); [by exists []|].
  destruct (DisconnectBlock E block active _) as [result caches'].
  destruct (negb (is_DISCONNECT_OK result)).
  { exists [RwDisconnect active]. simpl. by rewrite <- app_assoc. }
  destruct (index_pprev active) as [p|].
  - destruct (rollBackLoop_trace_extends target cur p
                (mkRewindState caches' (S (passes (record (RwReadBlock active) st)))
                   (rewind_trace (record (RwReadBlock active) st)
                      ++ [RwDisconnect active]))) as [evs Hevs].
    rewrite Hevs. cbn [rewind_trace record].
    exists (RwDisconnect active :: evs). by rewrite <- !app_assoc.
  - exists [RwDisconnect active]. cbn [snd rewind_trace record].
    by rewrite <- app_assoc.
Qed.
End RewindTrace.

(** C3 (as amended).  When the tip is more than 500 blocks above the
    target, [RollBackTo] fails with the too-deep error with an empty
    trace: no block is read and no block is disconnected.  When the tip is
    exactly 500 blocks above the target the depth check passes: the
    too-deep error is not raised and, unless an interruption is pending,
    the loop starts by reading the tip's block.  Every pass can still be
    stopped by the interruption and shutdown polls, by the memory budget,
    by a block that cannot be read and by a disconnect that fails; on a
    node where none of these stops a pass the rewind succeeds after
    exactly 500 passes, each reading and disconnecting one block. *)
Theorem RollBackTo_depth_bound
        {Caches CBlock : Type} (E : RewindEnv Caches CBlock)
        (tip target : CBlockIndex) (working : Caches) :
  (index_nHeight tip - index_nHeight target > MAX_RPC_BLOCK_DECREMENTS ->
   RollBackTo E tip target working = (Throw tooDeep, mkRewindState working O []))
  /\ (index_nHeight tip - index_nHeight target = MAX_RPC_BLOCK_DECREMENTS ->
      fst (RollBackTo E tip target working) <> Throw tooDeep
      /\ (interruption_requested E O = false ->
          exists evs, rewind_trace (snd (RollBackTo E tip target working))
                      = RwReadBlock tip :: evs)
      /\ (unhindered E ->
          ancestor_at 500 tip = Some target -> heights_linked 500 tip = true ->
          (exists final,
              RollBackTo E tip target working
              = (Return tt,
                 mkRewindState final 500 (rewindSteps 500 tip ++ [RwGetMerkleHash])))
          /\ length (List.filter is_disconnect (rewindSteps 500 tip)) = 500%nat)).
Proof.
  unfold RollBackTo, MAX_RPC_BLOCK_DECREMENTS. split.
  - intros Hdeep.
    destruct (Z.gtb_spec (index_nHeight tip) (index_nHeight target + 500)); [done|lia].
  - intros Hexact.
    destruct (Z.gtb_spec (index_nHeight tip) (index_nHeight target + 500)); [lia|].
    set (st0 := mkRewindState working O []).
    split; [|split].
    + pose proof (rollBackLoop_not_tooDeep E target
                    (pcoinsTip_DynamicMemoryUsage E) tip st0) as Hnot.
      destruct (rollBackLoop E target _ tip st0) as [[[]|e] st]; [done|].
      exact Hnot.
    + intros Hint.
      destruct (rollBackLoop_reads_first E target (pcoinsTip_DynamicMemoryUsage E)
                  tip st0) as [evs Hevs]; [|done|].
      { destruct (CBlockIndex_eqb tip target) eqn:Heq; [|done].
        apply CBlockIndex_eqb_height in Heq. lia. }
      destruct (rollBackLoop E target _ tip st0) as [[[]|e] st];
        cbn [snd rewind_trace] in *; rewrite Hevs; simpl; by eexists.
    + intros Hun Ha Hl.
      rewrite (rollBackLoop_unhindered E target _ 500 Hun eq_refl tip st0 Ha Hl).
      split; [by eexists|]. by apply (rewindSteps_disconnects 500 tip target).
Qed.

Lemma RollBackTo_depth_bound_witness :
  RollBackTo sampleNode (sampleChain 501) (sampleChain 0) O
  = (Throw tooDeep, mkRewindState O O [])
  /\ (exists final,
         RollBackTo sampleNode (sampleChain 500) (sampleChain 0) O
         = (Return tt,
            mkRewindState final 500
              (rewindSteps 500 (sampleChain 500) ++ [RwGetMerkleHash])))
  /\ length (List.filter is_disconnect (rewindSteps 500 (sampleChain 500))) = 500%nat.
Proof.
  split.
  - apply (RollBackTo_depth_bound sampleNode (sampleChain 501) (sampleChain 0) O).
    vm_compute. reflexivity.
  - apply (RollBackTo_depth_bound sampleNode (sampleChain 500) (sampleChain 0) O).
    + vm_compute. reflexivity.
    + repeat split; done.
    + vm_compute. reflexivity.
    + vm_compute. reflexivity.
Defined.

(** C3 as stated fails: with the tip exactly 500 blocks above the target,
    the memory budget respected and neither interruption nor shutdown
    requested, a block that cannot be read stops the rewind before any
    disconnect step. *)
Lemma rewind_of_500_blocks_stops_at_unreadable_block :
  index_nHeight (sampleChain 500) - index_nHeight (sampleChain 0)
  = MAX_RPC_BLOCK_DECREMENTS
  /\ (forall k, interruption_requested unreadableNode k = false)
  /\ (forall k, ShutdownRequested unreadableNode k = false)
  /\ (forall c, to_size_t (DynamicMemoryUsage unreadableNode c
                           + pcoinsTip_DynamicMemoryUsage unreadableNode)
                <= nCoinCacheUsage unreadableNode)
  /\ RollBackTo unreadableNode (sampleChain 500) (sampleChain 0) O
     = (Throw (JSONRPCError RPC_INTERNAL_ERROR "Failed to read index"),
        mkRewindState O O [RwReadBlock (sampleChain 500)])
  /\ List.filter is_disconnect
       (rewind_trace (snd (RollBackTo unreadableNode (sampleChain 500)
                                      (sampleChain 0) O))) = [].
Proof.
  split; [vm_compute; reflexivity|].
  split; [done|]. split; [done|].
  split; [intros c; vm_compute; discriminate|].
  split; vm_compute; reflexivity.
Qed.

(** ** Bid positions *)

Lemma bind_ret {A B} (a : A) (f : A -> Rpc B) : bind (ret a) f = f a.
Proof. unfold bind, ret. by destruct (f a). Qed.

Lemma elem_of_seqSort_ids cs c :
  c ∈ cs -> claimId (claim c) ∈ map (fun c => claimId (claim c)) (seqSort cs).
Proof.
  intros Hc. apply list_elem_of_fmap. exists c. split; [done|].
  by rewrite seqSort_Permutation.
Qed.

Section BidOrder.
Context (X : Collaborators).

(** What a single-claim answer holds. *)
Lemma claimAnswer_returns db coinsCache csToName cns bid seq :
  exists result,
    outcome (claimAnswer X db coinsCache csToName cns bid seq (VOBJ [])) = Return result
    /\ find_value result T_BID = Some (VNUM bid)
    /\ find_value result T_SEQUENCE = Some (VNUM seq)
    /\ find_value result T_CLAIMID = Some (VSTR (GetHex (claimId (claim cns)))).
Proof.
  unfold claimAnswer.
  destruct (claimAndSupportsToJSON_returns X db coinsCache cns)
    as (o & Ho & Hobj & Hid & _ & _ & Hbid & Hseq).
  rewrite (bind_returns _ _ _ Ho). cbn [outcome snd ret].
  eexists. split; [reflexivity|].
  repeat split;
    repeat (rewrite find_value_pushKV
              by (by rewrite ?isObject_pushKV, ?isObject_pushKVs));
    simpl Key_eqb; cbv iota; try done.
  rewrite find_value_pushKVs by done. simpl. done.
Qed.

(** The loop of [getclaimsforname] renders the claims it is given one by
    one, in their order, numbering them from [i]. *)
Lemma claimObjs_from_returns db coinsCache seqOrder :
  forall rest i acc,
    (forall c, c ∈ rest ->
               claimId (claim c) ∈ map (fun c => claimId (claim c)) seqOrder) ->
    exists objs,
      outcome (claimObjs_from X db coinsCache seqOrder i rest (VARR acc))
      = Return (VARR (acc ++ objs))
      /\ length objs = length rest
      /\ forall j c,
          rest !! j = Some c ->
          exists o, objs !! j = Some o
                    /\ find_value o T_BID = Some (VNUM (to_int (Z.of_nat (i + j))))
                    /\ find_value o T_CLAIMID
                       = Some (VSTR (GetHex (claimId (claim c)))).
Proof.
  induction rest as [|c rest IH]; intros i acc Hin.
  - exists []. rewrite app_nil_r. repeat split. intros j c Hj. done.
  - cbn [claimObjs_from].
    destruct (claimAndSupportsToJSON_returns X db coinsCache c)
      as (o & Ho & Hobj & Hid & _ & _ & Hbid & Hseq).
    rewrite (bind_returns _ _ _ Ho). cbn [outcome snd].
    destruct (indexOf_present seqOrder (claimId (claim c))) as (p & c' & Hp & _).
    { apply Hin. left. }
    rewrite Hp, (bind_returns (ret p) _ p eq_refl). cbn [outcome snd push_back].
    destruct (IH (S i)
                (acc ++ [pushKV (pushKV o T_BID (VNUM (to_int (Z.of_nat i))))
                                T_SEQUENCE (VNUM (to_int (Z.of_nat p)))]))
      as (objs & Hobjs & Hlen & Hnth).
    { intros c0 Hc0. apply Hin. by right. }
    eexists (_ :: objs). rewrite Hobjs, <- app_assoc. split; [done|].
    split; [simpl; by rewrite Hlen|].
    intros [|j] c0 Hj; simplify_eq/=.
    + eexists. split; [done|].
      repeat (rewrite find_value_pushKV by (by rewrite ?isObject_pushKV)).
      simpl Key_eqb. cbv iota. by rewrite Nat.add_0_r.
    + destruct (Hnth j c0 Hj) as (o' & Ho' & Hb' & Hi').
      exists o'. repeat split; try done.
      by replace (i + S j)%nat with (S i + j)%nat by lia.
Qed.

(** The answer for a claim of the name: the bid reported is a position of
    the registry's list that holds a claim with the reported identifier. *)
Lemma positions_answer db coinsCache csToName c :
  c ∈ claimsNsupports csToName ->
  exists result p c',
    outcome (bind (seq_and_bid (claimsNsupports csToName) (claimId (claim c)))
               (fun pos =>
                  claimAnswer X db coinsCache csToName c
                              (to_int (Z.of_nat (snd pos)))
                              (to_int (Z.of_nat (fst pos))) (VOBJ [])))
    = Return result
    /\ find_value result T_BID = Some (VNUM (to_int (Z.of_nat p)))
    /\ claimsNsupports csToName !! p = Some c'
    /\ claimId (claim c') = claimId (claim c)
    /\ find_value result T_CLAIMID = Some (VSTR (GetHex (claimId (claim c)))).
Proof.
  intros Hc. unfold seq_and_bid.
  destruct (1 <? length (claimsNsupports csToName))%nat eqn:Hlen.
  - destruct (indexOf_present (seqSort (claimsNsupports csToName))
                              (claimId (claim c))) as (q & _ & Hq & _).
    { by apply elem_of_seqSort_ids. }
    destruct (indexOf_present (claimsNsupports csToName) (claimId (claim c)))
      as (p & c' & Hp & Hc' & Hid).
    { apply list_elem_of_fmap. by exists c. }
    rewrite Hq, Hp, !bind_ret. cbn [fst snd].
    destruct (claimAnswer_returns db coinsCache csToName c
                (to_int (Z.of_nat p)) (to_int (Z.of_nat q)))
      as (result & Hres & Hb & _ & Hi).
    by exists result, p, c'.
  - rewrite bind_ret. cbn [fst snd].
    destruct (claimAnswer_returns db coinsCache csToName c
                (to_int (Z.of_nat 0)) (to_int (Z.of_nat 0)))
      as (result & Hres & Hb & _ & Hi).
    exists result, O, c. repeat split; try done.
    apply Nat.ltb_ge in Hlen.
    destruct (claimsNsupports csToName) as [|c0 [|c1 rest]]; simpl in Hlen.
    + by apply elem_of_nil in Hc.
    + apply list_elem_of_singleton in Hc. by subst.
    + lia.
Qed.
End BidOrder.


(** C9.  [seqSort] sorts a copy: the list it is given is the same after
    the call.  The operations that report bid positions read the list
    returned by the registry in the order received: [getclaimsforname]
    renders its i-th claim at position i with bid i, [getclaimbybid]
    answers with the claim at the requested position, and
    [getclaimbyseq] reports as bid the position of the selected claim in
    the registry's list; [getclaimbyid] and [getvalueforname], which search
    the name's claims, report as bid a position of the registry's list
    that holds the claim they render. *)
Theorem bid_order_is_never_resorted
        (X : Collaborators) (db : CDBWrapper) (trieCache : CClaimTrieCache)
        (coinsCache : CCoinsViewCache) (name_ : string) :
  let cs := claimsNsupports (getClaimsForName trieCache name_) in
  frame_source (seqSort_frame cs) = cs
  /\ (exists result objs,
         outcome (getclaimsforname X db trieCache coinsCache name_) = Return result
         /\ find_value result T_CLAIMS = Some (VARR objs)
         /\ length objs = length cs
         /\ forall i c,
             cs !! i = Some c ->
             exists o, objs !! i = Some o
                       /\ find_value o T_BID = Some (VNUM (to_int (Z.of_nat i)))
                       /\ find_value o T_CLAIMID
                          = Some (VSTR (GetHex (claimId (claim c)))))
  /\ (forall i c,
         cs !! i = Some c -> Z.of_nat i < 2 ^ 31 ->
         exists result,
           outcome (getclaimbybid X db trieCache coinsCache name_ (Z.of_nat i))
           = Return result
           /\ find_value result T_BID = Some (VNUM (Z.of_nat i))
           /\ find_value result T_CLAIMID = Some (VSTR (GetHex (claimId (claim c)))))
  /\ (forall j c,
         seqSort cs !! j = Some c -> Z.of_nat j < 2 ^ 31 ->
         exists result p c',
           outcome (getclaimbyseq X db trieCache coinsCache name_ (Z.of_nat j))
           = Return result
           /\ find_value result T_BID = Some (VNUM (to_int (Z.of_nat p)))
           /\ cs !! p = Some c'
           /\ claimId (claim c') = claimId (claim c)
           /\ find_value result T_CLAIMID = Some (VSTR (GetHex (claimId (claim c)))))
  /\ (find_contract X ->
      forall claimIdParam result,
        outcome (getvalueforname X db trieCache coinsCache name_ claimIdParam)
        = Return result ->
        result = VOBJ []
        \/ exists p c',
            find_value result T_BID = Some (VNUM (to_int (Z.of_nat p)))
            /\ cs !! p = Some c'
            /\ find_value result T_CLAIMID
               = Some (VSTR (GetHex (claimId (claim c')))))
  /\ (find_contract X ->
      forall param result,
        outcome (getclaimbyid X db trieCache coinsCache param) = Return result ->
        result = VOBJ []
        \/ exists owner p c',
            find_value result T_BID = Some (VNUM (to_int (Z.of_nat p)))
            /\ claimsNsupports (getClaimsForName trieCache owner) !! p = Some c'
            /\ find_value result T_CLAIMID
               = Some (VSTR (GetHex (claimId (claim c'))))).
Proof.
  intros cs. split; [reflexivity|]. split; [|split; [|split; [|split]]].
  - unfold getclaimsforname. rewrite bind_emit. fold cs.
    destruct (claimObjs_from_returns X db coinsCache (seqSort cs) cs O [])
      as (objs & Hobjs & Hlen & Hnth).
    { intros c. apply elem_of_seqSort_ids. }
    cbn [outcome snd]. rewrite (bind_returns _ _ _ Hobjs). cbn [outcome snd ret app].
    eexists _, objs. split; [reflexivity|]. split; [|split; [done|]].
    + repeat (rewrite find_value_pushKV by (by rewrite ?isObject_pushKV)).
      done.
    + intros i c Hi. destruct (Hnth i c Hi) as (o & Ho & Hb & Hid). by exists o.
  - intros i c Hi Hint.
    pose proof (lookup_lt_Some _ _ _ Hi) as Hlt.
    unfold getclaimbybid. destruct (Z.ltb_spec (Z.of_nat i) 0); [lia|].
    rewrite bind_emit. fold cs. rewrite to_uint32_int by lia.
    destruct (Z.leb_spec (Z.of_nat (length cs)) (Z.of_nat i)); [lia|].
    rewrite Nat2Z.id, Hi. cbn [outcome snd].
    assert (exists seq, (if (1 <? length cs)%nat
                         then indexOf (seqSort cs) (claimId (claim c))
                         else ret O) = ret seq) as [seq Hseq].
    { destruct (1 <? length cs)%nat; [|by eexists].
      destruct (indexOf_present (seqSort cs) (claimId (claim c)))
        as (p & c' & Hp & _); [|by eexists].
      apply elem_of_seqSort_ids. by eapply list_elem_of_lookup_2. }
    rewrite Hseq, (bind_returns (ret seq) _ seq eq_refl). cbn [outcome snd].
    destruct (claimAnswer_returns X db coinsCache (getClaimsForName trieCache name_)
                c (Z.of_nat i) (to_int (Z.of_nat seq)))
      as (result & Hres & Hb & _ & Hid).
    by exists result.
  - intros j c Hj Hint.
    pose proof (lookup_lt_Some _ _ _ Hj) as Hlt.
    rewrite (Permutation_length (seqSort_Permutation cs)) in Hlt.
    assert (Hc : c ∈ cs).
    { rewrite <- (seqSort_Permutation cs). by eapply list_elem_of_lookup_2. }
    destruct (indexOf_present cs (claimId (claim c))) as (p & c' & Hp & Hc' & Hid').
    { apply list_elem_of_fmap. by exists c. }
    unfold getclaimbyseq. destruct (Z.ltb_spec (Z.of_nat j) 0); [lia|].
    rewrite bind_emit. fold cs. rewrite to_uint32_int by lia.
    destruct (Z.leb_spec (Z.of_nat (length cs)) (Z.of_nat j)); [lia|].
    cbn [outcome snd]. rewrite Nat2Z.id.
    destruct (Nat.eqb_spec (length cs) 1) as [Hone|Hmany].
    + destruct cs as [|c0 [|]] eqn:Hcs; try done.
      assert (j = O) by (simpl in Hlt; lia). subst j.
      simpl in Hj. simplify_eq.
      cbn [lookup list_lookup]. rewrite bind_ret.
      destruct (claimAnswer_returns X db coinsCache (getClaimsForName trieCache name_)
                  c (to_int (Z.of_nat 0)) (Z.of_nat 0))
        as (result & Hres & Hb & _ & Hid).
      exists result, O, c. repeat split; try done.
    + rewrite Hj, Hp, !bind_ret.
      destruct (claimAnswer_returns X db coinsCache (getClaimsForName trieCache name_)
                  c (to_int (Z.of_nat p)) (Z.of_nat j))
        as (result & Hres & Hb & _ & Hid).
      by exists result, p, c'.
  - intros [Hfind Hprefix] claimIdParam result. unfold getvalueforname.
    destruct (match claimIdParam with
              | Some v => ParseClaimtrieId v _
              | None => ret EmptyString
              end) as [evs [claimId_|e]] eqn:Hparse; [|done].
    rewrite (outcome_bind _ _ claimId_) by done.
    rewrite bind_emit. cbn [outcome snd]. subst cs.
    destruct (claimsNsupports (getClaimsForName trieCache name_))
      as [|first rest] eqn:Hcs; [intros [= <-]; by left|].
    rewrite <- Hcs.
    set (cns := if (String.length claimId_ =? claimIdHexLength)%nat then _ else _).
    destruct (CClaimNsupports_IsNull X cns) eqn:Hnull; [intros [= <-]; by left|].
    assert (Hin : cns ∈ claimsNsupports (getClaimsForName trieCache name_)).
    { subst cns. destruct (String.length claimId_ =? claimIdHexLength)%nat.
      - by apply Hfind.
      - destruct (negb (String.eqb claimId_ EmptyString)).
        + by apply Hprefix.
        + rewrite Hcs. left. }
    destruct (positions_answer X db coinsCache _ cns Hin)
      as (res & p & c' & Hres & Hb & Hp & Hid & Hi).
    rewrite Hres. intros [= <-]. right. exists p, c'.
    repeat split; try done. by rewrite Hid.
  - intros [Hfind _] param result. unfold getclaimbyid.
    destruct (getclaimbyid_resolve X db param) as [evs [[[owner cl]|]|e]];
      [| intros [= <-]; by left | done].
    rewrite (outcome_bind (evs, Return (Some (owner, cl))) _ _ eq_refl).
    rewrite bind_emit. cbn [outcome snd].
    destruct (CClaimNsupports_IsNull X
                (find X (getClaimsForName trieCache owner) (claimId cl))) eqn:Hnull;
      cbn [negb]; [intros [= <-]; by left|].
    destruct (Hfind _ _ Hnull) as [Hin Hcl].
    rewrite <- Hcl at 1.
    destruct (positions_answer X db coinsCache _ _ Hin)
      as (res & p & c' & Hres & Hb & Hp & Hid & Hi).
    rewrite Hres. intros [= <-]. right. exists owner, p, c'.
    repeat split; try done. by rewrite Hid.
Qed.

Lemma sample_find_contract : find_contract sampleCollaborators.
Proof.
  split; intros cs x; simpl; unfold findIn;
    destruct (List.find _ (claimsNsupports cs)) as [c|] eqn:Hf; try done;
    intros _; apply List.find_some in Hf as [Hin Hpred].
  - split; [by apply list_elem_of_In|by apply Z.eqb_eq].
  - by apply list_elem_of_In.
Qed.

Lemma bid_order_is_never_resorted_witness :
  (exists result,
      outcome (getclaimbybid sampleCollaborators sampleIndex sampleRegistry
                             spentCoins "name" (Z.of_nat 2)) = Return result
      /\ find_value result T_BID = Some (VNUM (Z.of_nat 2))
      /\ find_value result T_CLAIMID
         = Some (VSTR (GetHex (claimId (claim claimA)))))
  /\ (exists result p c',
         outcome (getvalueforname sampleCollaborators sampleIndex sampleRegistry
                                  spentCoins "name" (Some (VSTR hex_claimC)))
         = Return result
         /\ find_value result T_BID = Some (VNUM (to_int (Z.of_nat p)))
         /\ [claimB; claimC; claimA] !! p = Some c'
         /\ find_value result T_CLAIMID
            = Some (VSTR (GetHex (claimId (claim c'))))).
Proof.
  pose proof (bid_order_is_never_resorted sampleCollaborators sampleIndex
                sampleRegistry spentCoins "name") as (_ & _ & Hbid & _ & Hvalue & _).
  split.
  - refine (Hbid 2%nat claimA eq_refl _). simpl. lia.
  - destruct (Hvalue sample_find_contract (Some (VSTR hex_claimC)) _ eq_refl)
      as [Hempty|(p & c' & Hb & Hp & Hid)].
    + vm_compute in Hempty. discriminate.
    + eexists _, p, c'. split; [reflexivity|]. split; [exact Hb|].
      split; [exact Hp|exact Hid].
Defined.


(** * Further properties *)

(** ** Chain rewind: the shape of every run *)

Lemma ancestors_head i : exists rest, ancestors i = i :: rest.
Proof. destruct i as [h z [p|]]; by eexists. Qed.

Lemma ancestors_pprev i p :
  index_pprev i = Some p -> ancestors i = i :: ancestors p.
Proof. destruct i as [h z [q|]]; simpl; [by intros [= ->]|done]. Qed.

Lemma ancestors_last i :
  index_pprev i = None -> ancestors i = [i].
Proof. by destruct i as [h z [q|]]. Qed.

Lemma passesOver_cons i done :
  passesOver (i :: done) = RwReadBlock i :: RwDisconnect i :: passesOver done.
Proof. reflexivity. Qed.

Lemma passesOver_no_merkle done : RwGetMerkleHash ∉ passesOver done.
Proof.
  induction done as [|i done IH]; [apply not_elem_of_nil|].
  rewrite passesOver_cons. intros Hin.
  apply elem_of_cons in Hin as [?|Hin]; [done|].
  apply elem_of_cons in Hin as [?|Hin]; [done|]. done.
Qed.

Lemma passesOver_disconnects done :
  List.filter is_disconnect (passesOver done) = map RwDisconnect done.
Proof.
  induction done as [|i done IH]; [done|].
  rewrite passesOver_cons. simpl. by rewrite IH.
Qed.

Section RewindShape.
Context {Caches CBlock : Type} (E : RewindEnv Caches CBlock).

(** Every run of the loop is a number of complete passes over
    consecutive ancestors, possibly followed by the read of the next
    block of a pass that was stopped. *)
Lemma rollBackLoop_shape target cur :
  forall active st,
    exists done tail,
      rewind_trace (snd (rollBackLoop E target cur active st))
      = rewind_trace st ++ passesOver done ++ tail
      /\ done `prefix_of` ancestors active
      /\ passes (snd (rollBackLoop E target cur active st))
         = (passes st + length done)%nat
      /\ (tail = [] \/ exists i, tail = [RwReadBlock i]
                                 /\ ancestors active !! length done = Some i
                                 /\ exists e, fst (rollBackLoop E target cur active st)
                                              = Throw e).
Proof.
  fix IH 1. intros active st. rewrite rollBackLoop_unfold.
  destruct (CBlockIndex_eqb active target).
  { exists [], []. simpl. rewrite app_nil_r, Nat.add_0_r.
    repeat split; [apply prefix_nil|by left]. }
  destruct (interruption_requested E (passes st)).
  { exists [], []. simpl. rewrite app_nil_r, Nat.add_0_r.
    repeat split; [apply prefix_nil|by left]. }
  cbv zeta.
  assert (Hstop : forall e,
    exists done tail,
      rewind_trace (snd (Throw (A:=unit) e, record (RwReadBlock active) st))
      = rewind_trace st ++ passesOver done ++ tail
      /\ done `prefix_of` ancestors active
      /\ passes (snd (Throw (A:=unit) e, record (RwReadBlock active) st))
         = (passes st + length done)%nat
      /\ (tail = [] \/ exists i, tail = [RwReadBlock i]
                                 /\ ancestors active !! length done = Some i
                                 /\ exists e', fst (Throw (A:=unit) e,
                                                    record (RwReadBlock active) st)
                                               = Throw e')).
  { intros e. exists [], [RwReadBlock active]. simpl. rewrite Nat.add_0_r.
    repeat split; [apply prefix_nil|]. right. exists active.
    destruct (ancestors_head active) as [rest ->]. by eauto. }
  destruct (ReadBlockFromDisk E active) as [block|]; [|apply Hstop].
  destruct (_ >? _); [apply Hstop|].
  destruct (ShutdownRequested E _); [apply Hstop|].
  clear Hstop.
  destruct (DisconnectBlock E block active _) as [result caches'].
  destruct (negb (is_DISCONNECT_OK result)).
  { exists [active], []. cbn [snd fst rewind_trace passes record length].
    rewrite passesOver_cons. simpl. rewrite <- app_assoc.
    repeat split; [|lia|by left].
    destruct (ancestors_head active) as [rest ->].
    apply prefix_cons, prefix_nil. }
  destruct (index_pprev active) as [p|] eqn:Hp.
  - destruct (IH p (mkRewindState caches'
                      (Datatypes.S (passes (record (RwReadBlock active) st)))
                      (rewind_trace (record (RwReadBlock active) st)
                         ++ [RwDisconnect active])))
      as (done & tail & Htr & Hpre & Hpass & Htail).
    exists (active :: done), tail. rewrite Htr, Hpass.
    cbn [rewind_trace passes record length]. rewrite passesOver_cons.
    rewrite (ancestors_pprev _ _ Hp). repeat split.
    + by rewrite <- !app_assoc.
    + by apply prefix_cons.
    + lia.
    + destruct Htail as [->|(i & -> & Hi & He)]; [by left|].
      right. exists i. by eauto.
  - exists [active], []. cbn [snd fst rewind_trace passes record length].
    rewrite passesOver_cons, (ancestors_last _ Hp). simpl.
    rewrite <- app_assoc. split; [done|]. split; [done|].
    split; [lia|by left].
Qed.

(** The loop never asks for the root hash. *)
Lemma rollBackLoop_no_merkle target cur active st :
  RwGetMerkleHash ∉ rewind_trace st ->
  RwGetMerkleHash ∉ rewind_trace (snd (rollBackLoop E target cur active st)).
Proof.
  intros Hst.
  destruct (rollBackLoop_shape target cur active st)
    as (done & tail & -> & _ & _ & Htail).
  rewrite !elem_of_app. intros [?|[Hin|Hin]]; [done| |].
  - by apply passesOver_no_merkle in Hin.
  - destruct Htail as [->|(i & -> & _)].
    + by apply elem_of_nil in Hin.
    + apply list_elem_of_singleton in Hin. done.
Qed.
End RewindShape.

(** X1.  Whatever the node does, a rewind is a run of complete passes
    over consecutive ancestors of the tip, from the tip downwards, each
    pass reading a block and then disconnecting that same block; the run
    ends there, or with the root hash being computed, or with the read of
    the next ancestor in a pass that was stopped.  No block is
    disconnected that was not read just before, none is skipped, and the
    number of passes counted is the number of blocks disconnected. *)
Theorem RollBackTo_disconnects_in_chain_order
        {Caches CBlock : Type} (E : RewindEnv Caches CBlock)
        (tip target : CBlockIndex) (working : Caches) :
  exists done tail,
    rewind_trace (snd (RollBackTo E tip target working)) = passesOver done ++ tail
    /\ done `prefix_of` ancestors tip
    /\ passes (snd (RollBackTo E tip target working)) = length done
    /\ List.filter is_disconnect (rewind_trace (snd (RollBackTo E tip target working)))
       = map RwDisconnect done
    /\ (tail = [] \/ tail = [RwGetMerkleHash]
        \/ exists i, tail = [RwReadBlock i]
                     /\ ancestors tip !! length done = Some i).
Proof.
  unfold RollBackTo.
  destruct (index_nHeight tip >? index_nHeight target + MAX_RPC_BLOCK_DECREMENTS).
  { exists [], []. simpl. repeat split; [apply prefix_nil|by left]. }
  destruct (rollBackLoop_shape E target (pcoinsTip_DynamicMemoryUsage E) tip
              (mkRewindState working O []))
    as (done & tail & Htr & Hpre & Hpass & Htail).
  destruct (rollBackLoop E target _ tip _) as [[[]|e] st];
    cbn [fst snd rewind_trace passes] in *.
  - destruct Htail as [->|(i & _ & _ & e & He)]; [|done].
    exists done, [RwGetMerkleHash]. rewrite Htr, app_nil_r. simpl.
    split; [done|]. split; [done|]. split; [done|]. split; [|by right; left].
    by rewrite List.filter_app, passesOver_disconnects, app_nil_r.
  - exists done, tail. rewrite Htr. simpl.
    split; [done|]. split; [done|]. split; [done|]. split.
    + rewrite List.filter_app, passesOver_disconnects.
      destruct Htail as [->|(i & -> & _)]; simpl; by rewrite app_nil_r.
    + destruct Htail as [->|(i & -> & Hi & _)]; [by left|].
      right; right. by exists i.
Qed.

(** X2.  The root hash of the registry cache is computed exactly when
    the rewind succeeds, and then as its last step: a rewind that fails
    never asks for it. *)
Theorem RollBackTo_root_hash_iff_success
        {Caches CBlock : Type} (E : RewindEnv Caches CBlock)
        (tip target : CBlockIndex) (working : Caches) :
  (fst (RollBackTo E tip target working) = Return tt
   <-> RwGetMerkleHash ∈ rewind_trace (snd (RollBackTo E tip target working)))
  /\ (fst (RollBackTo E tip target working) = Return tt ->
      exists before,
        rewind_trace (snd (RollBackTo E tip target working))
        = before ++ [RwGetMerkleHash]
        /\ RwGetMerkleHash ∉ before).
Proof.
  unfold RollBackTo.
  destruct (index_nHeight tip >? index_nHeight target + MAX_RPC_BLOCK_DECREMENTS).
  { simpl. split; [split; [done|]|done]. intros H. by apply elem_of_nil in H. }
  pose proof (rollBackLoop_no_merkle E target (pcoinsTip_DynamicMemoryUsage E) tip
                (mkRewindState working O []) (not_elem_of_nil _)) as Hno.
  destruct (rollBackLoop E target _ tip _) as [[[]|e] st];
    cbn [fst snd rewind_trace] in *.
  - split; [split; [|done]|].
    + intros _. apply elem_of_app. right. left.
    + intros _. by exists (rewind_trace st).
  - split; [split; [done|]|done]. intros Hin. by destruct Hno.
Qed.

Lemma RollBackTo_root_hash_iff_success_witness :
  exists before,
    rewind_trace (snd (RollBackTo sampleNode (sampleChain 3) (sampleChain 1) O))
    = before ++ [RwGetMerkleHash]
    /\ RwGetMerkleHash ∉ before.
Proof.
  apply (RollBackTo_root_hash_iff_success sampleNode (sampleChain 3)
           (sampleChain 1) O).
  reflexivity.
Defined.

(** X3.  Rewinding to the tip itself succeeds on every node, also one
    that is shutting down or cannot read its blocks: nothing is polled,
    read or disconnected, only the root hash is computed. *)
Theorem RollBackTo_tip_is_immediate
        {Caches CBlock : Type} (E : RewindEnv Caches CBlock)
        (tip : CBlockIndex) (working : Caches) :
  RollBackTo E tip tip working
  = (Return tt, mkRewindState (getMerkleHash E working) O [RwGetMerkleHash]).
Proof.
  unfold RollBackTo, MAX_RPC_BLOCK_DECREMENTS.
  destruct (Z.gtb_spec (index_nHeight tip) (index_nHeight tip + 500)); [lia|].
  by rewrite rollBackLoop_unfold, CBlockIndex_eqb_refl.
Qed.

(** X4.  On a node where nothing stops a pass, rewinding to an ancestor
    k blocks below the tip, k at most 500, succeeds after exactly k
    passes, reading and disconnecting the tip and the k - 1 blocks below
    it and leaving the target connected. *)
Theorem RollBackTo_reaches_ancestor
        {Caches CBlock : Type} (E : RewindEnv Caches CBlock)
        (tip target : CBlockIndex) (working : Caches) (k : nat)
        (Hk : Z.of_nat k <= MAX_RPC_BLOCK_DECREMENTS)
        (Hun : unhindered E)
        (Hanc : ancestor_at k tip = Some target)
        (Hlinked : heights_linked k tip = true) :
  (exists final,
      RollBackTo E tip target working
      = (Return tt, mkRewindState final k (rewindSteps k tip ++ [RwGetMerkleHash])))
  /\ rewindSteps k tip = passesOver (take k (ancestors tip))
  /\ ancestors tip !! k = Some target.
Proof.
  split; [|split].
  - unfold RollBackTo.
    pose proof (ancestor_height _ _ _ Hanc Hlinked) as Hh.
    destruct (Z.gtb_spec (index_nHeight tip)
                (index_nHeight target + MAX_RPC_BLOCK_DECREMENTS)); [lia|].
    rewrite (rollBackLoop_unhindered E target _ k Hun eq_refl tip _ Hanc Hlinked).
    by eexists.
  - clear Hk Hlinked. revert tip Hanc.
    induction k as [|k IH]; intros tip Hanc; simpl in *.
    + by destruct tip as [h z [p|]].
    + destruct (index_pprev tip) as [p|] eqn:Hp; [|done].
      rewrite (ancestors_pprev _ _ Hp). simpl.
      rewrite passesOver_cons. by rewrite (IH p Hanc).
  - clear Hk Hlinked. revert tip Hanc.
    induction k as [|k IH]; intros tip Hanc; simpl in *.
    + simplify_eq. by destruct target as [h z [p|]].
    + destruct (index_pprev tip) as [p|] eqn:Hp; [|done].
      rewrite (ancestors_pprev _ _ Hp). simpl. by apply IH.
Qed.

Lemma RollBackTo_reaches_ancestor_witness :
  exists final,
    RollBackTo sampleNode (sampleChain 7) (sampleChain 4) O
    = (Return tt,
       mkRewindState final 3 (rewindSteps 3 (sampleChain 7) ++ [RwGetMerkleHash])).
Proof.
  apply (RollBackTo_reaches_ancestor sampleNode (sampleChain 7) (sampleChain 4) O 3).
  - unfold MAX_RPC_BLOCK_DECREMENTS. lia.
  - repeat split; done.
  - reflexivity.
  - reflexivity.
Defined.

Section RewindOffChain.
Context {Caches CBlock : Type} (E : RewindEnv Caches CBlock).

(** On a node where nothing stops a pass, the loop that never meets its
    target walks down to the index without [pprev]. *)
Lemma rollBackLoop_to_genesis target :
  unhindered E ->
  forall active st,
    Forall (fun a => CBlockIndex_eqb a target = false) (ancestors active) ->
    exists final,
      rollBackLoop E target (pcoinsTip_DynamicMemoryUsage E) active st
      = (Return tt,
         mkRewindState final (passes st + length (ancestors active))
                       (rewind_trace st ++ passesOver (ancestors active))).
Proof.
  intros (Hint & Hshut & Hmem & Hread & Hdisc).
  fix IH 1. intros active st Hall. rewrite rollBackLoop_unfold.
  destruct (ancestors_head active) as [rest Hrest].
  assert (Hne : CBlockIndex_eqb active target = false).
  { rewrite Hrest in Hall. by apply Forall_cons in Hall as [? _]. }
  rewrite Hne, Hint. cbv zeta.
  destruct (ReadBlockFromDisk E active) as [block|] eqn:Hb;
    [|by destruct (Hread active)].
  cbn [caches passes record].
  destruct (Z.gtb_spec
              (to_size_t (DynamicMemoryUsage E (caches st)
                          + pcoinsTip_DynamicMemoryUsage E))
              (nCoinCacheUsage E)) as [Hgt|_].
  { specialize (Hmem (caches st)). lia. }
  rewrite Hshut.
  pose proof (Hdisc block active (caches st)) as Hok.
  destruct (DisconnectBlock E block active (caches st)) as [result caches'].
  simpl in Hok. subst result. cbn [is_DISCONNECT_OK negb].
  destruct (index_pprev active) as [p|] eqn:Hp.
  - rewrite (ancestors_pprev _ _ Hp) in Hall |- *.
    apply Forall_cons in Hall as [_ Hall].
    destruct (IH p (mkRewindState caches' (Datatypes.S (passes st))
                      (rewind_trace (record (RwReadBlock active) st)
                         ++ [RwDisconnect active])) Hall) as [final ->].
    exists final. cbn [passes rewind_trace record length].
    rewrite passesOver_cons. f_equal. f_equal; [lia|].
    by rewrite <- !app_assoc.
  - rewrite (ancestors_last _ Hp). exists caches'.
    cbn [passes rewind_trace record length]. rewrite passesOver_cons.
    f_equal. f_equal; [lia|]. by rewrite <- !app_assoc.
Qed.

(** The working caches change with a disconnect only. *)
Lemma rollBackLoop_caches target cur :
  forall active st,
    (passes st <= passes (snd (rollBackLoop E target cur active st)))%nat
    /\ (passes (snd (rollBackLoop E target cur active st)) = passes st ->
        caches (snd (rollBackLoop E target cur active st)) = caches st).
Proof.
  fix IH 1. intros active st. rewrite rollBackLoop_unfold.
  destruct (CBlockIndex_eqb active target); [done|].
  destruct (interruption_requested E (passes st)); [done|].
  cbv zeta. destruct (ReadBlockFromDisk E active) as [block|]; [|done].
  destruct (_ >? _); [done|].
  destruct (ShutdownRequested E _); [done|].
  destruct (DisconnectBlock E block active _) as [result caches'].
  destruct (negb (is_DISCONNECT_OK result)).
  { cbn [snd passes record]. split; [lia|]. intros H. lia. }
  destruct active as [h z [p|]]; cbn [index_pprev].
  - set (st2 := mkRewindState caches' _ _).
    destruct (IH p st2) as [Hle _].
    assert (Hst2 : passes st2 = Datatypes.S (passes st)) by reflexivity.
    split; [lia|]. intros H. lia.
  - cbn [snd passes record]. split; [lia|]. intros H. lia.
Qed.
End RewindOffChain.

(** X5.  The loop stops at the target only by meeting it.  On a node
    where nothing stops a pass, a target that passes the depth check but
    is not the tip or one of its ancestors makes the rewind disconnect
    every block of the chain, down to and including the first, and report
    success. *)
Theorem RollBackTo_off_chain_target_unwinds_everything
        {Caches CBlock : Type} (E : RewindEnv Caches CBlock)
        (tip target : CBlockIndex) (working : Caches)
        (Hun : unhindered E)
        (Hdepth : index_nHeight tip <= index_nHeight target + MAX_RPC_BLOCK_DECREMENTS)
        (Hoff : Forall (fun a => CBlockIndex_eqb a target = false) (ancestors tip)) :
  exists final,
    RollBackTo E tip target working
    = (Return tt,
       mkRewindState final (length (ancestors tip))
                     (passesOver (ancestors tip) ++ [RwGetMerkleHash])).
Proof.
  unfold RollBackTo.
  destruct (Z.gtb_spec (index_nHeight tip)
              (index_nHeight target + MAX_RPC_BLOCK_DECREMENTS)); [lia|].
  destruct (rollBackLoop_to_genesis E target Hun tip
              (mkRewindState working O []) Hoff) as [final ->].
  by eexists.
Qed.

Lemma RollBackTo_off_chain_target_unwinds_everything_witness :
  exists final,
    RollBackTo sampleNode (sampleChain 3) forkBlock O
    = (Return tt,
       mkRewindState final 4
         (passesOver [sampleChain 3; sampleChain 2; sampleChain 1; sampleChain 0]
            ++ [RwGetMerkleHash])).
Proof.
  apply (RollBackTo_off_chain_target_unwinds_everything sampleNode
           (sampleChain 3) forkBlock O).
  - repeat split; done.
  - vm_compute. discriminate.
  - repeat constructor.
Defined.

(** X6.  A rewind that ends before its first disconnect (too deep,
    interrupted, tip block unreadable, over the memory budget, shutdown
    requested) leaves the working caches as the handler built them. *)
Theorem RollBackTo_failure_before_disconnect_keeps_caches
        {Caches CBlock : Type} (E : RewindEnv Caches CBlock)
        (tip target : CBlockIndex) (working : Caches) (e : Exception)
        (Hfail : fst (RollBackTo E tip target working) = Throw e)
        (Hnone : passes (snd (RollBackTo E tip target working)) = O) :
  caches (snd (RollBackTo E tip target working)) = working.
Proof.
  revert Hfail Hnone. unfold RollBackTo.
  destruct (index_nHeight tip >? index_nHeight target + MAX_RPC_BLOCK_DECREMENTS);
    [done|].
  destruct (rollBackLoop_caches E target (pcoinsTip_DynamicMemoryUsage E) tip
              (mkRewindState working O [])) as [_ Hsame].
  destruct (rollBackLoop E target _ tip _) as [[[]|e'] st];
    cbn [fst snd passes caches] in *; [done|].
  intros _ Hzero. by apply Hsame.
Qed.

Lemma RollBackTo_failure_before_disconnect_keeps_caches_witness :
  caches (snd (RollBackTo stoppedNode (sampleChain 3) (sampleChain 1) 7%nat))
  = 7%nat.
Proof.
  apply (RollBackTo_failure_before_disconnect_keeps_caches stoppedNode
           (sampleChain 3) (sampleChain 1) 7%nat thread_interrupted);
    reflexivity.
Defined.

(** ** Positions: [indexOf] against lookup *)

Lemma NoDup_fmap_elem_eq {A B} (f : A -> B) (l : list A) x y :
  NoDup (map f l) -> x ∈ l -> y ∈ l -> f x = f y -> x = y.
Proof.
  intros Hnd Hx Hy Hf.
  apply list_elem_of_lookup in Hx as [i Hi].
  apply list_elem_of_lookup in Hy as [j Hj].
  assert (i = j) as ->.
  { eapply (NoDup_lookup (map f l)); [done| |].
    - rewrite list_lookup_fmap, Hi. reflexivity.
    - rewrite list_lookup_fmap, Hj. simpl. by rewrite Hf. }
  congruence.
Qed.

Lemma indexOf_first (order : list CClaimNsupports) (id : uint160) (p : nat) :
  indexOf order id = ret p ->
  (exists c, order !! p = Some c /\ claimId (claim c) = id)
  /\ forall q c, (q < p)%nat -> order !! q = Some c -> claimId (claim c) <> id.
Proof.
  unfold indexOf, indexOf_pos.
  destruct (find_if _ order) as [p'|] eqn:Hf; [|done].
  intros [= ->]. apply find_if_Some in Hf as (c & Hc & Heq & Hfirst).
  split.
  - exists c. split; [done|]. by apply Z.eqb_eq.
  - intros q c' Hq Hc'. specialize (Hfirst q c' Hq Hc'). by apply Z.eqb_neq.
Qed.

Lemma indexOf_lookup (order : list CClaimNsupports) (i : nat) (c : CClaimNsupports) :
  NoDup (claimIds order) -> order !! i = Some c ->
  indexOf order (claimId (claim c)) = ret i.
Proof.
  intros Hnd Hi.
  destruct (indexOf_present order (claimId (claim c))) as (p & c' & Hp & Hc' & Hid).
  { apply list_elem_of_fmap. exists c. split; [done|].
    by eapply list_elem_of_lookup_2. }
  rewrite Hp. f_equal. f_equal.
  eapply (NoDup_lookup (claimIds order)); [done| |].
  - unfold claimIds. rewrite list_lookup_fmap, Hc'. simpl. by rewrite Hid.
  - unfold claimIds. by rewrite list_lookup_fmap, Hi.
Qed.

(** X7.  [indexOf] answers with the first position that holds the
    identifier; when the identifiers of the ordering are pairwise
    distinct it undoes the lookup: the position of the claim found at
    position i is i. *)
Theorem indexOf_is_first_and_inverts_lookup
        (order : list CClaimNsupports) :
  (forall id p,
      indexOf order id = ret p ->
      forall q c, (q < p)%nat -> order !! q = Some c -> claimId (claim c) <> id)
  /\ (NoDup (claimIds order) ->
      forall i c, order !! i = Some c ->
                  indexOf order (claimId (claim c)) = ret i).
Proof.
  split.
  - intros id p Hp. by apply indexOf_first.
  - intros Hnd i c. by apply indexOf_lookup.
Qed.

Lemma indexOf_is_first_and_inverts_lookup_witness :
  indexOf [claimB; claimC; claimA] (claimId (claim claimA)) = ret 2%nat.
Proof.
  refine (proj2 (indexOf_is_first_and_inverts_lookup [claimB; claimC; claimA])
                _ 2%nat claimA eq_refl).
  apply (bool_decide_unpack _). vm_compute. reflexivity.
Defined.

(** ** Sequence order: what the sorting algorithm cannot change *)

Lemma seq_before_antisym_key x y :
  seq_before x y -> seq_before y x -> seq_key x = seq_key y.
Proof. unfold seq_before, seq_key. intros H1 H2. f_equal; lia. Qed.

(** X8.  When no two claims of the list agree on both registration
    height and output index, the sequence order is the only ordered
    rearrangement of the list: whatever [std::sort] does with equivalent
    elements, [seqSort] returns this list.  In particular a list that is
    already in sequence order comes back unchanged. *)
Theorem seqSort_is_the_only_ordered_rearrangement
        (source ordered : list CClaimNsupports)
        (Hkeys : NoDup (map seq_key source))
        (Hperm : ordered ≡ₚ source)
        (Hsorted : StronglySorted seq_before ordered) :
  seqSort source = ordered.
Proof.
  apply (StronglySorted_unique_strong seq_before).
  - intros x y Hx Hy Hxy Hyx.
    rewrite seqSort_Permutation in Hx. rewrite Hperm in Hy.
    eapply (NoDup_fmap_elem_eq seq_key source); try done.
    by apply seq_before_antisym_key.
  - apply seqSort_sorted.
  - done.
  - by rewrite seqSort_Permutation, Hperm.
Qed.

Lemma seqSort_is_the_only_ordered_rearrangement_witness :
  seqSort [claimC; claimA; claimB] = [claimA; claimB; claimC].
Proof.
  apply (seqSort_is_the_only_ordered_rearrangement
           [claimC; claimA; claimB] [claimA; claimB; claimC]).
  - apply (bool_decide_unpack _). vm_compute. reflexivity.
  - by rewrite (Permutation_cons_append [claimA; claimB] claimC).
  - repeat constructor; unfold seq_before; simpl; lia.
Defined.

(** ** Selection by sequence index against selection by bid *)

Lemma to_int_small (z : Z) : 0 <= z < 2 ^ 31 -> to_int z = z.
Proof.
  intros H. unfold to_int.
  rewrite Z.mod_small by lia. lia.
Qed.

Lemma NoDup_claimIds_seqSort cs : NoDup (claimIds cs) -> NoDup (claimIds (seqSort cs)).
Proof.
  unfold claimIds. intros H.
  by rewrite (Permutation_map _ (seqSort_Permutation cs)).
Qed.

Lemma seqSort_lookup_elem cs j c : seqSort cs !! j = Some c -> c ∈ cs.
Proof.
  intros Hj. rewrite <- (seqSort_Permutation cs).
  by eapply list_elem_of_lookup_2.
Qed.

(** X9.  Round trip between the two selections.  When the identifiers
    of the name's claims are pairwise distinct, the claim at sequence
    index j stands at one bid position p, and [getclaimbyseq] with j and
    [getclaimbybid] with p make the same accesses and give the same
    answer, which carries bid p and sequence j. *)
Theorem getclaimbyseq_agrees_with_getclaimbybid
        (X : Collaborators) (db : CDBWrapper) (trieCache : CClaimTrieCache)
        (coinsCache : CCoinsViewCache) (name_ : string) (j : nat)
        (c : CClaimNsupports)
        (Hids : NoDup (claimIds (claimsNsupports (getClaimsForName trieCache name_))))
        (Hsize : Z.of_nat (length (claimsNsupports (getClaimsForName trieCache name_)))
                 < 2 ^ 31)
        (Hj : seqSort (claimsNsupports (getClaimsForName trieCache name_)) !! j
              = Some c) :
  exists p,
    claimsNsupports (getClaimsForName trieCache name_) !! p = Some c
    /\ getclaimbyseq X db trieCache coinsCache name_ (Z.of_nat j)
       = getclaimbybid X db trieCache coinsCache name_ (Z.of_nat p)
    /\ exists result,
        outcome (getclaimbybid X db trieCache coinsCache name_ (Z.of_nat p))
        = Return result
        /\ find_value result T_BID = Some (VNUM (Z.of_nat p))
        /\ find_value result T_SEQUENCE = Some (VNUM (Z.of_nat j)).
Proof.
  set (cs := claimsNsupports (getClaimsForName trieCache name_)) in *.
  pose proof (seqSort_lookup_elem cs j c Hj) as Hc.
  apply list_elem_of_lookup in Hc as [p Hp]. exists p. split; [done|].
  pose proof (lookup_lt_Some _ _ _ Hp) as Hplt.
  pose proof (lookup_lt_Some _ _ _ Hj) as Hjlt.
  rewrite (Permutation_length (seqSort_Permutation cs)) in Hjlt.
  pose proof (indexOf_lookup cs p c Hids Hp) as Hbid.
  pose proof (indexOf_lookup (seqSort cs) j c (NoDup_claimIds_seqSort cs Hids) Hj)
    as Hseq.
  assert (Hbyseq :
    getclaimbyseq X db trieCache coinsCache name_ (Z.of_nat j)
    = (EvGetClaimsForName name_
         :: events (claimAnswer X db coinsCache (getClaimsForName trieCache name_) c
                      (Z.of_nat p) (Z.of_nat j) (VOBJ [])),
       outcome (claimAnswer X db coinsCache (getClaimsForName trieCache name_) c
                  (Z.of_nat p) (Z.of_nat j) (VOBJ [])))).
  { unfold getclaimbyseq. destruct (Z.ltb_spec (Z.of_nat j) 0); [lia|].
    rewrite bind_emit. fold cs. rewrite to_uint32_int by lia.
    destruct (Z.leb_spec (Z.of_nat (length cs)) (Z.of_nat j)); [lia|].
    rewrite Nat2Z.id. f_equal; [f_equal|].
    - destruct (Nat.eqb_spec (length cs) 1) as [Hone|Hmany].
      + destruct cs as [|c0 [|]] eqn:Hcs; try done.
        assert (j = O) by (simpl in Hjlt; lia).
        assert (p = O) by (simpl in Hplt; lia). subst j p.
        simpl in Hp. simplify_eq. cbn [lookup list_lookup]. by rewrite bind_ret.
      + rewrite Hj, Hbid, !bind_ret. by rewrite to_int_small by lia.
    - destruct (Nat.eqb_spec (length cs) 1) as [Hone|Hmany].
      + destruct cs as [|c0 [|]] eqn:Hcs; try done.
        assert (j = O) by (simpl in Hjlt; lia).
        assert (p = O) by (simpl in Hplt; lia). subst j p.
        simpl in Hp. simplify_eq. cbn [lookup list_lookup]. by rewrite bind_ret.
      + rewrite Hj, Hbid, !bind_ret. by rewrite to_int_small by lia. }
  assert (Hbybid :
    getclaimbybid X db trieCache coinsCache name_ (Z.of_nat p)
    = (EvGetClaimsForName name_
         :: events (claimAnswer X db coinsCache (getClaimsForName trieCache name_) c
                      (Z.of_nat p) (Z.of_nat j) (VOBJ [])),
       outcome (claimAnswer X db coinsCache (getClaimsForName trieCache name_) c
                  (Z.of_nat p) (Z.of_nat j) (VOBJ [])))).
  { unfold getclaimbybid. destruct (Z.ltb_spec (Z.of_nat p) 0); [lia|].
    rewrite bind_emit. fold cs. rewrite to_uint32_int by lia.
    destruct (Z.leb_spec (Z.of_nat (length cs)) (Z.of_nat p)); [lia|].
    rewrite Nat2Z.id, Hp.
    assert ((if (1 <? length cs)%nat
             then indexOf (seqSort cs) (claimId (claim c)) else ret O) = ret j)
      as ->.
    { destruct (Nat.ltb_spec 1 (length cs)); [done|]. f_equal. f_equal. lia. }
    rewrite bind_ret. by rewrite to_int_small by lia. }
  split; [by rewrite Hbyseq, Hbybid|].
  rewrite Hbybid. cbn [outcome snd].
  destruct (claimAnswer_returns X db coinsCache (getClaimsForName trieCache name_)
              c (Z.of_nat p) (Z.of_nat j)) as (result & Hres & Hb & Hs & _).
  by exists result.
Qed.

Lemma getclaimbyseq_agrees_with_getclaimbybid_witness :
  exists p,
    [claimB; claimC; claimA] !! p = Some claimA
    /\ getclaimbyseq sampleCollaborators sampleIndex sampleRegistry spentCoins
                     "name" (Z.of_nat 0)
       = getclaimbybid sampleCollaborators sampleIndex sampleRegistry spentCoins
                       "name" (Z.of_nat p).
Proof.
  destruct (getclaimbyseq_agrees_with_getclaimbybid sampleCollaborators sampleIndex
              sampleRegistry spentCoins "name" 0 claimA) as (p & Hp & Heq & _).
  - apply (bool_decide_unpack _). vm_compute. reflexivity.
  - simpl. lia.
  - reflexivity.
  - exists p. split; [exact Hp|exact Heq].
Defined.

(** X10.  Proof selection by sequence index and by bid meet: when the
    claim at sequence index j has the identifier of the claim at a bid
    position p other than 0, [getclaimproofbyseq] with j and
    [getclaimproofbybid] with p consult the claim list once and ask for
    the same proof, with the predicate that accepts exactly that
    identifier. *)
Theorem getclaimproofbyseq_agrees_with_getclaimproofbybid
        (X : Collaborators) (trieCache : CClaimTrieCache) (name_ : string)
        (j p : nat) (c c' : CClaimNsupports)
        (Hsize : Z.of_nat (length (claimsNsupports (getClaimsForName trieCache name_)))
                 < 2 ^ 31)
        (Hj : seqSort (claimsNsupports (getClaimsForName trieCache name_)) !! j
              = Some c)
        (Hp : claimsNsupports (getClaimsForName trieCache name_) !! p = Some c')
        (Hid : claimId (claim c') = claimId (claim c))
        (Hnz : p <> O) :
  getclaimproofbyseq X trieCache name_ (Z.of_nat j)
  = getclaimproofbybid X trieCache name_ (Z.of_nat p)
  /\ events (getclaimproofbyseq X trieCache name_ (Z.of_nat j))
     = [EvGetClaimsForName name_;
        EvGetProofForName name_ (Some (claimId_equals (claimId (claim c))))].
Proof.
  set (cs := claimsNsupports (getClaimsForName trieCache name_)) in *.
  pose proof (lookup_lt_Some _ _ _ Hp) as Hplt.
  pose proof (lookup_lt_Some _ _ _ Hj) as Hjlt.
  rewrite (Permutation_length (seqSort_Permutation cs)) in Hjlt.
  assert (Hseq : getclaimproofbyseq X trieCache name_ (Z.of_nat j)
                 = bind (emit (EvGetClaimsForName name_))
                        (fun _ => requestProof trieCache name_
                                    (Some (claimId_equals (claimId (claim c)))))).
  { unfold getclaimproofbyseq. destruct (Z.ltb_spec (Z.of_nat j) 0); [lia|].
    fold cs. rewrite to_uint32_int by lia.
    destruct (Z.leb_spec (Z.of_nat (length cs)) (Z.of_nat j)); [lia|].
    destruct (Nat.eqb_spec (length cs) 1); [lia|].
    by rewrite Nat2Z.id, Hj. }
  assert (Hbid : getclaimproofbybid X trieCache name_ (Z.of_nat p)
                 = bind (emit (EvGetClaimsForName name_))
                        (fun _ => requestProof trieCache name_
                                    (Some (claimId_equals (claimId (claim c)))))).
  { unfold getclaimproofbybid. destruct (Z.ltb_spec (Z.of_nat p) 0); [lia|].
    destruct (Z.eqb_spec (Z.of_nat p) 0); [lia|]. cbn [negb].
    fold cs. rewrite to_uint32_int by lia.
    destruct (Z.leb_spec (Z.of_nat (length cs)) (Z.of_nat p)); [lia|].
    by rewrite Nat2Z.id, Hp, Hid. }
  split; [by rewrite Hseq, Hbid|].
  rewrite Hseq, bind_emit. unfold requestProof. rewrite bind_emit.
  cbn [events fst]. by destruct (getProofForName _ _ _).
Qed.

Lemma getclaimproofbyseq_agrees_with_getclaimproofbybid_witness :
  getclaimproofbyseq sampleCollaborators sampleRegistry "name" (Z.of_nat 0)
  = getclaimproofbybid sampleCollaborators sampleRegistry "name" (Z.of_nat 2).
Proof.
  apply (getclaimproofbyseq_agrees_with_getclaimproofbybid sampleCollaborators
           sampleRegistry "name" 0 2 claimA claimA);
    first [reflexivity | discriminate].
Defined.

(** X11.  [getnameproof] without an identifier is [getclaimproofbybid]
    with bid 0: one request for the proof with the default predicate.
    With a full identifier it asks for the proof that
    [getclaimproofbybid] asks for at a bid position, other than 0, that
    holds this identifier, without consulting the claim list. *)
Theorem getnameproof_agrees_with_getclaimproofbybid
        (X : Collaborators) (trieCache : CClaimTrieCache) (name_ : string) :
  getnameproof X trieCache name_ None = getclaimproofbybid X trieCache name_ 0
  /\ (forall s p c,
         IsHexNumber s = true -> String.length s = claimIdHexLength ->
         claimsNsupports (getClaimsForName trieCache name_) !! p = Some c ->
         claimId (claim c) = uint160S s -> p <> O ->
         Z.of_nat (length (claimsNsupports (getClaimsForName trieCache name_)))
         < 2 ^ 31 ->
         outcome (getnameproof X trieCache name_ (Some (VSTR s)))
         = outcome (getclaimproofbybid X trieCache name_ (Z.of_nat p))
         /\ events (getnameproof X trieCache name_ (Some (VSTR s)))
            = [EvGetProofForName name_ (Some (claimId_equals (uint160S s)))]).
Proof.
  split.
  - unfold getnameproof, getclaimproofbybid. by rewrite bind_ret.
  - intros s p c Hhex Hlen Hp Hid Hnz Hsize.
    pose proof (lookup_lt_Some _ _ _ Hp) as Hplt.
    assert (Hname : getnameproof X trieCache name_ (Some (VSTR s))
                    = requestProof trieCache name_
                        (Some (claimId_equals (uint160S s)))).
    { unfold getnameproof, ParseClaimtrieId. cbn [isStr get_str negb orb].
      rewrite Hhex. cbn [negb]. rewrite Hlen, Nat.ltb_irrefl, bind_ret.
      by rewrite Hlen, Nat.eqb_refl. }
    rewrite Hname. split.
    + unfold getclaimproofbybid. destruct (Z.ltb_spec (Z.of_nat p) 0); [lia|].
      destruct (Z.eqb_spec (Z.of_nat p) 0); [lia|]. cbn [negb].
      rewrite bind_emit, to_uint32_int by lia.
      destruct (Z.leb_spec
                  (Z.of_nat (length (claimsNsupports (getClaimsForName trieCache name_))))
                  (Z.of_nat p)); [lia|].
      by rewrite Nat2Z.id, Hp, Hid.
    + unfold requestProof. rewrite bind_emit. cbn [events fst].
      by destruct (getProofForName _ _ _).
Qed.


Lemma getnameproof_agrees_with_getclaimproofbybid_witness :
  outcome (getnameproof sampleCollaborators sampleRegistry "name"
                        (Some (VSTR hex_claimC)))
  = outcome (getclaimproofbybid sampleCollaborators sampleRegistry "name"
                                (Z.of_nat 1))
  /\ events (getnameproof sampleCollaborators sampleRegistry "name"
                          (Some (VSTR hex_claimC)))
     = [EvGetProofForName "name" (Some (claimId_equals (uint160S hex_claimC)))].
Proof.
  refine (proj2 (getnameproof_agrees_with_getclaimproofbybid sampleCollaborators
                   sampleRegistry "name") hex_claimC 1%nat claimC _ _ _ _ _ _);
    first [reflexivity | discriminate].
Defined.

Lemma indexOf_head (c : CClaimNsupports) (rest : list CClaimNsupports) :
  indexOf (c :: rest) (claimId (claim c)) = ret O.
Proof. unfold indexOf, indexOf_pos. simpl. by rewrite Z.eqb_refl. Qed.

(** X12.  [getvalueforname] without an identifier is [getclaimbybid]
    with bid 0: for a name without claims both answer the empty object,
    otherwise both render the first claim of the registry's list with bid
    0 and its sequence index, making the same accesses. *)
Theorem getvalueforname_agrees_with_getclaimbybid_zero
        (X : Collaborators) (db : CDBWrapper) (trieCache : CClaimTrieCache)
        (coinsCache : CCoinsViewCache) (name_ : string)
        (Hfirst : forall first rest,
            claimsNsupports (getClaimsForName trieCache name_) = first :: rest ->
            CClaimNsupports_IsNull X first = false) :
  getvalueforname X db trieCache coinsCache name_ None
  = getclaimbybid X db trieCache coinsCache name_ 0.
Proof.
  unfold getvalueforname, getclaimbybid. rewrite bind_ret.
  cbn [Z.ltb Z.compare String.length Nat.eqb claimIdHexLength String.eqb negb].
  rewrite !bind_emit.
  destruct (claimsNsupports (getClaimsForName trieCache name_))
    as [|first rest] eqn:Hcs; [done|].
  rewrite (Hfirst first rest eq_refl).
  destruct (Z.leb_spec (Z.of_nat (length (first :: rest))) (to_uint32 0))
    as [Hle|_].
  { change (to_uint32 0) with 0 in Hle. cbn [length] in Hle. lia. }
  change (Z.to_nat 0) with O. cbn [lookup list_lookup]. unfold seq_and_bid.
  destruct (1 <? length (first :: rest))%nat.
  - destruct (indexOf_present (seqSort (first :: rest)) (claimId (claim first)))
      as (q & _ & Hq & _).
    { apply elem_of_seqSort_ids. left. }
    rewrite Hq, indexOf_head, !bind_ret. cbn [fst snd]. reflexivity.
  - rewrite !bind_ret. cbn [fst snd]. reflexivity.
Qed.

Lemma getvalueforname_agrees_with_getclaimbybid_zero_witness :
  getvalueforname sampleCollaborators sampleIndex sampleRegistry spentCoins
                  "name" None
  = getclaimbybid sampleCollaborators sampleIndex sampleRegistry spentCoins
                  "name" 0.
Proof.
  apply (getvalueforname_agrees_with_getclaimbybid_zero sampleCollaborators).
  intros first rest [= <- _]. reflexivity.
Defined.

(** ** Identifier resolution: what a result means *)

Lemma first_accepted {A} (P : A -> bool) (l : list A) :
  Forall (fun x => P x = false) l
  \/ exists skipped x rest,
      l = skipped ++ x :: rest
      /\ Forall (fun y => P y = false) skipped /\ P x = true.
Proof.
  induction l as [|x l IH]; [by left|].
  destruct (P x) eqn:Hx.
  - right. exists [], x, l. by repeat split.
  - destruct IH as [Hall|(sk & y & rest & -> & Hsk & Hy)].
    + left. by constructor.
    + right. exists (x :: sk), y, rest. repeat split; [|done]. by constructor.
Qed.

Section NamedScan.
Context (X : Collaborators).

Lemma scanClaimById_named_skip partialId nm e rest :
  accepts_named X partialId nm e = false ->
  scanClaimById X partialId nm (e :: rest)
  = (EvDbCursor e :: events (scanClaimById X partialId nm rest),
     outcome (scanClaimById X partialId nm rest)).
Proof.
  intros Hacc. cbn [scanClaimById]. rewrite bind_emit. unfold accepts_named in Hacc.
  destruct (GetKey e) as [[tag id]|]; [|done].
  destruct (tag =? CLAIM_BY_ID X); cbn [negb andb] in *; [|done].
  destruct (String.prefix partialId (GetHex id)); cbn [negb andb] in *; [|done].
  destruct (GetValue e) as [el|]; [|done].
  destruct (String.eqb nm EmptyString), (String.eqb nm (IndexElement.name el));
    cbn [negb andb orb] in *; done.
Qed.

Lemma scanClaimById_named_stop partialId nm e rest element :
  accepts_named X partialId nm e = true -> GetValue e = Some element ->
  scanClaimById X partialId nm (e :: rest)
  = ([EvDbCursor e],
     Return (Some (IndexElement.name element, IndexElement.claim element))).
Proof.
  intros Hacc Hval. cbn [scanClaimById]. rewrite bind_emit.
  unfold accepts_named in Hacc. rewrite Hval in *.
  destruct (GetKey e) as [[tag id]|]; [|done].
  apply andb_true_iff in Hacc as [Hacc Hnm].
  apply andb_true_iff in Hacc as [-> ->]. cbn [negb].
  destruct (String.eqb nm EmptyString), (String.eqb nm (IndexElement.name element));
    cbn [negb andb orb] in *; done.
Qed.

Lemma scanClaimById_named_none partialId nm cursor :
  Forall (fun e => accepts_named X partialId nm e = false) cursor ->
  scanClaimById X partialId nm cursor = (map EvDbCursor cursor, Return None).
Proof.
  induction 1 as [|e rest He _ IH]; [done|].
  rewrite scanClaimById_named_skip by done. by rewrite IH.
Qed.

Lemma scanClaimById_named_first partialId nm skipped e rest element :
  Forall (fun e' => accepts_named X partialId nm e' = false) skipped ->
  accepts_named X partialId nm e = true -> GetValue e = Some element ->
  scanClaimById X partialId nm (skipped ++ e :: rest)
  = (map EvDbCursor (skipped ++ [e]),
     Return (Some (IndexElement.name element, IndexElement.claim element))).
Proof.
  intros Hsk Hacc Hval. induction Hsk as [|e' sk He' _ IH]; simpl app.
  - by apply scanClaimById_named_stop.
  - rewrite scanClaimById_named_skip by done. by rewrite IH.
Qed.

Lemma accepts_named_inv partialId nm e :
  accepts_named X partialId nm e = true ->
  exists id element,
    GetKey e = Some (CLAIM_BY_ID X, id) /\ GetValue e = Some element
    /\ String.prefix partialId (GetHex id) = true
    /\ (nm <> EmptyString -> IndexElement.name element = nm).
Proof.
  unfold accepts_named. destruct (GetKey e) as [[tag id]|]; [|done].
  destruct (GetValue e) as [el|]; [|done]. intros H.
  apply andb_true_iff in H as [H Hnm]. apply andb_true_iff in H as [Htag Hpre].
  apply Z.eqb_eq in Htag as ->. exists id, el. repeat split; try done.
  intros Hne. apply orb_true_iff in Hnm as [Hnm|Hnm].
  - by apply String.eqb_eq in Hnm.
  - symmetry. by apply String.eqb_eq.
Qed.
End NamedScan.

(** X13.  What the exact lookup finds.  [getClaimById] by identifier
    answers only with the record stored under that identifier in the
    identifier index, only when the claim in the record carries the
    identifier asked for, and never for the null identifier; it makes at
    most one read and never fails. *)
Theorem getClaimById_exact_is_sound
        (X : Collaborators) (db : CDBWrapper) (id : uint160) :
  (forall nm c,
      outcome (getClaimById X db id) = Return (Some (nm, c)) ->
      id <> 0 /\ claimId c = id
      /\ db_Read db (CLAIM_BY_ID X, id) = Some (mkIndexElement nm c)
      /\ events (getClaimById X db id) = [EvDbRead id])
  /\ (exists r, outcome (getClaimById X db id) = Return r)
  /\ (id = 0 -> getClaimById X db id = ([], Return None)).
Proof.
  split; [|split].
  - intros nm c. rewrite getClaimById_events. unfold getClaimById, IsNull.
    destruct (Z.eqb_spec id 0) as [->|Hne]; [done|].
    rewrite bind_emit. cbn [outcome snd].
    destruct (db_Read db (CLAIM_BY_ID X, id)) as [[nm' c']|]; [|done].
    cbn [IndexElement.claim IndexElement.name].
    destruct (Z.eqb_spec (claimId c') id); [|done].
    intros [= -> ->]. by repeat split.
  - apply getClaimById_returns.
  - intros ->. reflexivity.
Qed.

Lemma getClaimById_exact_is_sound_witness :
  id_abcd1 <> 0
  /\ claimId (mkClaim id_abcd1 100 100 0 5) = id_abcd1
  /\ db_Read sampleIndex (CLAIM_BY_ID sampleCollaborators, id_abcd1)
     = Some (mkIndexElement "first" (mkClaim id_abcd1 100 100 0 5))
  /\ events (getClaimById sampleCollaborators sampleIndex id_abcd1)
     = [EvDbRead id_abcd1].
Proof.
  apply (getClaimById_exact_is_sound sampleCollaborators sampleIndex id_abcd1).
  reflexivity.
Defined.

(** X14.  What the partial lookup finds.  For a non-empty prefix and a
    name pinned by the caller (the empty name pins nothing),
    [getClaimById] by prefix answers with the record of the first entry of
    the identifier index whose key starts with the prefix and whose record
    carries the pinned name; the cursor stops on that entry.  The name
    answered is the pinned name whenever one is pinned.  The claim
    answered is the one of the record: its identifier is not compared with
    the key. *)
Theorem getClaimByPartialId_is_sound
        (X : Collaborators) (db : CDBWrapper) (partialId nm : string)
        (nm' : string) (c : CClaimValue)
        (Hfound : outcome (getClaimByPartialId X db partialId nm)
                  = Return (Some (nm', c))) :
  partialId <> EmptyString
  /\ (nm <> EmptyString -> nm' = nm)
  /\ exists skipped e rest id,
      db = skipped ++ e :: rest
      /\ Forall (fun e' => accepts_named X partialId nm e' = false) skipped
      /\ GetKey e = Some (CLAIM_BY_ID X, id)
      /\ String.prefix partialId (GetHex id) = true
      /\ GetValue e = Some (mkIndexElement nm' c)
      /\ events (getClaimByPartialId X db partialId nm)
         = EvDbSeekToFirst :: map EvDbCursor (skipped ++ [e]).
Proof.
  assert (Hne : partialId <> EmptyString).
  { intros ->. by unfold getClaimByPartialId in Hfound. }
  split; [done|]. rewrite getClaimByPartialId_scan in Hfound |- * by done.
  cbn [outcome snd events fst] in *.
  destruct (first_accepted (accepts_named X partialId nm) db)
    as [Hall|(sk & e & rest & -> & Hsk & He)].
  { by rewrite scanClaimById_named_none in Hfound. }
  destruct (accepts_named_inv X _ _ _ He) as (id & el & Hkey & Hval & Hpre & Hnm).
  rewrite (scanClaimById_named_first X _ _ sk e rest el Hsk He Hval) in Hfound |- *.
  cbn [outcome snd events fst] in *. injection Hfound as <- <-.
  split; [done|]. exists sk, e, rest, id. repeat split; try done.
  by destruct el.
Qed.

Lemma getClaimByPartialId_is_sound_witness :
  ("abcd" <> EmptyString)%string
  /\ ("second"%string <> EmptyString -> "second"%string = "second"%string)
  /\ exists skipped e rest id,
      sampleIndex = skipped ++ e :: rest
      /\ Forall (fun e' => accepts_named sampleCollaborators "abcd" "second" e'
                           = false) skipped
      /\ GetKey e = Some (CLAIM_BY_ID sampleCollaborators, id)
      /\ String.prefix "abcd" (GetHex id) = true
      /\ GetValue e = Some (mkIndexElement "second" (mkClaim id_abcd2 100 100 0 5))
      /\ events (getClaimByPartialId sampleCollaborators sampleIndex "abcd" "second")
         = EvDbSeekToFirst :: map EvDbCursor (skipped ++ [e]).
Proof.
  apply (getClaimByPartialId_is_sound sampleCollaborators sampleIndex
           "abcd" "second" "second" (mkClaim id_abcd2 100 100 0 5)).
  reflexivity.
Defined.

(** X15.  When the partial lookup finds nothing.  For a non-empty
    prefix, [getClaimById] by prefix answers not-found exactly when no
    entry of the identifier index has a key starting with the prefix, a
    readable record and the pinned name; it has then moved the cursor
    over every entry of the store.  It never fails. *)
Theorem getClaimByPartialId_not_found_iff
        (X : Collaborators) (db : CDBWrapper) (partialId nm : string)
        (Hne : partialId <> EmptyString) :
  (outcome (getClaimByPartialId X db partialId nm) = Return None
   <-> Forall (fun e => accepts_named X partialId nm e = false) db)
  /\ (outcome (getClaimByPartialId X db partialId nm) = Return None ->
      events (getClaimByPartialId X db partialId nm)
      = EvDbSeekToFirst :: map EvDbCursor db)
  /\ exists r, outcome (getClaimByPartialId X db partialId nm) = Return r.
Proof.
  rewrite getClaimByPartialId_scan by done. cbn [outcome snd events fst].
  destruct (first_accepted (accepts_named X partialId nm) db)
    as [Hall|(sk & e & rest & -> & Hsk & He)].
  - rewrite scanClaimById_named_none by done. cbn [outcome snd events fst].
    repeat split; try done. by eexists.
  - destruct (accepts_named_inv X _ _ _ He) as (id & el & Hkey & Hval & Hpre & Hnm).
    rewrite (scanClaimById_named_first X _ _ sk e rest el Hsk He Hval).
    cbn [outcome snd events fst]. split; [split; [done|]|split; [done|by eexists]].
    intros Hall. apply Forall_app in Hall as [_ Hall].
    apply Forall_cons in Hall as [Hfalse _]. congruence.
Qed.

Lemma getClaimByPartialId_not_found_iff_witness :
  events (getClaimByPartialId sampleCollaborators sampleIndex "abcd" "third")
  = EvDbSeekToFirst :: map EvDbCursor sampleIndex.
Proof.
  refine (proj1 (proj2 (getClaimByPartialId_not_found_iff sampleCollaborators
                          sampleIndex "abcd" "third" _)) _).
  - discriminate.
  - reflexivity.
Defined.

(** ** Listing the claims of a name *)

Section Listing.
Context (X : Collaborators).

Lemma claimToJSON_events db coinsCache c :
  events (claimToJSON X db coinsCache c)
  = if IsNull (claimId c) then [] else [EvDbRead (claimId c)].
Proof.
  unfold claimToJSON.
  destruct (getClaimById_returns X db (claimId c)) as [r Hr].
  rewrite (bind_returns _ _ r Hr). cbn [events fst ret].
  by rewrite app_nil_r, getClaimById_events.
Qed.

Lemma claimAndSupportsToJSON_events db coinsCache cns :
  events (claimAndSupportsToJSON X db coinsCache cns)
  = if IsNull (claimId (claim cns)) then [] else [EvDbRead (claimId (claim cns))].
Proof.
  unfold claimAndSupportsToJSON.
  destruct (claimToJSON_returns X db coinsCache (claim cns)) as (o & Ho & _).
  rewrite (bind_returns _ _ o Ho). cbn [events fst ret].
  by rewrite app_nil_r, claimToJSON_events.
Qed.

Lemma readsOf_cons id ids :
  readsOf (id :: ids)
  = (if IsNull id then [] else [EvDbRead id]) ++ readsOf ids.
Proof. unfold readsOf. cbn [List.filter]. by destruct (IsNull id). Qed.

Lemma claimObjs_from_listing db coinsCache seqOrder :
  forall rest i acc,
    (forall c, c ∈ rest ->
               claimId (claim c) ∈ map (fun c => claimId (claim c)) seqOrder) ->
    exists objs,
      claimObjs_from X db coinsCache seqOrder i rest (VARR acc)
      = (readsOf (map (fun c => claimId (claim c)) rest),
         Return (VARR (acc ++ objs)))
      /\ length objs = length rest
      /\ forall j c,
          rest !! j = Some c ->
          exists o p c',
            objs !! j = Some o
            /\ find_value o T_BID = Some (VNUM (to_int (Z.of_nat (i + j))))
            /\ find_value o T_SEQUENCE = Some (VNUM (to_int (Z.of_nat p)))
            /\ seqOrder !! p = Some c'
            /\ claimId (claim c') = claimId (claim c)
            /\ find_value o T_CLAIMID = Some (VSTR (GetHex (claimId (claim c)))).
Proof.
  induction rest as [|c rest IH]; intros i acc Hin.
  - exists []. rewrite app_nil_r. repeat split. intros j c Hj. done.
  - cbn [claimObjs_from].
    destruct (claimAndSupportsToJSON_returns X db coinsCache c)
      as (o & Ho & Hobj & Hid & _ & _ & Hbid & Hseq).
    rewrite (bind_returns _ _ _ Ho), claimAndSupportsToJSON_events.
    destruct (indexOf_present seqOrder (claimId (claim c))) as (p & c' & Hp & Hc' & Hidc).
    { apply Hin. left. }
    rewrite Hp, bind_ret. cbn [push_back].
    destruct (IH (S i)
                (acc ++ [pushKV (pushKV o T_BID (VNUM (to_int (Z.of_nat i))))
                                T_SEQUENCE (VNUM (to_int (Z.of_nat p)))]))
      as (objs & Hobjs & Hlen & Hnth).
    { intros c0 Hc0. apply Hin. by right. }
    eexists (_ :: objs). rewrite Hobjs, <- app_assoc. cbn [events fst outcome snd].
    split; [by rewrite fmap_cons, readsOf_cons|].
    split; [simpl; by rewrite Hlen|].
    intros [|j] c0 Hj; simplify_eq/=.
    + eexists _, p, c'. split; [done|].
      repeat (rewrite find_value_pushKV by (by rewrite ?isObject_pushKV)).
      simpl Key_eqb. cbv iota. by rewrite Nat.add_0_r.
    + destruct (Hnth j c0 Hj) as (o' & p' & c0' & Ho' & Hb' & Hs' & Hl' & Hi' & Hc0').
      exists o', p', c0'. repeat split; try done.
      by replace (i + S j)%nat with (S i + j)%nat by lia.
Qed.

(** X16.  Listing the claims of a name.  [getclaimsforname] never fails.
    It asks the registry once for the claims of the name and then makes
    one point read of the identifier index per claim with a non-null
    identifier, in bid order, and no scan.  The answer lists one object per
    claim, in bid order: the object at position j reports bid j, the
    identifier of the j-th claim and, as its sequence, a position of the
    sequence order that holds a claim with that identifier. *)
Theorem getclaimsforname_lists_every_claim
        (db : CDBWrapper) (trieCache : CClaimTrieCache)
        (coinsCache : CCoinsViewCache) (name_ : string) :
  let cs := claimsNsupports (getClaimsForName trieCache name_) in
  exists result objs,
    getclaimsforname X db trieCache coinsCache name_
    = (EvGetClaimsForName name_ :: readsOf (map (fun c => claimId (claim c)) cs),
       Return result)
    /\ existsb is_scan_event (events (getclaimsforname X db trieCache coinsCache name_))
       = false
    /\ find_value result T_CLAIMS = Some (VARR objs)
    /\ find_value result T_LASTTAKEOVERHEIGHT
       = Some (VNUM (nLastTakeoverHeight (getClaimsForName trieCache name_)))
    /\ length objs = length cs
    /\ forall j c,
        cs !! j = Some c ->
        exists o p c',
          objs !! j = Some o
          /\ find_value o T_BID = Some (VNUM (to_int (Z.of_nat j)))
          /\ find_value o T_SEQUENCE = Some (VNUM (to_int (Z.of_nat p)))
          /\ seqSort cs !! p = Some c'
          /\ claimId (claim c') = claimId (claim c)
          /\ find_value o T_CLAIMID = Some (VSTR (GetHex (claimId (claim c)))).
Proof.
  intros cs. unfold getclaimsforname. fold cs.
  destruct (claimObjs_from_listing db coinsCache (seqSort cs) cs O [])
    as (objs & Hobjs & Hlen & Hnth).
  { intros c Hc. by apply elem_of_seqSort_ids. }
  cbn [app] in Hobjs.
  rewrite bind_emit, Hobjs, (bind_returns (_, Return (VARR objs)) _ _ eq_refl).
  cbn [events outcome fst snd ret app]. rewrite app_nil_r.
  eexists _, objs. split; [reflexivity|].
  split.
  { cbn [existsb is_scan_event orb]. unfold readsOf.
    induction (List.filter _ _) as [|id ids IH]; [done|]. by cbn. }
  repeat (rewrite find_value_pushKV by (by rewrite ?isObject_pushKV)).
  simpl Key_eqb. cbv iota. repeat split; try done.
Qed.
End Listing.

(** ** Requests *)

Section Requests.
Context {Caches CBlock : Type} (srv : Server Caches CBlock).

Lemma onWorkingCaches_unusable_block {A} (v : UniValue) (strName : string)
      (body : Caches -> Run A) (h : uint256) (e : Exception) :
  ParseHashV srv v strName = Return h ->
  (mapBlockIndex (chainState srv) h = None /\ e = blockNotFound)
  \/ (exists i,
         mapBlockIndex (chainState srv) h = Some i
         /\ ((chainActive_Contains (chainState srv) i = false
              /\ e = blockNotInMainChain)
             \/ (chainActive_Contains (chainState srv) i = true
                 /\ index_nHeight (chainActive_Tip (chainState srv))
                    > index_nHeight i + MAX_RPC_BLOCK_DECREMENTS
                 /\ e = tooDeep))) ->
  onWorkingCaches srv (Some v) strName body = mkRun [] [] (Raised e).
Proof.
  intros Hhash Hbad. unfold onWorkingCaches, BlockHashIndex. rewrite Hhash.
  destruct Hbad as [[-> ->]|(i & -> & [[Hc ->]|(Hc & Hdeep & ->)])]; [done| |].
  - by rewrite Hc.
  - rewrite Hc. cbn [negb]. unfold RollBackTo.
    destruct (Z.gtb_spec (index_nHeight (chainActive_Tip (chainState srv)))
                (index_nHeight i + MAX_RPC_BLOCK_DECREMENTS)); [done|lia].
Qed.

Lemma validateRequest_passes (request : JSONRPCRequest) findex required optional :
  fHelp request = false ->
  required <= Z.of_nat (length (params request)) <= required + optional ->
  validateRequest srv request findex required optional = None.
Proof.
  intros Hhelp [Hlo Hhi]. unfold validateRequest, validParams. rewrite Hhelp.
  destruct (Z.leb_spec required (Z.of_nat (length (params request)))); [|lia].
  destruct (Z.leb_spec (Z.of_nat (length (params request))) (required + optional));
    [done|lia].
Qed.

Lemma namesInTrie_quiet :
  forall nodes_ k acc,
    (forall j, (j < length nodes_)%nat ->
               ShutdownRequestedAt srv (k + j) = false
               /\ interruptionAt srv (k + j) = false) ->
    namesInTrie srv k nodes_ (VARR acc)
    = ret (VARR (acc ++ map (nameEntry srv) (nonEmptyNodes srv nodes_))).
Proof.
  induction nodes_ as [|[nm data] rest IH]; intros k acc Hq.
  - cbn. by rewrite app_nil_r.
  - cbn [namesInTrie]. destruct (Hq O) as [Hs Hi]; [cbn; lia|].
    rewrite Nat.add_0_r in Hs, Hi. rewrite Hs, Hi.
    unfold nonEmptyNodes. cbn [List.filter snd].
    assert (Hrest : forall j, (j < length rest)%nat ->
                         ShutdownRequestedAt srv (S k + j) = false
                         /\ interruptionAt srv (S k + j) = false).
    { intros j Hj. replace (S k + j)%nat with (k + S j)%nat by lia.
      apply Hq. cbn. lia. }
    destruct (CClaimTrieData_empty srv data); cbn [negb push_back].
    + by rewrite (IH (S k) acc Hrest).
    + rewrite (IH (S k) _ Hrest), <- app_assoc. reflexivity.
Qed.

Lemma namesInTrie_stopped :
  forall nodes_ k acc j,
    (j < length nodes_)%nat ->
    (forall i, (i < j)%nat ->
               ShutdownRequestedAt srv (k + i) = false
               /\ interruptionAt srv (k + i) = false) ->
    ShutdownRequestedAt srv (k + j) = true \/ interruptionAt srv (k + j) = true ->
    namesInTrie srv k nodes_ (VARR acc)
    = throw (if ShutdownRequestedAt srv (k + j)
             then shutdownRequested else thread_interrupted).
Proof.
  induction nodes_ as [|[nm data] rest IH]; intros k acc j Hj Hq Hstop.
  - cbn in Hj. lia.
  - cbn [namesInTrie]. destruct j as [|j].
    + rewrite Nat.add_0_r in *.
      destruct (ShutdownRequestedAt srv k); [done|].
      destruct Hstop as [ ? | -> ]; done.
    + destruct (Hq O) as [Hs Hi]; [lia|].
      rewrite Nat.add_0_r in Hs, Hi. rewrite Hs, Hi.
      replace (k + S j)%nat with (S k + j)%nat in * by lia.
      assert (Hrest : forall i, (i < j)%nat ->
                           ShutdownRequestedAt srv (S k + i) = false
                           /\ interruptionAt srv (S k + i) = false).
      { intros i Hi'. replace (S k + i)%nat with (k + S i)%nat by lia.
        apply Hq. lia. }
      cbn in Hj.
      destruct (CClaimTrieData_empty srv data); cbn [negb push_back];
        by apply IH; [lia|..].
Qed.
End Requests.

(** X17.  A block parameter that cannot be used ends the request before
    anything is touched.  When the hash names no known block, a block
    outside the active chain, or a block of the active chain more than 500
    below the tip, [getclaimsforname], [getclaimbybid] and
    [getnamesintrie] end with the error of that case ("Block not found",
    "Block not in main chain", "Block is too deep"): no block is read or
    disconnected, the index and the registry are not asked, and the name
    parameter is not even looked at, so that a name of the wrong type goes
    unreported. *)
Theorem unusable_block_ends_request_untouched
        {Caches CBlock : Type} (srv : Server Caches CBlock)
        (nameParam blockParam : UniValue) (bid : Z) (h : uint256) (e : Exception)
        (Hhash : forall strName, ParseHashV srv blockParam strName = Return h)
        (Hbid : 0 <= bid < 2 ^ 31)
        (Hbad : (mapBlockIndex (chainState srv) h = None /\ e = blockNotFound)
                \/ (exists i,
                       mapBlockIndex (chainState srv) h = Some i
                       /\ ((chainActive_Contains (chainState srv) i = false
                            /\ e = blockNotInMainChain)
                           \/ (chainActive_Contains (chainState srv) i = true
                               /\ index_nHeight (chainActive_Tip (chainState srv))
                                  > index_nHeight i + MAX_RPC_BLOCK_DECREMENTS
                               /\ e = tooDeep)))) :
  getclaimsforname_request srv (mkRequest false [nameParam; blockParam])
  = mkRun [] [] (Raised e)
  /\ getclaimbybid_request srv (mkRequest false [nameParam; VNUM bid; blockParam])
     = mkRun [] [] (Raised e)
  /\ getnamesintrie srv (mkRequest false [blockParam]) = mkRun [] [] (Raised e).
Proof.
  split; [|split].
  - unfold getclaimsforname_request.
    rewrite validateRequest_passes by (cbn; (done || lia)).
    cbn [params lookup list_lookup].
    by apply onWorkingCaches_unusable_block with h.
  - unfold getclaimbybid_request.
    rewrite validateRequest_passes by (cbn; (done || lia)).
    cbn [params lookup list_lookup get_int].
    destruct (Z.leb_spec (- 2 ^ 31) bid); [|lia].
    destruct (Z.ltb_spec bid (2 ^ 31)); [|lia]. cbn [andb].
    destruct (Z.ltb_spec bid 0); [lia|].
    by apply onWorkingCaches_unusable_block with h.
  - unfold getnamesintrie.
    rewrite validateRequest_passes by (cbn; (done || lia)).
    cbn [params lookup list_lookup].
    by apply onWorkingCaches_unusable_block with h.
Qed.

Lemma unusable_block_ends_request_untouched_witness :
  getclaimsforname_request sampleServer (mkRequest false [VNUM 7; VSTR "44b"])
  = mkRun [] [] (Raised tooDeep)
  /\ getclaimbybid_request sampleServer
       (mkRequest false [VNUM 7; VNUM 0; VSTR "44b"])
     = mkRun [] [] (Raised tooDeep)
  /\ getnamesintrie sampleServer (mkRequest false [VSTR "44b"])
     = mkRun [] [] (Raised tooDeep).
Proof.
  apply (unusable_block_ends_request_untouched sampleServer
           (VNUM 7) (VSTR "44b") 0 1099 tooDeep).
  - intros strName. reflexivity.
  - lia.
  - right. exists (sampleChain 99). split; [vm_compute; reflexivity|].
    right. split; [vm_compute; reflexivity|]. split; [vm_compute|]; reflexivity.
Defined.

(** X18.  A negative bid is refused before the block parameter is read.
    [getclaimbybid] with a negative second parameter ends with the
    invalid-parameter error whatever the name and the block parameter
    are: the block is not looked up, nothing is rewound and the registry
    is not asked. *)
Theorem getclaimbybid_negative_bid_is_refused_first
        {Caches CBlock : Type} (srv : Server Caches CBlock)
        (nameParam : UniValue) (bid : Z) (more : list UniValue)
        (Hmore : (length more <= 1)%nat)
        (Hneg : - 2 ^ 31 <= bid < 0) :
  getclaimbybid_request srv (mkRequest false (nameParam :: VNUM bid :: more))
  = mkRun [] [] (Raised (negative_index (collaborators srv) T_BID)).
Proof.
  unfold getclaimbybid_request.
  rewrite validateRequest_passes by (cbn; (done || lia)).
  cbn [params lookup list_lookup get_int].
  destruct (Z.leb_spec (- 2 ^ 31) bid); [|lia].
  destruct (Z.ltb_spec bid (2 ^ 31)); [|lia]. cbn [andb].
  destruct (Z.ltb_spec bid 0); [done|lia].
Qed.

Lemma getclaimbybid_negative_bid_is_refused_first_witness :
  getclaimbybid_request sampleServer
    (mkRequest false [VSTR "name"; VNUM (-1); VSTR "not a block"])
  = mkRun [] [] (Raised (negative_index sampleCollaborators T_BID)).
Proof.
  apply (getclaimbybid_negative_bid_is_refused_first sampleServer
           (VSTR "name") (-1) [VSTR "not a block"]).
  - simpl. lia.
  - lia.
Defined.

(** X19.  [getnamesintrie] without a block parameter, when no shutdown
    is requested and no interruption is pending while the registry is
    visited: the answer is the list of the escaped names of the nodes that
    hold claims, in the order visited; nothing is rewound and the
    identifier index is not read. *)
Theorem getnamesintrie_lists_nodes_with_claims
        {Caches CBlock : Type} (srv : Server Caches CBlock)
        (Hquiet : quiet srv (length (iterate srv (tipCaches srv)))) :
  getnamesintrie srv (mkRequest false [])
  = mkRun [] []
          (Answer (VARR (map (nameEntry srv)
                             (nonEmptyNodes srv (iterate srv (tipCaches srv)))))).
Proof.
  unfold getnamesintrie.
  rewrite validateRequest_passes by (cbn; (done || lia)).
  cbn [params lookup list_lookup onWorkingCaches].
  rewrite (namesInTrie_quiet srv _ O []); [done|].
  intros j Hj. by apply Hquiet.
Qed.

Lemma getnamesintrie_lists_nodes_with_claims_witness :
  getnamesintrie sampleServer (mkRequest false [])
  = mkRun [] [] (Answer (VARR [VSTR "a"; VSTR "b"])).
Proof.
  apply (getnamesintrie_lists_nodes_with_claims sampleServer).
  intros k _. split; reflexivity.
Defined.

(** X20.  A shutdown or an interruption during the visit discards the
    names collected.  When the first shutdown request or pending
    interruption falls on the visit of node j of the registry,
    [getnamesintrie] ends with "Shutdown requested" (a shutdown takes
    precedence) or with the interruption, also when node j is the last
    node and its name has already been added to the list. *)
Theorem getnamesintrie_stopped_gives_no_names
        {Caches CBlock : Type} (srv : Server Caches CBlock) (j : nat)
        (Hj : (j < length (iterate srv (tipCaches srv)))%nat)
        (Hquiet : quiet srv j)
        (Hstop : ShutdownRequestedAt srv j = true \/ interruptionAt srv j = true) :
  getnamesintrie srv (mkRequest false [])
  = mkRun [] []
          (Raised (if ShutdownRequestedAt srv j
                   then shutdownRequested else thread_interrupted)).
Proof.
  unfold getnamesintrie.
  rewrite validateRequest_passes by (cbn; (done || lia)).
  cbn [params lookup list_lookup onWorkingCaches].
  by rewrite (namesInTrie_stopped srv _ O [] j Hj Hquiet Hstop).
Qed.

Lemma getnamesintrie_stopped_gives_no_names_witness :
  getnamesintrie (sampleServerWith (Some 2%nat) false) (mkRequest false [])
  = mkRun [] [] (Raised shutdownRequested).
Proof.
  apply (getnamesintrie_stopped_gives_no_names
           (sampleServerWith (Some 2%nat) false) 2).
  - simpl. lia.
  - intros k Hk. split; [|reflexivity].
    destruct k as [|[|k]]; [reflexivity|reflexivity|lia].
  - left. reflexivity.
Defined.

Lemma onWorkingCaches_reply_not_runtime_error
      {Caches CBlock : Type} (srv : Server Caches CBlock) {A}
      (blockParam : option UniValue) (strName : string) (body : Caches -> Run A)
      (what : string) :
  (forall working, run_reply (body working) <> runtime_error what) ->
  run_reply (onWorkingCaches srv blockParam strName body) <> runtime_error what.
Proof.
  intros Hbody. unfold onWorkingCaches.
  destruct blockParam as [v|]; [|apply Hbody].
  destruct (ParseHashV srv v strName); [|done].
  destruct (BlockHashIndex _ _); [|done].
  destruct (RollBackTo _ _ _ _) as [[[]|e] st]; [|done].
  apply Hbody.
Qed.

(** X21.  [getnamesintrie] at a block of the active chain.  On a node
    where nothing stops a pass and no shutdown or interruption falls into
    the visit, a request that names the ancestor k blocks below the tip, k
    at most 500, reads and disconnects the k blocks above it on the
    working caches, refreshes the root hash and answers with the names of
    the registry as the rewound caches show it. *)
Theorem getnamesintrie_at_block_lists_rewound_registry
        {Caches CBlock : Type} (srv : Server Caches CBlock)
        (blockParam : UniValue) (h : uint256) (target : CBlockIndex) (k : nat)
        (Hhash : ParseHashV srv blockParam
                   (String.append (key_text (collaborators srv) T_BLOCKHASH)
                                  " (optional parameter 1)") = Return h)
        (Hblock : mapBlockIndex (chainState srv) h = Some target)
        (Hmain : chainActive_Contains (chainState srv) target = true)
        (Hanc : ancestor_at k (chainActive_Tip (chainState srv)) = Some target)
        (Hlinked : heights_linked k (chainActive_Tip (chainState srv)) = true)
        (Hk : Z.of_nat k <= MAX_RPC_BLOCK_DECREMENTS)
        (Hun : unhindered (rewindEnv srv))
        (Hquiet : forall n, quiet srv n) :
  let tip := chainActive_Tip (chainState srv) in
  let rewound := snd (RollBackTo (rewindEnv srv) tip target (tipCaches srv)) in
  getnamesintrie srv (mkRequest false [blockParam])
  = mkRun (rewindSteps k tip ++ [RwGetMerkleHash]) []
          (Answer (VARR (map (nameEntry srv)
                             (nonEmptyNodes srv (iterate srv (caches rewound))))))
  /\ passes rewound = k.
Proof.
  intros tip rewound. subst rewound. unfold getnamesintrie.
  rewrite validateRequest_passes by (cbn; (done || lia)).
  cbn [params lookup list_lookup onWorkingCaches].
  rewrite Hhash. unfold BlockHashIndex. rewrite Hblock, Hmain. cbn [negb].
  fold tip. unfold RollBackTo.
  pose proof (ancestor_height _ _ _ Hanc Hlinked) as Hh. fold tip in Hh.
  destruct (Z.gtb_spec (index_nHeight tip)
              (index_nHeight target + MAX_RPC_BLOCK_DECREMENTS)); [lia|].
  rewrite (rollBackLoop_unhindered (rewindEnv srv) target _ k Hun eq_refl tip _
             Hanc Hlinked).
  cbn [snd caches passes rewind_trace app Nat.add]. split; [|done].
  rewrite (namesInTrie_quiet srv _ O [])
    by (intros j _; apply (Hquiet (S j)); lia).
  unfold afterRewind, runBody. cbn. by rewrite app_nil_r.
Qed.

Lemma getnamesintrie_at_block_lists_rewound_registry_witness :
  let tip := sampleChain 600 in
  let rewound := snd (RollBackTo sampleNode tip (sampleChain 599) O) in
  getnamesintrie sampleServer (mkRequest false [VSTR "63f"])
  = mkRun (rewindSteps 1 tip ++ [RwGetMerkleHash]) []
          (Answer (VARR (map (nameEntry sampleServer)
                             (nonEmptyNodes sampleServer
                                (iterate sampleServer (caches rewound))))))
  /\ passes rewound = 1%nat.
Proof.
  apply (getnamesintrie_at_block_lists_rewound_registry sampleServer
           (VSTR "63f") 1599 (sampleChain 599) 1).
  - reflexivity.
  - vm_compute. reflexivity.
  - vm_compute. reflexivity.
  - reflexivity.
  - vm_compute. reflexivity.
  - unfold MAX_RPC_BLOCK_DECREMENTS. lia.
  - repeat split; done.
  - intros n k _. split; reflexivity.
Defined.

(** X22.  [getclaimsintrie] while the deprecated call is not enabled.
    A request for help or with too many parameters gets the help text;
    every other request is refused as deprecated.  In neither case is a
    block looked up, a cache rewound, or the registry or the index
    asked. *)
Theorem getclaimsintrie_disabled_refuses_untouched
        {Caches CBlock : Type} (srv : Server Caches CBlock)
        (request : JSONRPCRequest)
        (Hoff : IsDeprecatedRPCEnabled srv "getclaimsintrie" = false) :
  getclaimsintrie srv request
  = mkRun [] []
          (if fHelp request || (1 <? Z.of_nat (length (params request)))
           then runtime_error (rpc_help srv GETCLAIMSINTRIE)
           else Raised (JSONRPCError RPC_METHOD_DEPRECATED
                                     getclaimsintrie_deprecated)).
Proof.
  unfold getclaimsintrie, validateRequest, validParams. rewrite Hoff.
  destruct (fHelp request) eqn:Hhelp; cbn [orb negb]; [done|].
  destruct (Z.leb_spec 0 (Z.of_nat (length (params request)))); [|lia].
  cbn [andb]. change (0 + 1) with 1.
  destruct (Z.leb_spec (Z.of_nat (length (params request))) 1),
           (Z.ltb_spec 1 (Z.of_nat (length (params request))));
    cbn [negb]; rewrite ?Hhelp; (done || lia).
Qed.

Lemma getclaimsintrie_disabled_refuses_untouched_witness :
  getclaimsintrie sampleServer (mkRequest false [VSTR "63f"])
  = mkRun [] []
          (Raised (JSONRPCError RPC_METHOD_DEPRECATED getclaimsintrie_deprecated)).
Proof.
  apply (getclaimsintrie_disabled_refuses_untouched sampleServer
           (mkRequest false [VSTR "63f"])).
  reflexivity.
Defined.

(** X23.  The deprecation text is never delivered as a help text.  The
    only [std::runtime_error] [getclaimsintrie] ends with carries the help
    text of the call: the branch of lines 295-296, which would throw the
    deprecation text for a help request, cannot be reached, because
    [validateRequest] has already answered every help request. *)
Theorem getclaimsintrie_help_branch_is_dead
        {Caches CBlock : Type} (srv : Server Caches CBlock)
        (request : JSONRPCRequest) (what : string)
        (Hreply : run_reply (getclaimsintrie srv request) = runtime_error what) :
  what = rpc_help srv GETCLAIMSINTRIE
  /\ (fHelp request = true \/ (1 < length (params request))%nat).
Proof.
  unfold getclaimsintrie, validateRequest, validParams in Hreply.
  destruct (fHelp request) eqn:Hhelp; cbn [orb negb] in Hreply.
  { cbn in Hreply. injection Hreply as <-. split; [done|by left]. }
  destruct (Z.leb_spec 0 (Z.of_nat (length (params request)))); [|lia].
  cbn [andb] in Hreply. change (0 + 1) with 1 in Hreply.
  destruct (Z.leb_spec (Z.of_nat (length (params request))) 1);
    cbn [negb] in Hreply.
  - exfalso. destruct (IsDeprecatedRPCEnabled srv _); cbn [negb] in Hreply;
      [|done].
    revert Hreply. apply onWorkingCaches_reply_not_runtime_error.
    intros working. unfold runBody. cbn [run_reply].
    by destruct (outcome _).
  - cbn in Hreply. injection Hreply as <-. split; [done|right; lia].
Qed.

Lemma getclaimsintrie_help_branch_is_dead_witness :
  "help"%string = rpc_help sampleServer GETCLAIMSINTRIE
  /\ (fHelp (mkRequest true []) = true
      \/ (1 < length (params (mkRequest true [])))%nat).
Proof.
  apply (getclaimsintrie_help_branch_is_dead sampleServer (mkRequest true [])).
  reflexivity.
Defined.

Section ClaimsInTrie.
Context {Caches CBlock : Type} (srv : Server Caches CBlock).

Lemma claimsToJSON_listing coinsCache :
  forall cs acc,
    exists objs,
      claimsToJSON srv coinsCache cs (VARR acc)
      = (readsOf (map claimId cs), Return (VARR (acc ++ objs)))
      /\ Forall2 showsClaim cs objs.
Proof.
  induction cs as [|c cs IH]; intros acc.
  - exists []. rewrite app_nil_r. by split.
  - cbn [claimsToJSON].
    destruct (claimToJSON_returns (collaborators srv) (claimDb srv) coinsCache c)
      as (o & Ho & _ & Hid & _).
    rewrite (bind_returns _ _ _ Ho), claimToJSON_events. cbn [push_back].
    destruct (IH (acc ++ [o])) as (objs & -> & Hall).
    exists (o :: objs). cbn [events fst outcome snd].
    rewrite <- app_assoc, fmap_cons, readsOf_cons. split; [done|].
    by constructor.
Qed.

Lemma claimsInTrie_quiet coinsCache :
  forall nodes_ k acc,
    (forall j, (j < length nodes_)%nat ->
               ShutdownRequestedAt srv (k + j) = false
               /\ interruptionAt srv (k + j) = false) ->
    exists objs,
      claimsInTrie srv coinsCache k nodes_ (VARR acc)
      = (readsOfNodes (nonEmptyNodes srv nodes_), Return (VARR (acc ++ objs)))
      /\ Forall2 (showsNode srv) (nonEmptyNodes srv nodes_) objs.
Proof.
  induction nodes_ as [|[nm data] rest IH]; intros k acc Hq.
  - exists []. rewrite app_nil_r. by split.
  - cbn [claimsInTrie]. destruct (Hq O) as [Hs Hi]; [cbn; lia|].
    rewrite Nat.add_0_r in Hs, Hi. rewrite Hs, Hi.
    unfold nonEmptyNodes. cbn [List.filter snd].
    assert (Hrest : forall j, (j < length rest)%nat ->
                         ShutdownRequestedAt srv (S k + j) = false
                         /\ interruptionAt srv (S k + j) = false).
    { intros j Hj. replace (S k + j)%nat with (k + S j)%nat by lia.
      apply Hq. cbn. lia. }
    destruct (CClaimTrieData_empty srv data); cbn [negb].
    + apply (IH (S k) acc Hrest).
    + destruct (claimsToJSON_listing coinsCache (claims data) [])
        as (claimObjs & Hc & Hshown).
      cbn [app] in Hc.
      rewrite (bind_returns _ _ (VARR claimObjs)) by (by rewrite Hc).
      rewrite Hc. cbn [events fst push_back].
      destruct (IH (S k)
                  (acc ++ [pushKV (pushKV (VOBJ []) T_NORMALIZEDNAME
                                     (VSTR (escapeNonUtf8 (collaborators srv) nm)))
                             T_CLAIMS (VARR claimObjs)]) Hrest)
        as (objs & -> & Hall).
      eexists (_ :: objs). cbn [events fst outcome snd].
      rewrite <- app_assoc. split; [reflexivity|].
      constructor; [|done]. split; [done|]. by exists claimObjs.
Qed.
End ClaimsInTrie.

(** X24.  [getclaimsintrie] when the deprecated call is enabled, without
    a block parameter and with no shutdown or interruption during the
    visit: the answer holds one object per node that holds claims, in the
    order visited, with the escaped name of the node and one object per
    claim of the node; nodes without claims are left out.  Each claim with
    a non-null identifier costs one point read of the identifier index;
    nothing is rewound. *)
Theorem getclaimsintrie_lists_claims_of_every_node
        {Caches CBlock : Type} (srv : Server Caches CBlock)
        (Hon : IsDeprecatedRPCEnabled srv "getclaimsintrie" = true)
        (Hquiet : quiet srv (length (iterate srv (tipCaches srv)))) :
  let shown := nonEmptyNodes srv (iterate srv (tipCaches srv)) in
  exists objs,
    getclaimsintrie srv (mkRequest false [])
    = mkRun [] (readsOfNodes shown) (Answer (VARR objs))
    /\ Forall2 (showsNode srv) shown objs.
Proof.
  intros shown. unfold getclaimsintrie.
  rewrite validateRequest_passes by (cbn; (done || lia)).
  rewrite Hon. cbn [negb params lookup list_lookup onWorkingCaches].
  destruct (claimsInTrie_quiet srv (coinsCacheOf srv (tipCaches srv))
              (iterate srv (tipCaches srv)) O [])
    as (objs & Hrun & Hall).
  { intros j Hj. by apply Hquiet. }
  exists objs. unfold runBody. rewrite Hrun. by split.
Qed.

Lemma getclaimsintrie_lists_claims_of_every_node_witness :
  let shown := nonEmptyNodes (sampleServerWith None true)
                 (iterate (sampleServerWith None true) O) in
  exists objs,
    getclaimsintrie (sampleServerWith None true) (mkRequest false [])
    = mkRun [] (readsOfNodes shown) (Answer (VARR objs))
    /\ Forall2 (showsNode (sampleServerWith None true)) shown objs.
Proof.
  apply (getclaimsintrie_lists_claims_of_every_node (sampleServerWith None true)).
  - reflexivity.
  - intros k _. split; reflexivity.
Defined.

(** ** Escaped names *)

Lemma unescape_unfold (s : string) :
  unescape s
  = match s with
    | EmptyString => Some EmptyString
    | String c rest =>
        if Ascii.eqb c backslash then
          match rest with
          | EmptyString => None
          | String e rest' =>
              if Ascii.eqb e "u" then
                match rest' with
                | String _ (String _ (String x (String y rest''))) =>
                    match HexDigit x, HexDigit y with
                    | Some hi, Some lo =>
                        option_map (String (ascii_of_N (Z.to_N (16 * hi + lo))))
                                   (unescape rest'')
                    | _, _ => None
                    end
                | _ => None
                end
              else
                match unescape_char e with
                | Some ch => option_map (String ch) (unescape rest')
                | None => None
                end
          end
        else option_map (String c) (unescape rest)
    end.
Proof. by destruct s. Qed.

Lemma unescape_escape_byte (c : ascii) (rest : string) :
  unescape (String.append (escape_byte c) rest)
  = option_map (String c) (unescape rest).
Proof.
  rewrite unescape_unfold.
  destruct c as [[] [] [] [] [] [] [] []]; lazy -[unescape]; reflexivity.
Qed.

Lemma unescape_escape_bytes (s : string) :
  unescape (escape_bytes s) = Some s.
Proof.
  induction s as [|c s IH]; [done|].
  cbn [escape_bytes]. by rewrite unescape_escape_byte, IH.
Qed.

Lemma string_forall_app P (a b : string) :
  string_forall P (String.append a b) = string_forall P a && string_forall P b.
Proof.
  induction a as [|c a IH]; [done|]. cbn. by rewrite IH, andb_assoc.
Qed.

Lemma length_append (a b : string) :
  String.length (String.append a b) = (String.length a + String.length b)%nat.
Proof. induction a as [|c a IH]; [done|]. cbn. by rewrite IH. Qed.

Lemma escape_byte_shape (c : ascii) :
  string_forall printable_or_vt (escape_byte c) = true
  /\ (1 <= String.length (escape_byte c) <= 6)%nat.
Proof.
  destruct c as [[] [] [] [] [] [] [] []]; vm_compute; split; (done || lia).
Qed.

(** X25.  The escaped text identifies the names that do not convert,
    and only those.  Among the names on which the conversion to UTF-8
    fails, the text [escapeNonUtf8] writes can be read back to the name,
    so two different such names never get the same text.  Over all names
    the text is ambiguous: a name that converts is returned as converted
    (line 91), so a name that does not convert gets the text of every name
    that converts to its escape. *)
Theorem escaped_text_identifies_unconvertible_names_only (X : Collaborators) :
  (forall a b, to_utf X a = None -> to_utf X b = None ->
               escapeNonUtf8 X a = escapeNonUtf8 X b -> a = b)
  /\ (forall a, to_utf X a = None -> unescape (escapeNonUtf8 X a) = Some a)
  /\ (forall a b, to_utf X a = None -> to_utf X b = Some (escape_bytes a) ->
                  a <> b /\ escapeNonUtf8 X a = escapeNonUtf8 X b).
Proof.
  unfold escapeNonUtf8. split; [|split].
  - intros a b -> -> Hsame.
    pose proof (unescape_escape_bytes a) as Ha.
    rewrite Hsame, unescape_escape_bytes in Ha. congruence.
  - intros a ->. apply unescape_escape_bytes.
  - intros a b Ha Hb. split; [congruence|]. by rewrite Ha, Hb.
Qed.

Lemma escaped_text_identifies_unconvertible_names_only_witness :
  byteFF <> spelledFF
  /\ escapeNonUtf8 asciiCollaborators byteFF
     = escapeNonUtf8 asciiCollaborators spelledFF.
Proof.
  apply (proj2 (proj2 (escaped_text_identifies_unconvertible_names_only
                         asciiCollaborators)));
    reflexivity.
Defined.

(** X26.  What an escaped name is made of.  For a name on which the
    conversion to UTF-8 fails, [escapeNonUtf8] writes only printable ASCII
    characters, except that a vertical tab (0x0b) is copied as it is; each
    byte of the name becomes between one and six characters. *)
Theorem escapeNonUtf8_writes_printable_text
        (X : Collaborators) (name_ : string)
        (Hfail : to_utf X name_ = None) :
  string_forall printable_or_vt (escapeNonUtf8 X name_) = true
  /\ (String.length name_ <= String.length (escapeNonUtf8 X name_)
      <= 6 * String.length name_)%nat.
Proof.
  unfold escapeNonUtf8. rewrite Hfail. clear Hfail.
  induction name_ as [|c s [IHp IHl]]; [cbn; split; (done || lia)|].
  cbn [escape_bytes]. rewrite string_forall_app, length_append.
  destruct (escape_byte_shape c) as [Hp Hl]. rewrite Hp, IHp.
  split; [done|]. cbn [String.length]. lia.
Qed.

Lemma escapeNonUtf8_writes_printable_text_witness :
  string_forall printable_or_vt (escapeNonUtf8 asciiCollaborators rawName) = true
  /\ (String.length rawName
      <= String.length (escapeNonUtf8 asciiCollaborators rawName)
      <= 6 * String.length rawName)%nat.
Proof.
  apply (escapeNonUtf8_writes_printable_text asciiCollaborators rawName).
  reflexivity.
Defined.

(** ** The object of a claim *)

(** X27.  What [claimToJSON] reports.  It never fails and reads the
    identifier index at most once.  The name appears exactly when the
    index holds the claim under its identifier; value and address appear
    only for an unspent coin, the value when its script decodes as a claim
    script, the address when a destination can be extracted.  Identifier,
    transaction, output index (as a signed 32-bit number), heights and
    amount are always reported, and no later field replaces an earlier
    one. *)
Theorem claimToJSON_reports
        (X : Collaborators) (db : CDBWrapper) (coinsCache : CCoinsViewCache)
        (c : CClaimValue) :
  let coin := coinsCache (outPoint c) in
  exists o,
    claimToJSON X db coinsCache c
    = (if IsNull (claimId c) then [] else [EvDbRead (claimId c)], Return o)
    /\ find_value o T_NAME
       = match outcome (getClaimById X db (claimId c)) with
         | Return (Some (targetName, _)) => Some (VSTR (escapeNonUtf8 X targetName))
         | _ => None
         end
    /\ find_value o T_VALUE
       = (if IsSpent coin then None
          else option_map VSTR (extractValue X (scriptPubKey coin)))
    /\ find_value o T_ADDRESS
       = (if IsSpent coin then None
          else option_map (fun a => VSTR (EncodeDestination X a))
                          (ExtractDestination X (scriptPubKey coin)))
    /\ find_value o T_CLAIMID = Some (VSTR (GetHex (claimId c)))
    /\ find_value o T_TXID = Some (VSTR (GetHex256 (hash (outPoint c))))
    /\ find_value o T_N = Some (VNUM (to_int (n (outPoint c))))
    /\ find_value o T_HEIGHT = Some (VNUM (nHeight c))
    /\ find_value o T_VALIDATHEIGHT = Some (VNUM (nValidAtHeight c))
    /\ find_value o T_AMOUNT = Some (VNUM (nAmount c)).
Proof.
  intros coin.
  destruct (getClaimById_returns X db (claimId c)) as [found Hfound].
  unfold claimToJSON.
  rewrite (bind_returns _ _ found Hfound), getClaimById_events, Hfound.
  cbn [events fst outcome snd ret]. rewrite app_nil_r.
  eexists. split; [reflexivity|].
  unfold coinToJSON. fold coin.
  destruct found as [[targetName cl]|], (IsSpent coin),
    (extractValue X (scriptPubKey coin)),
    (ExtractDestination X (scriptPubKey coin)); repeat split; reflexivity.
Qed.

(** ** The object of a proof *)

Lemma fold_left_push_back {A} (f : A -> UniValue) (l : list A) (acc : list UniValue) :
  fold_left (fun arr x => push_back arr (f x)) l (VARR acc)
  = VARR (acc ++ map f l).
Proof.
  revert acc. induction l as [|x l IH]; intros acc; cbn.
  - by rewrite app_nil_r.
  - by rewrite IH, <- app_assoc.
Qed.

(** X28.  What [proofToJSON] reports.  The nodes and the pairs of the
    proof are rendered one for one and in order, and each list is left out
    when it is empty; a node lists all its children.  Transaction, output
    index and height of the last takeover (both cut to signed 32-bit
    numbers) are reported exactly when the proof has a value. *)
Theorem proofToJSON_reports (proof : CClaimTrieProof) :
  let o := proofToJSON proof in
  find_value o T_NODES
  = match nodes proof with
    | [] => None
    | _ => Some (VARR (map nodeToJSON (nodes proof)))
    end
  /\ find_value o T_PAIRS
     = match pairs proof with
       | [] => None
       | _ => Some (VARR (map pairToJSON (pairs proof)))
       end
  /\ find_value o T_TXID
     = (if hasValue proof
        then Some (VSTR (GetHex256 (hash (proof_outPoint proof)))) else None)
  /\ find_value o T_N
     = (if hasValue proof
        then Some (VNUM (to_int (n (proof_outPoint proof)))) else None)
  /\ find_value o T_LASTTAKEOVERHEIGHT
     = (if hasValue proof
        then Some (VNUM (to_int (nHeightOfLastTakeover proof))) else None)
  /\ forall nd, find_value (nodeToJSON nd) T_CHILDREN
                = Some (VARR (map childToJSON (children nd))).
Proof.
  intros o. subst o. unfold proofToJSON.
  rewrite !(fold_left_push_back _ _ []). cbn [app].
  repeat split.
  1-5: destruct (nodes proof), (pairs proof), (hasValue proof); reflexivity.
  intros nd. unfold nodeToJSON. rewrite (fold_left_push_back _ _ []).
  by destruct (_ && _).
Qed.
